(** * SOPSie: the decrypted-view lifecycle, embedded from the TypeScript sources

    The development follows the source tree: one module per class
    ([FileStateTracker], [AutoBehaviorHandler], [DocumentWatcher],
    [SopsRunner], [TempFileHandler], [DecryptedViewService], ...).
    Host objects ([vscode.Uri], [vscode.TextDocument], the file system, the
    child process) are records of the attributes the code reads. *)

From stdpp Require Import gmap strings list pretty.
From Stdlib Require Import Ascii ZArith.
From Stdlib Require String.

(** ** Host values *)

(** [vscode.Uri]: the attributes the extension reads. *)
Record Uri := mkUri {
  scheme : string;
  fsPath : string;
  path : string;
  query : string;
  toString : string
}.

(** [vscode.Uri.file(p)] (no percent-encoding of [p]). *)
Definition Uri_file (p : string) : Uri :=
  {| scheme := "file"; fsPath := p; path := p; query := "";
     toString := "file://" +:+ p |}.

(** [vscode.Uri.parse(s)] for the strings [toString] yields: a file URI,
    or a URI of another scheme kept whole with its scheme read off. *)
Fixpoint schemeOf (s : string) : string :=
  match s with
  | EmptyString => EmptyString
  | String c s' =>
      if Ascii.eqb c ":"%char then EmptyString else String c (schemeOf s')
  end.

Definition Uri_parse (s : string) : Uri :=
  if String.prefix "file://" s
  then Uri_file (String.substring 7 (String.length s - 7) s)
  else {| scheme := schemeOf s; fsPath := s; path := s; query := "";
          toString := s |}.

(** [vscode.TextDocument]: identity, buffer text and dirty bit. *)
Record TextDocument := mkDoc {
  uri : Uri;
  getText : string;
  isDirty : bool
}.

(** The disk: absolute path to file content. *)
Abbreviation Disk := (gmap string string).

(** types.ts *)
Inductive FileEncryptionState := Unknown | Encrypted | Decrypted | PlainText.

Inductive SopsErrorType :=
| CliNotFound | ConfigParseError | ConfigNotFound | DecryptionFailed
| EncryptionFailed | KeyAccessDenied | InvalidFile | Timeout | UnknownError.

Record SopsError := mkSopsError {
  type : SopsErrorType;
  message : string;
  details : option string;
  recoverable : bool;
  suggestedAction : option string
}.

(** What a [throw] or a rejection carries: the plain object built by
    [SopsRunner.createError], or a JavaScript [Error] with its message. *)
Inductive Exn :=
| SopsExn (e : SopsError)
| ErrorExn (msg : string).

(** utils/errorUtils.ts: [getErrorMessage]. A [SopsError] is an object
    literal, not an [Error], so it goes through [String(error)]. *)
Definition getErrorMessage (error : Exn) : string :=
  match error with
  | ErrorExn msg => msg
  | SopsExn _ => "[object Object]"
  end.

(** A settled promise of [A]: resolved with a value or rejected. *)
Inductive Settled (A : Type) :=
| Resolved (a : A)
| Rejected (e : Exn).
Arguments Resolved {A} a.
Arguments Rejected {A} e.

(** settingsService.getSaveBehavior() *)
Inductive SaveBehavior := SaveManualEncrypt | SaveAutoEncrypt | SavePrompt.

(** ** JavaScript string methods the sources use (on ASCII text) *)
Module JSString.

Definition toLowerChar (c : ascii) : ascii :=
  let n := nat_of_ascii c in
  if (65 <=? n) && (n <=? 90) then ascii_of_nat (n + 32) else c.

(** [s.toLowerCase()] *)
Fixpoint toLowerCase (s : string) : string :=
  match s with
  | EmptyString => EmptyString
  | String c s' => String (toLowerChar c) (toLowerCase s')
  end.

(** [s.includes(sub)] *)
Definition includes (s sub : string) : bool :=
  match String.index 0 sub s with
  | Some _ => true
  | None => false
  end.

(** [s.startsWith(p)] *)
Definition startsWith (s p : string) : bool := String.prefix p s.

(** [s.endsWith(suffix)] *)
Definition endsWith (s suffix : string) : bool :=
  String.prefix (String.rev suffix) (String.rev s).

(** [s.slice(1)] *)
Definition slice1 (s : string) : string :=
  String.substring 1 (String.length s - 1) s.

(** The double-quote character. *)
Definition dquote : string := String (ascii_of_nat 34) EmptyString.

End JSString.

(** ** Node's [path] module (POSIX flavour), as the sources call it *)
Module NodePath.
Import JSString.

Definition chars (s : string) : list ascii := String.list_ascii_of_string s.
Definition str (l : list ascii) : string := String.string_of_list_ascii l.

Definition isSlash (c : ascii) : bool := Ascii.eqb c "/"%char.
Definition isDot (c : ascii) : bool := Ascii.eqb c "."%char.

Fixpoint dropWhile (f : ascii -> bool) (l : list ascii) : list ascii :=
  match l with
  | [] => []
  | c :: l' => if f c then dropWhile f l' else l
  end.

Fixpoint takeUntil (f : ascii -> bool) (l : list ascii) : list ascii :=
  match l with
  | [] => []
  | c :: l' => if f c then [] else c :: takeUntil f l'
  end.

(** The last portion of a path, read from its end as Node scans it:
    trailing separators are skipped, then characters are taken up to the
    next separator. The result is reversed. *)
Definition revSegment (p : string) : list ascii :=
  takeUntil isSlash (dropWhile isSlash (reverse (chars p))).

(** [path.basename(p)] *)
Definition basename (p : string) : string := str (reverse (revSegment p)).

(** Splits a reversed segment at its first dot, the last dot of the
    segment: what follows that dot and what precedes it, both reversed. *)
Fixpoint splitDot (l : list ascii) : option (list ascii * list ascii) :=
  match l with
  | [] => None
  | c :: l' =>
      if isDot c then Some ([], l')
      else match splitDot l' with
           | Some (after, before) => Some (c :: after, before)
           | None => None
           end
  end.

(** The extension of a reversed segment, in reading order: from the last
    dot of the segment; empty when there is no dot, when the dot is the
    segment's first character, and for the segment [..]. *)
Definition extChars (revSeg : list ascii) : list ascii :=
  match splitDot revSeg with
  | None => []
  | Some (after, before) =>
      match after, before with
      | _, [] => []
      | [], [c] => if isDot c then [] else "."%char :: reverse after
      | _, _ => "."%char :: reverse after
      end
  end.

(** [path.extname(p)] *)
Definition extname (p : string) : string := str (extChars (revSegment p)).

(** [path.basename(p, suffix)]: the suffix is removed from the last
    portion unless it is the whole portion. *)
Definition basenameExt (p suffix : string) : string :=
  let sfx := chars suffix in
  if bool_decide (sfx = []) || (length (chars p) <? length sfx)
  then basename p
  else if bool_decide (sfx = chars p) then ""
  else
    let seg := reverse (revSegment p) in
    if bool_decide (drop (length seg - length sfx) seg = sfx)
       && negb (bool_decide (seg = sfx))
    then str (take (length seg - length sfx) seg)
    else str seg.

(** Portions of a path between separators. *)
Fixpoint splitSlash (cur : list ascii) (l : list ascii) : list (list ascii) :=
  match l with
  | [] => [reverse cur]
  | c :: l' =>
      if isSlash c then reverse cur :: splitSlash [] l'
      else splitSlash (c :: cur) l'
  end.

Definition dotdot : list ascii := ["."%char; "."%char].

(** [normalizeString]: the stack of kept portions, last one first. *)
Definition normalizeStep (allowAboveRoot : bool)
    (stack : list (list ascii)) (seg : list ascii) : list (list ascii) :=
  if bool_decide (seg = []) || bool_decide (seg = ["."%char]) then stack
  else if bool_decide (seg = dotdot) then
    match stack with
    | top :: rest =>
        if bool_decide (top = dotdot) then seg :: stack else rest
    | [] => if allowAboveRoot then [seg] else []
    end
  else seg :: stack.

Fixpoint joinSlash (segs : list (list ascii)) : list ascii :=
  match segs with
  | [] => []
  | [s] => s
  | s :: rest => s ++ "/"%char :: joinSlash rest
  end.

(** [path.normalize(p)] *)
Definition normalize (p : string) : string :=
  match chars p with
  | [] => "."
  | c0 :: _ =>
      let isAbsolute := isSlash c0 in
      let trailing :=
        match reverse (chars p) with
        | c :: _ => isSlash c
        | [] => false
        end in
      let kept :=
        reverse (foldl (normalizeStep (negb isAbsolute)) []
                   (splitSlash [] (chars p))) in
      let body := joinSlash kept in
      match body with
      | [] => if isAbsolute then "/" else if trailing then "./" else "."
      | _ =>
          let body' := if trailing then body ++ ["/"%char] else body in
          str (if isAbsolute then "/"%char :: body' else body')
      end
  end.

(** [path.join(a, b)] *)
Definition join (a b : string) : string :=
  if bool_decide (a = "") then
    (if bool_decide (b = "") then "." else normalize b)
  else if bool_decide (b = "") then normalize a
  else normalize (a +:+ "/" +:+ b).

(** [path.dirname(p)] *)
Definition dirname (p : string) : string :=
  match chars p with
  | [] => "."
  | c0 :: rest =>
      let hasRoot := isSlash c0 in
      match dropWhile (fun c => negb (isSlash c))
              (dropWhile isSlash (reverse rest)) with
      | [] => if hasRoot then "/" else "."
      | _ :: before =>
          if hasRoot && bool_decide (before = []) then "//"
          else str (c0 :: reverse before)
      end
  end.

End NodePath.

(** ** sops/sopsRunner.ts *)
Module SopsRunner.
Import JSString NodePath.

Definition getInputType (ext : string) : string :=
  let e := toLowerCase ext in
  if String.eqb e "json" then "json"
  else if String.eqb e "env" then "dotenv"
  else if String.eqb e "ini" then "ini"
  else if String.eqb e "yaml" || String.eqb e "yml" then "yaml"
  else "binary".

(** *** Errors *)

Definition isCliNotFound (t : SopsErrorType) : bool :=
  match t with CliNotFound => true | _ => false end.

Definition createError (t : SopsErrorType) (msg : string)
    (det action : option string) : SopsError :=
  {| type := t; message := msg; details := det;
     recoverable := negb (isCliNotFound t); suggestedAction := action |}.

(** The exit code of the ['close'] event: [number | null]. *)
Definition showCode (code : option Z) : string :=
  match code with
  | Some z => pretty z
  | None => "null"
  end.

Definition parseError (stderr : string) (code : option Z) : SopsError :=
  let lowerStderr := toLowerCase stderr in
  if includes lowerStderr "could not decrypt"
     || includes lowerStderr "failed to get the data key"
     || includes lowerStderr "cannot find key"
  then createError KeyAccessDenied
         "Unable to decrypt file - key access denied" (Some stderr)
         (Some "Check your encryption key configuration (age, GPG, KMS, etc.)")
  else if includes lowerStderr "config file not found"
          || includes lowerStderr ".sops.yaml"
  then createError ConfigNotFound "No .sops.yaml configuration found"
         (Some stderr) (Some "Create a .sops.yaml file in your workspace root")
  else if includes lowerStderr "error parsing" || includes lowerStderr "yaml:"
  then createError InvalidFile "Invalid file format" (Some stderr)
         (Some "Ensure the file is valid YAML/JSON")
  else if includes stderr "encrypt"
  then createError EncryptionFailed "Encryption failed" (Some stderr) None
  else if includes stderr "decrypt"
  then createError DecryptionFailed "Decryption failed" (Some stderr) None
  else createError UnknownError
         ("SOPS failed with code " +:+ showCode code) (Some stderr) None.

(** *** The child process

    [ChildProcess] as Node documents it: [kill(signal)] sends the signal
    when the process still exists, and [killed] becomes [true] once a
    signal has been sent with success. [killed] does not tell whether the
    process has ended. *)
Inductive Signal := SIGTERM | SIGKILL.

Record ChildProcess := mkProc {
  killed : bool;
  (** the operating-system process still exists *)
  alive : bool;
  (** the signals delivered to it, oldest first *)
  signalsSent : list Signal
}.

Definition kill (sig : Signal) (p : ChildProcess) : ChildProcess :=
  if alive p
  then {| killed := true; alive := true;
          signalsSent := signalsSent p ++ [sig] |}
  else p.

(** What the event loop hands to the callbacks [runCommand] installs. *)
Inductive ProcEvent :=
| StdoutData (data : string)
| StderrData (data : string)
| ProcClose (code : option Z)
| ProcError (errCode errMessage : string)
(** the timer armed with the configured timeout fires *)
| TimeoutElapsed
(** the 1000 ms timer armed by [killProcess] fires *)
| GraceElapsed.

(** The variables a call of [runCommand] closes over. *)
Record Run := mkRun {
  proc : ChildProcess;
  isSettled : bool;
  stdout : string;
  stderr : string;
  (** the timeout timer is armed: set by [setTimeout], reset by
      [clearTimeout] and by its firing *)
  timer : bool;
  (** the grace timer of [killProcess] is armed *)
  graceTimer : bool;
  stdinWritten : option string;
  (** how the promise was settled, if it was *)
  settled : option (Settled string)
}.

Definition killProcess (r : Run) : Run :=
  if negb (killed (proc r))
  then {| proc := kill SIGTERM (proc r); isSettled := isSettled r;
          stdout := stdout r; stderr := stderr r; timer := timer r;
          graceTimer := true; stdinWritten := stdinWritten r;
          settled := settled r |}
  else r.

Definition settle (o : Settled string) (r : Run) : Run :=
  {| proc := proc r; isSettled := true; stdout := stdout r;
     stderr := stderr r; timer := timer r; graceTimer := graceTimer r;
     stdinWritten := stdinWritten r; settled := Some o |}.

Definition clearTimer (r : Run) : Run :=
  {| proc := proc r; isSettled := isSettled r; stdout := stdout r;
     stderr := stderr r; timer := false; graceTimer := graceTimer r;
     stdinWritten := stdinWritten r; settled := settled r |}.

Definition withProc (p : ChildProcess) (r : Run) : Run :=
  {| proc := p; isSettled := isSettled r; stdout := stdout r;
     stderr := stderr r; timer := timer r; graceTimer := graceTimer r;
     stdinWritten := stdinWritten r; settled := settled r |}.

(** [spawn] and the synchronous part of the executor. *)
Definition spawn (spawned : bool) (stdin : string) : Run :=
  {| proc := {| killed := false; alive := spawned; signalsSent := [] |};
     isSettled := false; stdout := ""; stderr := "";
     timer := true; graceTimer := false;
     stdinWritten := if bool_decide (stdin = "") then None else Some stdin;
     settled := None |}.

(** The error of the timeout timer. *)
Definition timeoutError (timeout : N) : SopsError :=
  createError Timeout
    ("Operation timed out after " +:+ pretty timeout +:+ "ms") None None.

(** One callback run. *)
Definition step (cmd : string) (timeout : N) (r : Run) (ev : ProcEvent)
  : Run :=
  match ev with
  | TimeoutElapsed =>
      if timer r then
        let r := clearTimer r in
        if negb (isSettled r) then
          settle (Rejected (SopsExn (timeoutError timeout))) (killProcess r)
        else r
      else r
  | GraceElapsed =>
      if graceTimer r then
        if negb (killed (proc r))
        then withProc (kill SIGKILL (proc r)) r
        else r
      else r
  | StdoutData data =>
      {| proc := proc r; isSettled := isSettled r;
         stdout := stdout r +:+ data; stderr := stderr r; timer := timer r;
         graceTimer := graceTimer r; stdinWritten := stdinWritten r;
         settled := settled r |}
  | StderrData data =>
      {| proc := proc r; isSettled := isSettled r;
         stdout := stdout r; stderr := stderr r +:+ data; timer := timer r;
         graceTimer := graceTimer r; stdinWritten := stdinWritten r;
         settled := settled r |}
  | ProcClose code =>
      let r := clearTimer
                 (withProc {| killed := killed (proc r); alive := false;
                              signalsSent := signalsSent (proc r) |} r) in
      if negb (isSettled r) then
        if bool_decide (code = Some 0%Z)
        then settle (Resolved (stdout r)) r
        else settle (Rejected (SopsExn (parseError (stderr r) code))) r
      else r
  | ProcError errCode errMessage =>
      let r := clearTimer r in
      if negb (isSettled r) then
        let r := killProcess r in
        if String.eqb errCode "ENOENT"
        then settle (Rejected (SopsExn (createError CliNotFound
                       ("SOPS CLI not found at " +:+ dquote +:+ cmd +:+ dquote)
                       (Some "Install SOPS or update the sopsPath setting")
                       None))) r
        else settle (Rejected (SopsExn (createError UnknownError
                       ("Failed to run SOPS: " +:+ errMessage) None None))) r
      else r
  end.

(** What the runner reads from its surroundings. *)
Record Env := mkEnv {
  getSopsPath : string;
  getTimeout : N;
  (** whether [spawn] started a process for the command line *)
  spawned : string -> list string -> bool;
  (** the events of the run of a command line, in the order the event loop
      dispatches them *)
  events : string -> list string -> list ProcEvent;
  (** [fs.writeFileSync] throws for this path *)
  writeFails : string -> bool;
  (** [fs.unlinkSync] throws for this path although the file exists (the
      file is locked, or the directory refuses the removal) *)
  unlinkFails : string -> bool
}.

(** [runCommand]: the closure after the events of the run. *)
Definition runCommand (env : Env) (cmd : string) (args : list string)
    (cwd stdin : string) (timeout : N) : Run :=
  foldl (step cmd timeout) (spawn (spawned env cmd args) stdin)
        (events env cmd args).

(** *** The promise of [runCommand]

    The executor calls [spawn] and hooks the streams of the child before
    any event is dispatched, and what it throws on the way rejects the
    promise. [spawn] throws for a command that is empty or holds a null
    byte, and for the errors of the system it does not report through
    ['error']; for [EMFILE] and [ENFILE] it returns a child without its
    streams, on which [proc.stdout.on] throws a [TypeError]. [spawn] and
    [runCommand] above describe the call whose executor returns. *)
Inductive Executor :=
(** the executor throws an [Error] with this message *)
| ExecutorThrows (message : string)
| ExecutorReturns.

(** How the promise is settled, [None] while it is pending. *)
Definition runCommandPromise (host : Executor) (env : Env) (cmd : string)
    (args : list string) (cwd stdin : string) (timeout : N)
  : option (Settled string) :=
  match host with
  | ExecutorThrows message => Some (Rejected (ErrorExn message))
  | ExecutorReturns => settled (runCommand env cmd args cwd stdin timeout)
  end.

Definition getWorkingDirectory (filePath : string) : string :=
  dirname filePath.

Definition runSops (env : Env) (args : list string) (filePath : string)
  : Run :=
  runCommand env (getSopsPath env) args (getWorkingDirectory filePath) ""
             (getTimeout env).

Definition decryptArgs (filePath : string) : list string :=
  if String.eqb (getInputType (slice1 (extname filePath))) "binary"
  then ["--decrypt"; "--input-type"; "binary"; "--output-type"; "binary";
        filePath]
  else ["--decrypt"; filePath].

(** The four executor calls: [None] while the promise is pending. *)
Definition decrypt (env : Env) (filePath : string)
  : option (Settled string) :=
  settled (runSops env (decryptArgs filePath) filePath).

Definition voidOf (o : option (Settled string)) : option (Settled unit) :=
  match o with
  | Some (Resolved _) => Some (Resolved tt)
  | Some (Rejected e) => Some (Rejected e)
  | None => None
  end.

Definition updateKeys (env : Env) (filePath : string)
  : option (Settled unit) :=
  voidOf (settled (runSops env ["updatekeys"; "--yes"; filePath] filePath)).

Definition rotate (env : Env) (filePath : string)
  : option (Settled unit) :=
  voidOf (settled (runSops env ["rotate"; "--in-place"; filePath] filePath)).

(** *** [encryptContent] and its scratch file *)

Definition scratchPath (now : N) (rnd : string) (filePath : string)
  : string :=
  join (dirname filePath)
       (".sopsie-temp-" +:+ pretty now +:+ "-" +:+ rnd +:+ extname filePath).

(** [fs.writeFileSync(p, content, 'utf8')] *)
Definition writeFileSync (env : Env) (p content : string) (fs : Disk)
  : Exn + Disk :=
  if writeFails env p then inl (ErrorExn "EACCES: permission denied")
  else inr (<[ p := content ]> fs).

(** [fs.existsSync(p)] *)
Definition existsSync (p : string) (fs : Disk) : bool :=
  bool_decide (is_Some (fs !! p)).

(** [fs.unlinkSync(p)] *)
Definition unlinkSync (env : Env) (p : string) (fs : Disk) : Exn + Disk :=
  if negb (existsSync p fs)
  then inl (ErrorExn "ENOENT: no such file or directory")
  else if unlinkFails env p
  then inl (ErrorExn "EPERM: operation not permitted")
  else inr (delete p fs).

(** The [finally] block: its own [try]/[catch] logs what [unlinkSync]
    throws and goes on. *)
Definition cleanup (env : Env) (p : string) (fs : Disk) : Disk :=
  if existsSync p fs then
    match unlinkSync env p fs with
    | inr fs' => fs'
    | inl _ => fs
    end
  else fs.

(** [now] is [Date.now()] and [rnd] is
    [Math.random().toString(36).slice(2)]. The result is [None] while the
    awaited run is pending: the [finally] block has not run yet. *)
Definition encryptContent (env : Env) (now : N) (rnd : string)
    (content filePath : string) (fs : Disk)
  : option (Settled string) * Disk :=
  let tempFilePath := scratchPath now rnd filePath in
  match writeFileSync env tempFilePath content fs with
  | inl e => (Some (Rejected e), cleanup env tempFilePath fs)
  | inr fs1 =>
      match settled (runSops env ["--encrypt"; tempFilePath] tempFilePath) with
      | Some o => (Some o, cleanup env tempFilePath fs1)
      | None => (None, fs1)
      end
  end.

End SopsRunner.

(** ** handlers/tempFileHandler.ts *)
Module TempFileHandler.
Import NodePath.

(** What the handler does to the world outside its own map, in order. *)
Inductive Effect :=
| WriteFile (p content : string)
| Unlink (p : string)
| EncryptContent (content filePath : string)
| ShowInformationMessage (msg : string)
| ShowErrorMessage (msg : string).

Global Instance Effect_eq_dec : EqDecision Effect.
Proof. solve_decision. Defined.

Record Env := mkEnv {
  (** [os.tmpdir()] *)
  tmpdir : string;
  (** the injected [sopsRunner.encryptContent(content, filePath)] *)
  encryptContent : string -> string -> Settled string;
  (** [fs.promises.writeFile] rejects for this path *)
  writeFails : string -> bool;
  (** [fs.promises.unlink] rejects for this path *)
  unlinkFails : string -> bool
}.

Record State := mkState {
  (** [tempToOriginal = new Map<string, string>()] *)
  tempToOriginal : gmap string string;
  disk : Disk;
  effects : list Effect
}.

(** The name and the path [createTempFile] gives the copy of a source. *)
Definition tempFileName (originalPath : string) : string :=
  let ext := extname originalPath in
  let nameWithoutExt := basenameExt originalPath ext in
  nameWithoutExt +:+ ".sops-edit" +:+ ext.

Definition tempPathOf (env : Env) (originalPath : string) : string :=
  join (tmpdir env) (tempFileName originalPath).

(** [createTempFile(originalUri, decryptedContent)]: the new state and the
    URI it resolves to, or what it rejects with. *)
Definition createTempFile (env : Env) (originalUri : Uri)
    (decryptedContent : string) (st : State) : State * (Exn + Uri) :=
  let originalPath := fsPath originalUri in
  let tempPath := tempPathOf env originalPath in
  let attempted := effects st ++ [WriteFile tempPath decryptedContent] in
  if writeFails env tempPath then
    ({| tempToOriginal := tempToOriginal st; disk := disk st;
        effects := attempted |},
     inl (ErrorExn "EACCES: permission denied"))
  else
    ({| tempToOriginal := <[ tempPath := originalPath ]> (tempToOriginal st);
        disk := <[ tempPath := decryptedContent ]> (disk st);
        effects := attempted |},
     inr (Uri_file tempPath)).

(** [onDocumentSaved(doc)] *)
Definition onDocumentSaved (env : Env) (doc : TextDocument) (st : State)
  : State :=
  let tempPath := fsPath (uri doc) in
  match tempToOriginal st !! tempPath with
  | None => st
  | Some originalPath =>
      if bool_decide (originalPath = "") then st
      else
        let content := getText doc in
        let called := effects st ++ [EncryptContent content originalPath] in
        match encryptContent env content originalPath with
        | Rejected e =>
            {| tempToOriginal := tempToOriginal st; disk := disk st;
               effects := called ++
                 [ShowErrorMessage
                    ("Failed to encrypt and save: " +:+ getErrorMessage e)] |}
        | Resolved encrypted =>
            if writeFails env originalPath then
              {| tempToOriginal := tempToOriginal st; disk := disk st;
                 effects := called ++
                   [WriteFile originalPath encrypted;
                    ShowErrorMessage
                      ("Failed to encrypt and save: "
                         +:+ "EACCES: permission denied")] |}
            else
              {| tempToOriginal := tempToOriginal st;
                 disk := <[ originalPath := encrypted ]> (disk st);
                 effects := called ++
                   [WriteFile originalPath encrypted;
                    ShowInformationMessage
                      ("Encrypted and saved to "
                         +:+ basename originalPath)] |}
        end
  end.

(** [onDocumentClosed(doc)] *)
Definition onDocumentClosed (env : Env) (doc : TextDocument) (st : State)
  : State :=
  let tempPath := fsPath (uri doc) in
  if bool_decide (is_Some (tempToOriginal st !! tempPath)) then
    {| tempToOriginal := delete tempPath (tempToOriginal st);
       disk := if unlinkFails env tempPath then disk st
               else delete tempPath (disk st);
       effects := effects st ++ [Unlink tempPath] |}
  else st.

(** [dispose()] *)
Definition dispose (env : Env) (st : State) : State :=
  let paths := map fst (map_to_list (tempToOriginal st)) in
  {| tempToOriginal := ∅;
     disk := foldr (fun p d => if unlinkFails env p then d else delete p d)
                   (disk st) paths;
     effects := effects st ++ map Unlink paths |}.

(** *** The handler with the runner it is constructed with

    [new TempFileHandler(sopsRunner)]: the call injected into
    [onDocumentSaved] is the runner's [encryptContent], which writes a
    scratch file next to the source and removes it again while it runs.
    The handler goes on from the disk the runner leaves, with what the
    runner's promise settled to; the result is [None] while that promise
    is pending. *)
Definition onDocumentSavedWith (runner : SopsRunner.Env) (now : N)
    (rnd : string) (env : Env) (doc : TextDocument) (st : State)
  : option State :=
  match tempToOriginal st !! fsPath (uri doc) with
  | None => Some st
  | Some originalPath =>
      if bool_decide (originalPath = "") then Some st
      else
        match SopsRunner.encryptContent runner now rnd (getText doc)
                originalPath (disk st) with
        | (None, _) => None
        | (Some outcome, fs) =>
            Some (onDocumentSaved
                    {| tmpdir := tmpdir env;
                       encryptContent := fun _ _ => outcome;
                       writeFails := writeFails env;
                       unlinkFails := unlinkFails env |}
                    doc
                    {| tempToOriginal := tempToOriginal st; disk := fs;
                       effects := effects st |})
        end
  end.

End TempFileHandler.

(** ** services/editorGroupTracker.ts

    The file is not among the sources; the callers in
    [decryptedViewService.ts], [documentWatcher.ts] and
    [switchToEditInPlaceCommand.ts] fix the interface. *)
Module EditorGroupTracker.

(** [vscode.ViewColumn] *)
Inductive ViewColumn := Active | Beside | Column (n : nat).

Record TrackedDocument := mkTracked {
  docUri : string;
  originalActiveUri : string;
  openedInColumn : ViewColumn;
  originalColumn : option ViewColumn
}.

(** Modelled from the spec, whose Registry holds the sessions, "at most
    one active Session per sourcePath": the sessions are kept oldest
    first. *)
Record t := mkTracker {
  extensionTriggeredOpen : bool;
  sessions : list TrackedDocument
}.

(** Modelled from the spec: [setExtensionTriggeredOpen] is missing from the
    sources. GuardState is "a boolean 'manager is currently issuing its own
    open/close calls' flag"; the setter stores its argument. *)
Definition setExtensionTriggeredOpen (v : bool) (tr : t) : t :=
  {| extensionTriggeredOpen := v; sessions := sessions tr |}.

(** Modelled from the spec: [isExtensionOpening] is missing from the
    sources; it reads the flag. *)
Definition isExtensionOpening (tr : t) : bool := extensionTriggeredOpen tr.

(** Modelled from the spec: [getSession(sourcePath)], the session of a
    source, if it has one. *)
Definition getSession (source : string) (tr : t) : option TrackedDocument :=
  find (fun s => String.eqb (originalActiveUri s) source) (sessions tr).

(** Modelled from the spec: what [trackDocumentOpened], missing from the
    sources, does to the Registry. [trackOpened] "overwrites any prior
    session for the same sourcePath"; that it "must first close the
    superseded session's ephemeral file" is an effect on the editor, and
    is written with the service below. *)
Definition installSession (doc source : Uri) (column : ViewColumn) (tr : t)
  : t :=
  {| extensionTriggeredOpen := extensionTriggeredOpen tr;
     sessions :=
       filter (fun s => originalActiveUri s ≠ toString source) (sessions tr)
       ++ [{| docUri := toString doc;
              originalActiveUri := toString source;
              openedInColumn := column;
              originalColumn := None |}] |}.

(** [getCurrentTrackedDocument] is missing from the sources and has no
    counterpart in the spec; its callers take what it returns for the
    view that is open now. It is modelled as the session installed
    last. *)
Definition getCurrentTrackedDocument (tr : t) : option TrackedDocument :=
  last (sessions tr).

(** A key of [untrack]: the ephemeral path or the source path of the
    session. *)
Definition namedBy (key : string) (s : TrackedDocument) : bool :=
  String.eqb (docUri s) key || String.eqb (originalActiveUri s) key.

(** Modelled from the spec: [untrackDocument] is missing from the sources.
    [untrack(ephemeralPathOrSourcePath)] "returns the session the first
    time and null thereafter". *)
Definition untrackDocument (u : Uri) (tr : t)
  : option TrackedDocument * t :=
  match find (namedBy (toString u)) (sessions tr) with
  | Some d =>
      (Some d, {| extensionTriggeredOpen := extensionTriggeredOpen tr;
                  sessions :=
                    filter (fun s => namedBy (toString u) s = false)
                           (sessions tr) |})
  | None => (None, tr)
  end.

End EditorGroupTracker.

(** ** services/decryptedViewService.ts *)
Module DecryptedViewService.
Import NodePath EditorGroupTracker.

Definition SOPS_DECRYPTED_SCHEME : string := "sops-decrypted".

Inductive ViewMode := preview | editInPlace.

Record ShowDecryptedOptions := mkOptions {
  preserveFocus : bool;
  showInfoMessage : option bool
}.

(** [vscode.TextEditor] *)
Record TextEditor := mkEditor {
  document : TextDocument;
  viewColumn : option ViewColumn
}.

(** The calls into the editor and into the injected collaborators. *)
Inductive HostCall :=
| OpenTextDocument (u : string)
| ShowTextDocument (u : string) (column : ViewColumn) (keepFocus : bool)
| SetTextDocumentLanguage (u : string) (languageId : string)
| ShowInformationMessage (msg : string)
| ShowWarningMessage (msg : string) (items : list string)
| ShowErrorMessage (msg : string)
| CloseTab (u : string)
| SaveDocument (u : string)
| Decrypt (filePath : string)
| CreateTempFile (filePath : string).

(** A call together with what [isExtensionOpening()] returns while it is
    being made. *)
Record Observation := mkObs {
  call : HostCall;
  flagAtCall : bool
}.

Record World := mkWorld {
  tracker : EditorGroupTracker.t;
  temp : TempFileHandler.State;
  (** [vscode.workspace.textDocuments] *)
  textDocuments : list TextDocument;
  (** [vscode.window.visibleTextEditors] *)
  visibleTextEditors : list TextEditor;
  (** [vscode.window.activeTextEditor] *)
  activeTextEditor : option TextEditor;
  (** [vscode.window.tabGroups.all]: the URIs of the text tabs of each
      group *)
  tabGroups : list (list string);
  observed : list Observation
}.

Record Env := mkEnv {
  (** [sopsRunner.decrypt(filePath)] *)
  decrypt : string -> Settled string;
  getDecryptedViewMode : ViewMode;
  shouldOpenDecryptedBeside : bool;
  tempEnv : TempFileHandler.Env;
  (** the call made as the [n]-th observed one throws *)
  throws : nat -> HostCall -> option Exn;
  (** the item the user picks in the [n]-th observed call, a dialog *)
  picks : nat -> option string;
  (** the text of the document the editor opens for a URI *)
  textOf : Uri -> string;
  (** the column the editor reports for a document it has shown *)
  columnOf : Uri -> option ViewColumn
}.

(** *** State and exceptions *)

Definition M (A : Type) : Type := World -> (Exn + A) * World.

Definition ret {A} (a : A) : M A := fun w => (inr a, w).

Definition bind {A B} (m : M A) (k : A -> M B) : M B :=
  fun w =>
    match m w with
    | (inr a, w') => k a w'
    | (inl e, w') => (inl e, w')
    end.

Definition throw {A} (e : Exn) : M A := fun w => (inl e, w).

(** [try { body } catch (e) { handler }] *)
Definition tryCatch {A} (body : M A) (handler : Exn -> M A) : M A :=
  fun w =>
    match body w with
    | (inr a, w') => (inr a, w')
    | (inl e, w') => handler e w'
    end.

(** [try { body } finally { fin }], for a [fin] that does not throw. *)
Definition tryFinally {A} (body : M A) (fin : World -> World) : M A :=
  fun w =>
    match body w with
    | (r, w') => (r, fin w')
    end.

Global Instance M_ret : MRet M := @ret.
Global Instance M_bind : MBind M := fun A B k m => bind m k.

Definition modify (f : World -> World) : M unit :=
  fun w => (inr tt, f w).

Definition gets {A} (f : World -> A) : M A := fun w => (inr (f w), w).

Definition withTracker (f : EditorGroupTracker.t -> EditorGroupTracker.t)
    (w : World) : World :=
  {| tracker := f (tracker w); temp := temp w;
     textDocuments := textDocuments w;
     visibleTextEditors := visibleTextEditors w;
     activeTextEditor := activeTextEditor w; tabGroups := tabGroups w;
     observed := observed w |}.

Definition withTemp (t' : TempFileHandler.State) (w : World) : World :=
  {| tracker := tracker w; temp := t';
     textDocuments := textDocuments w;
     visibleTextEditors := visibleTextEditors w;
     activeTextEditor := activeTextEditor w; tabGroups := tabGroups w;
     observed := observed w |}.

Definition flag (w : World) : bool := isExtensionOpening (tracker w).

Section WithEnv.
Context (env : Env).

(** *** Calls into the editor *)

Definition record (c : HostCall) (w : World) : World :=
  {| tracker := tracker w; temp := temp w;
     textDocuments := textDocuments w;
     visibleTextEditors := visibleTextEditors w;
     activeTextEditor := activeTextEditor w; tabGroups := tabGroups w;
     observed := observed w ++ [{| call := c; flagAtCall := flag w |}] |}.

(** An awaited call: it is observed, and it may throw. *)
Definition observe (c : HostCall) : M unit :=
  fun w =>
    match throws env (length (observed w)) c with
    | Some e => (inl e, record c w)
    | None => (inr tt, record c w)
    end.

(** A call whose thenable is not awaited. *)
Definition notify (c : HostCall) : M unit :=
  fun w => (inr tt, record c w).

(** An awaited dialog: the picked item, [None] when it is dismissed. *)
Definition ask (c : HostCall) : M (option string) :=
  fun w => (inr (picks env (length (observed w))), record c w).

Definition sameUri (u : Uri) (d : TextDocument) : bool :=
  String.eqb (toString (uri d)) (toString u).

(** [vscode.workspace.openTextDocument(uri)] *)
Definition openTextDocument (u : Uri) : M TextDocument :=
  observe (OpenTextDocument (toString u));;
  w ← gets id;
  match find (sameUri u) (textDocuments w) with
  | Some d => mret d
  | None =>
      let d := {| uri := u; getText := textOf env u; isDirty := false |} in
      modify (fun w =>
        {| tracker := tracker w; temp := temp w;
           textDocuments := textDocuments w ++ [d];
           visibleTextEditors := visibleTextEditors w;
           activeTextEditor := activeTextEditor w; tabGroups := tabGroups w;
           observed := observed w |});;
      mret d
  end.

(** [vscode.window.showTextDocument(doc, { viewColumn, preserveFocus })] *)
Definition showTextDocument (d : TextDocument) (column : ViewColumn)
    (keepFocus : bool) : M TextEditor :=
  observe (ShowTextDocument (toString (uri d)) column keepFocus);;
  let ed := {| document := d; viewColumn := columnOf env (uri d) |} in
  modify (fun w =>
    {| tracker := tracker w; temp := temp w;
       textDocuments := textDocuments w;
       visibleTextEditors := visibleTextEditors w ++ [ed];
       activeTextEditor := if keepFocus then activeTextEditor w else Some ed;
       tabGroups := tabGroups w;
       observed := observed w |});;
  mret ed.

(** *** providers/decryptedContentProvider.ts, the static helpers *)

Definition createPreviewUri (originalUri : Uri) : Uri :=
  let filename := basename (fsPath originalUri) in
  let p := filename +:+ " (SOPS Preview)" in
  {| scheme := SOPS_DECRYPTED_SCHEME; fsPath := p; path := p;
     query := fsPath originalUri;
     toString := SOPS_DECRYPTED_SCHEME +:+ ":" +:+ p +:+ "?"
                   +:+ fsPath originalUri |}.

Definition getLanguageId (filePath : string) : string :=
  let ext := JSString.toLowerCase (extname filePath) in
  if String.eqb ext ".json" then "json"
  else if String.eqb ext ".yaml" || String.eqb ext ".yml" then "yaml"
  else if String.eqb ext ".env" then "dotenv"
  else if String.eqb ext ".ini" then "ini"
  else "plaintext".

(** *** The service *)

Definition setDocumentLanguage (d : TextDocument) (filePath : string)
  : M unit :=
  let languageId := getLanguageId filePath in
  tryCatch
    (observe (SetTextDocumentLanguage (toString (uri d)) languageId))
    (fun _ =>
       if negb (String.eqb languageId "plaintext")
       then observe (SetTextDocumentLanguage (toString (uri d)) "plaintext")
       else mret tt).

(** The close of the ephemeral document of a session: the editor is asked
    to close its tab, and a close that fails is tolerated; the close of a
    document fires [onDidCloseTextDocument], which [TempFileHandler]
    listens to, so that the backing file of a temp copy is unlinked. *)
Definition closeSession (s : TrackedDocument) : M unit :=
  tryCatch (observe (CloseTab (docUri s))) (fun _ => mret tt);;
  modify (fun w =>
    let closing :=
      filter (fun d => toString (uri d) = docUri s) (textDocuments w) in
    let t' := foldl (fun t d =>
                       TempFileHandler.onDocumentClosed (tempEnv env) d t)
                    (temp w) closing in
    {| tracker := tracker w;
       temp := t';
       textDocuments :=
         filter (fun d => toString (uri d) ≠ docUri s) (textDocuments w);
       visibleTextEditors :=
         filter (fun e => toString (uri (document e)) ≠ docUri s)
                (visibleTextEditors w);
       activeTextEditor := activeTextEditor w;
       tabGroups := tabGroups w;
       observed := observed w |}).

(** Modelled from the spec: [EditorGroupTracker.trackDocumentOpened] is
    missing from the sources. [trackOpened] "overwrites any prior session
    for the same sourcePath (enforcing the 1:1 invariant) but must first
    close the superseded session's ephemeral file before installing the
    new one". *)
Definition trackDocumentOpened (doc source : Uri) (column : ViewColumn)
  : M unit :=
  w ← gets id;
  match getSession (toString source) (tracker w) with
  | Some superseded => closeSession superseded
  | None => mret tt
  end;;
  modify (withTracker (installSession doc source column)).

Definition trackOpenedDocument (d : TextDocument) (sourceUri : Uri)
    (shownEditor : TextEditor) (column : ViewColumn) : M ViewColumn :=
  w ← gets id;
  let currentEditor :=
    default shownEditor
      (find (fun e => sameUri (uri d) (document e)) (visibleTextEditors w)) in
  let effectiveViewColumn := default column (viewColumn currentEditor) in
  trackDocumentOpened (uri d) sourceUri effectiveViewColumn;;
  mret effectiveViewColumn.

(** [setExtensionTriggeredOpen(true); try { body } finally
    { setExtensionTriggeredOpen(false); }], run from its entry to its
    exit; [EventLoop.guarded] is the block with its [await]s. *)
Definition guarded {A} (body : M A) : M A :=
  modify (withTracker (setExtensionTriggeredOpen true));;
  tryFinally body (withTracker (setExtensionTriggeredOpen false)).

(** The statements inside the [try] of [openPreview] and of
    [openEditInPlace]; the two blocks differ in the URI they open. *)
Definition showAndTrack (target sourceUri : Uri)
    (options : ShowDecryptedOptions) : M unit :=
  d ← openTextDocument target;
  let column := if shouldOpenDecryptedBeside env then Beside else Active in
  shownEditor ← showTextDocument d column (preserveFocus options);
  setDocumentLanguage d (fsPath sourceUri);;
  trackOpenedDocument d sourceUri shownEditor column;;
  mret tt.

Definition openPreview (sourceUri : Uri) (options : ShowDecryptedOptions)
  : M unit :=
  let previewUri := createPreviewUri sourceUri in
  guarded (showAndTrack previewUri sourceUri options).

(** [await this.sopsRunner.decrypt(sourceUri.fsPath)] *)
Definition awaitDecrypt (filePath : string) : M string :=
  notify (Decrypt filePath);;
  match decrypt env filePath with
  | Resolved text => mret text
  | Rejected e => throw e
  end.

(** [await this.tempFileHandler.createTempFile(sourceUri, decrypted)] *)
Definition awaitCreateTempFile (sourceUri : Uri) (decrypted : string)
  : M Uri :=
  notify (CreateTempFile (fsPath sourceUri));;
  ((fun w =>
      match TempFileHandler.createTempFile (tempEnv env) sourceUri decrypted
              (temp w) with
      | (t', inr u) => (inr u, withTemp t' w)
      | (t', inl e) => (inl e, withTemp t' w)
      end) : M Uri).

Definition openEditInPlace (sourceUri : Uri) (options : ShowDecryptedOptions)
  : M unit :=
  decrypted ← awaitDecrypt (fsPath sourceUri);
  tempUri ← awaitCreateTempFile sourceUri decrypted;
  guarded (showAndTrack tempUri sourceUri options);;
  if bool_decide (showInfoMessage options = Some false) then mret tt
  else notify (ShowInformationMessage
                 ("Editing decrypted copy. Save to encrypt back to "
                    +:+ basename (fsPath sourceUri))).

Definition openDecryptedView (sourceUri : Uri)
    (options : ShowDecryptedOptions) : M unit :=
  match getDecryptedViewMode env with
  | editInPlace => openEditInPlace sourceUri options
  | preview => openPreview sourceUri options
  end.

Definition getCurrentMode (w : World) : option ViewMode :=
  match getCurrentTrackedDocument (tracker w) with
  | None => None
  | Some tracked =>
      if JSString.startsWith (docUri tracked) "sops-decrypted://"
      then Some preview
      else if JSString.includes (docUri tracked) ".sops-edit"
      then Some editInPlace
      else None
  end.

Definition getCurrentTempDocument (w : World) : option TextDocument :=
  match getCurrentTrackedDocument (tracker w) with
  | None => None
  | Some tracked =>
      find (fun d => String.eqb (toString (uri d)) (docUri tracked))
           (textDocuments w)
  end.

(** [tempDoc.save()]: the editor writes the buffer to the document's file
    and fires [onDidSaveTextDocument], which [TempFileHandler] listens
    to. *)
Definition saveDocument (d : TextDocument) : M unit :=
  observe (SaveDocument (toString (uri d)));;
  modify (fun w =>
    let t := temp w in
    let written :=
      {| TempFileHandler.tempToOriginal := TempFileHandler.tempToOriginal t;
         TempFileHandler.disk :=
           <[ fsPath (uri d) := getText d ]> (TempFileHandler.disk t);
         TempFileHandler.effects := TempFileHandler.effects t |} in
    withTemp (TempFileHandler.onDocumentSaved (tempEnv env) d written) w).

(** Modelled from the spec: [EditorGroupTracker.closeAllTrackedDocuments]
    is missing from the sources. [closeAllTracked] "asks the editor surface
    to close every tracked ephemeral document, then deletes each backing
    file" and tolerates a close that fails; the Registry is empty
    afterwards. *)
Definition closeAllTrackedDocuments : M unit :=
  w ← gets id;
  foldr (fun s rest => closeSession s;; rest) (mret tt)
        (sessions (tracker w));;
  modify (withTracker (fun tr =>
    {| extensionTriggeredOpen := extensionTriggeredOpen tr;
       sessions := [] |})).

(** Whether [switchToFile] goes on after looking at an edit-in-place
    buffer: [false] is the early [return]. *)
Definition resolveUnsaved (w : World) : M bool :=
  match getCurrentTempDocument w with
  | Some tempDoc =>
      if isDirty tempDoc then
        choice ← ask (ShowWarningMessage
          "You have unsaved changes in the decrypted file. Save before switching?"
          ["Save"; "Discard"; "Cancel"]);
        match choice with
        | None => mret false
        | Some c =>
            if String.eqb c "Cancel" then mret false
            else if String.eqb c "Save"
            then saveDocument tempDoc;; mret true
            else mret true
        end
      else mret true
  | None => mret true
  end.

Definition switchToFile (newSourceUri : Uri) : M unit :=
  w ← gets id;
  match getCurrentMode w with
  | None =>
      openDecryptedView newSourceUri
        {| preserveFocus := true; showInfoMessage := None |}
  | Some currentMode =>
      proceed ← match currentMode with
                | editInPlace => resolveUnsaved w
                | preview => mret true
                end;
      if proceed : bool then
        closeAllTrackedDocuments;;
        openDecryptedView newSourceUri
          {| preserveFocus := true; showInfoMessage := Some false |};;
        tryCatch
          (w ← gets id;
           match find (sameUri newSourceUri) (textDocuments w) with
           | Some sourceDoc =>
               showTextDocument sourceDoc (Column 1) false;; mret tt
           | None => mret tt
           end)
          (fun _ => mret tt)
      else mret tt
  end.

(** *** commands/switchToEditInPlaceCommand.ts *)

Fixpoint removeFirst (u : string) (tabs : list string) : list string :=
  match tabs with
  | [] => []
  | t :: rest => if String.eqb t u then rest else t :: removeFirst u rest
  end.

(** The two nested [for] loops: in each tab group the first tab showing the
    preview is closed. *)
Fixpoint closePreviewTabs (previewUri : string) (groups : list (list string))
    (i : nat) : M unit :=
  match groups with
  | [] => mret tt
  | tabs :: rest =>
      (if bool_decide (previewUri ∈ tabs) then
         observe (CloseTab previewUri);;
         modify (fun w =>
           {| tracker := tracker w; temp := temp w;
              textDocuments := textDocuments w;
              visibleTextEditors := visibleTextEditors w;
              activeTextEditor := activeTextEditor w;
              tabGroups := alter (removeFirst previewUri) i (tabGroups w);
              observed := observed w |})
       else mret tt);;
      closePreviewTabs previewUri rest (S i)
  end.

(** The [try] block of the command with its [catch] clause. *)
Definition switchBlock (previewUri originalUri : Uri) : M unit :=
  tryCatch
    (w ← gets id;
     closePreviewTabs (toString previewUri) (tabGroups w) 0;;
     openEditInPlace originalUri
       {| preserveFocus := false; showInfoMessage := Some true |})
    (fun error =>
       notify (ShowErrorMessage ("Failed to switch to edit mode: "
                                   +:+ getErrorMessage error))).

Definition switchToEditInPlace : M unit :=
  w ← gets id;
  match activeTextEditor w with
  | None => mret tt
  | Some editor =>
      let previewUri := uri (document editor) in
      if negb (String.eqb (scheme previewUri) SOPS_DECRYPTED_SCHEME) then
        notify (ShowWarningMessage
                  "This command only works on decrypted preview tabs" [])
      else
        tracked ← ((fun w =>
                      let '(r, tr) := untrackDocument previewUri (tracker w) in
                      (inr r, withTracker (fun _ => tr) w))
                   : M (option TrackedDocument));
        match tracked with
        | None =>
            notify (ShowErrorMessage
                      "Could not find the original encrypted file")
        | Some t =>
            if bool_decide (originalActiveUri t = "") then
              notify (ShowErrorMessage
                        "Could not find the original encrypted file")
            else
              guarded (switchBlock previewUri
                         (Uri_parse (originalActiveUri t)))
        end
  end.

End WithEnv.

End DecryptedViewService.

(** ** The decrypted-view service on the event loop

    The embedding above runs each operation from its call to its return.
    On the event loop an async function runs up to its next [await] and
    hands the loop back; the commands and handlers in flight take turns,
    and each goes on from the world as the others have left it. This
    module writes the guarded blocks of [decryptedViewService.ts] with
    their [await]s. *)
Module EventLoop.
Import NodePath EditorGroupTracker DecryptedViewService.

(** An async function that has been called: it has returned or thrown,
    or it is suspended; a suspended one, resumed in a world, goes on to
    [next] and leaves the world [after]. *)
Inductive Task (A : Type) : Type :=
| Finished (r : Exn + A)
| Suspended (next : World -> Task A) (after : World -> World).
Arguments Finished {A} r.
Arguments Suspended {A} next after.

(** What one turn of an async function does: where it stops, and the
    world it leaves. *)
Definition Async (A : Type) : Type := World -> Task A * World.

(** A call that has been made and has not run yet. *)
Definition suspend {A} (p : Async A) : Task A :=
  Suspended (fun w => (p w).1) (fun w => (p w).2).

Definition resume {A} (t : Task A) : Async A :=
  fun w =>
    match t with
    | Finished r => (Finished r, w)
    | Suspended next after => (next w, after w)
    end.

Definition finished {A} (t : Task A) : bool :=
  match t with
  | Finished _ => true
  | Suspended _ _ => false
  end.

(** Statements without an [await]. *)
Definition now {A} (m : M A) : Async A :=
  fun w => (Finished (m w).1, (m w).2).

(** The statements that follow: they run in the turn in which what
    comes before them returns. *)
Fixpoint andThen {A B} (t : Task A) (k : A -> Async B) (w : World)
  : Task B * World :=
  match t with
  | Finished (inr a) => k a w
  | Finished (inl e) => (Finished (inl e), w)
  | Suspended next after =>
      (Suspended (fun w' => (andThen (next w') k (after w')).1)
                 (fun w' => (andThen (next w') k (after w')).2), w)
  end.

Definition bind {A B} (p : Async A) (k : A -> Async B) : Async B :=
  fun w => andThen (p w).1 k (p w).2.

Global Instance Async_ret : MRet Async := fun A a => now (mret a).
Global Instance Async_bind : MBind Async := fun A B k p => bind p k.

(** [await p]: what the promise settles to arrives in a turn of its
    own. *)
Fixpoint deliver {A} (t : Task A) : Task A :=
  match t with
  | Finished r => Suspended (fun _ => Finished r) id
  | Suspended next after => Suspended (fun w => deliver (next w)) after
  end.

Definition await {A} (p : Async A) : Async A :=
  fun w => (deliver (p w).1, (p w).2).

(** [try { body } catch (e) { handler }] *)
Fixpoint catching {A} (t : Task A) (handler : Exn -> Async A) (w : World)
  : Task A * World :=
  match t with
  | Finished (inl e) => handler e w
  | Finished (inr a) => (Finished (inr a), w)
  | Suspended next after =>
      (Suspended (fun w' => (catching (next w') handler (after w')).1)
                 (fun w' => (catching (next w') handler (after w')).2), w)
  end.

Definition tryCatch {A} (body : Async A) (handler : Exn -> Async A)
  : Async A :=
  fun w => catching (body w).1 handler (body w).2.

(** [try { body } finally { fin }], for a [fin] that does not throw: it
    runs in the turn in which the body returns or throws. *)
Fixpoint finishing {A} (t : Task A) (fin : World -> World) (w : World)
  : Task A * World :=
  match t with
  | Finished r => (Finished r, fin w)
  | Suspended next after =>
      (Suspended (fun w' => (finishing (next w') fin (after w')).1)
                 (fun w' => (finishing (next w') fin (after w')).2), w)
  end.

Definition tryFinally {A} (body : Async A) (fin : World -> World)
  : Async A :=
  fun w => finishing (body w).1 fin (body w).2.

(** [setExtensionTriggeredOpen(true); try { body } finally
    { setExtensionTriggeredOpen(false); }] *)
Definition guarded {A} (body : Async A) : Async A :=
  fun w =>
    tryFinally body (withTracker (setExtensionTriggeredOpen false))
      (withTracker (setExtensionTriggeredOpen true) w).

Section WithEnv.
Context (env : Env).

Definition setDocumentLanguage (d : TextDocument) (filePath : string)
  : Async unit :=
  let languageId := getLanguageId filePath in
  tryCatch
    (await (now (observe env
                   (SetTextDocumentLanguage (toString (uri d)) languageId))))
    (fun _ =>
       if negb (String.eqb languageId "plaintext")
       then await (now (observe env
                          (SetTextDocumentLanguage (toString (uri d))
                             "plaintext")))
       else mret tt).

(** The statements inside the [try] of [openPreview] and of
    [openEditInPlace]. *)
Definition showAndTrack (target sourceUri : Uri)
    (options : ShowDecryptedOptions) : Async unit :=
  d ← await (now (openTextDocument env target));
  let column := if shouldOpenDecryptedBeside env then Beside else Active in
  shownEditor ← await (now (showTextDocument env d column
                              (preserveFocus options)));
  await (setDocumentLanguage d (fsPath sourceUri));;
  now (trackOpenedDocument env d sourceUri shownEditor column);;
  mret tt.

Definition openPreview (sourceUri : Uri) (options : ShowDecryptedOptions)
  : Async unit :=
  let previewUri := createPreviewUri sourceUri in
  guarded (showAndTrack previewUri sourceUri options).

Definition openEditInPlace (sourceUri : Uri) (options : ShowDecryptedOptions)
  : Async unit :=
  decrypted ← await (now (awaitDecrypt env (fsPath sourceUri)));
  tempUri ← await (now (awaitCreateTempFile env sourceUri decrypted));
  guarded (showAndTrack tempUri sourceUri options);;
  now (if bool_decide (showInfoMessage options = Some false) then mret tt
       else notify (ShowInformationMessage
                      ("Editing decrypted copy. Save to encrypt back to "
                         +:+ basename (fsPath sourceUri)))).

End WithEnv.

(** *** The loop

    The calls in flight and the world they share. A turn resumes one of
    them; a call that has returned stays as it is. *)
Definition Loop : Type := list (Task unit) * World.

Definition turn (s : Loop) (i : nat) : Loop :=
  match s.1 !! i with
  | Some t => (<[ i := (resume t s.2).1 ]> s.1, (resume t s.2).2)
  | None => s
  end.

Definition run (schedule : list nat) (s : Loop) : Loop :=
  foldl turn s schedule.

(** A call that is alone on the loop, run to its end. *)
Fixpoint runAlone {A} (t : Task A) (w : World) : (Exn + A) * World :=
  match t with
  | Finished r => (r, w)
  | Suspended next after => runAlone (next w) (after w)
  end.

Definition alone {A} (p : Async A) : M A :=
  fun w => runAlone (p w).1 (p w).2.

End EventLoop.

(** ** state/fileStateTracker.ts *)
Module FileStateTracker.

(** [decryptedFiles = new Set<string>()] *)
Abbreviation t := (gset string).

Definition markDecrypted (u : Uri) (s : t) : t := {[ toString u ]} ∪ s.
Definition markEncrypted (u : Uri) (s : t) : t := s ∖ {[ toString u ]}.
Definition isMarkedDecrypted (u : Uri) (s : t) : bool :=
  bool_decide (toString u ∈ s).
Definition clearFile (u : Uri) (s : t) : t := s ∖ {[ toString u ]}.
Definition clear (s : t) : t := ∅.

End FileStateTracker.

(** ** handlers/autoBehaviorHandler.ts *)
Module AutoBehaviorHandler.
Import FileStateTracker.

(** [vscode.TextEdit.replace(range, newText)], with the range given by
    its two offsets in the buffer. *)
Record TextEdit := ReplaceEdit {
  rangeStart : nat;
  rangeEnd : nat;
  newText : string
}.

(** The thenable handed to [event.waitUntil]. *)
Inductive Thenable :=
| autoEncryptOf (doc : TextDocument)
| promptBeforeSaveOf (doc : TextDocument).

(** What the handler reads from its collaborators. *)
Record Env := mkEnv {
  getSaveBehavior : SaveBehavior;
  (** sopsRunner.encryptContent(content, filePath) *)
  encryptContent : string -> string -> Settled string;
  (** the item picked in the modal warning; [None] when it is dismissed *)
  showWarningMessage : option string
}.

(** [handleDocumentWillSave]: [Some p] when [event.waitUntil(p)] is
    called, [None] when the handler returns without calling it. *)
Definition handleDocumentWillSave
    (env : Env) (tracker : FileStateTracker.t) (doc : TextDocument)
  : option Thenable :=
  if negb (String.eqb (scheme (uri doc)) "file") then None
  else if negb (isMarkedDecrypted (uri doc) tracker) then None
  else match getSaveBehavior env with
       | SaveAutoEncrypt => Some (autoEncryptOf doc)
       | SavePrompt => Some (promptBeforeSaveOf doc)
       | SaveManualEncrypt => None
       end.

(** [autoEncrypt]: the edits it resolves to and the tracker afterwards. *)
Definition autoEncrypt
    (env : Env) (tracker : FileStateTracker.t) (doc : TextDocument)
  : list TextEdit * FileStateTracker.t :=
  let content := getText doc in
  match encryptContent env content (fsPath (uri doc)) with
  | Resolved encrypted =>
      ([ReplaceEdit 0 (String.length content) encrypted],
       markEncrypted (uri doc) tracker)
  | Rejected _ => ([], tracker)
  end.

(** [promptBeforeSave] *)
Definition promptBeforeSave
    (env : Env) (tracker : FileStateTracker.t) (doc : TextDocument)
  : list TextEdit * FileStateTracker.t :=
  match showWarningMessage env with
  | Some choice =>
      if String.eqb choice "Encrypt & Save"
      then autoEncrypt env tracker doc
      else ([], tracker)
  | None => ([], tracker)
  end.

Definition runThenable
    (env : Env) (tracker : FileStateTracker.t) (p : Thenable)
  : list TextEdit * FileStateTracker.t :=
  match p with
  | autoEncryptOf doc => autoEncrypt env tracker doc
  | promptBeforeSaveOf doc => promptBeforeSave env tracker doc
  end.

(** The decision of the will-save handler, named as the policy engine
    names it. *)
Inductive Action := ProceedAsIs | AutoEncrypt | Prompt.

Definition decideOnWillSave
    (env : Env) (tracker : FileStateTracker.t) (doc : TextDocument)
  : Action :=
  match handleDocumentWillSave env tracker doc with
  | None => ProceedAsIs
  | Some (autoEncryptOf _) => AutoEncrypt
  | Some (promptBeforeSaveOf _) => Prompt
  end.

Definition mapSaveBehavior (b : SaveBehavior) : Action :=
  match b with
  | SaveAutoEncrypt => AutoEncrypt
  | SavePrompt => Prompt
  | SaveManualEncrypt => ProceedAsIs
  end.

(** *** The editor's save of a document

    VS Code fires [onWillSaveTextDocument], awaits the thenables given to
    [waitUntil], applies the edits they resolve to, and then writes the
    buffer to the document's file. A will-save listener has no way to
    veto the write. *)

Definition applyEdit (text : string) (e : TextEdit) : string :=
  String.substring 0 (rangeStart e) text
    +:+ newText e
    +:+ String.substring (rangeEnd e)
          (String.length text - rangeEnd e) text.

Definition applyEdits (text : string) (es : list TextEdit) : string :=
  foldl applyEdit text es.

Record World := mkWorld {
  disk : Disk;
  decryptedFiles : FileStateTracker.t
}.

Definition save (env : Env) (w : World) (doc : TextDocument) : World :=
  let '(edits, tracker') :=
    match handleDocumentWillSave env (decryptedFiles w) doc with
    | Some p => runThenable env (decryptedFiles w) p
    | None => ([], decryptedFiles w)
    end in
  {| disk := <[ fsPath (uri doc) := applyEdits (getText doc) edits ]> (disk w);
     decryptedFiles := tracker' |}.

(** *** The will-save budget

    What the editor documents for [onWillSaveTextDocument] and for
    [waitUntil]: the listeners share a time budget of 1.5 seconds; the
    edits of a thenable are ignored when it settles after the budget, or
    when the document was modified while it ran; a listener that has
    misbehaved three times is not called any more, and the editor may
    save without firing the event at all. The buffer is written in each
    case. *)
Inductive Delivery :=
(** the thenable settles in time: its edits are applied *)
| EditsApplied
(** the listener is called, but the edits its thenable resolves to are
    ignored *)
| EditsIgnored
(** the listener is not called *)
| NotCalled.

Global Instance Delivery_eq_dec : EqDecision Delivery.
Proof. solve_decision. Defined.

(** The save of a document, for each of these. A thenable whose edits are
    ignored still runs to its end: what it does to the decrypted-set is
    done, if later than the write. *)
Definition saveUnder (delivery : Delivery) (env : Env) (w : World)
    (doc : TextDocument) : World :=
  let '(edits, tracker') :=
    match delivery with
    | NotCalled => ([], decryptedFiles w)
    | EditsApplied | EditsIgnored =>
        match handleDocumentWillSave env (decryptedFiles w) doc with
        | Some p => runThenable env (decryptedFiles w) p
        | None => ([], decryptedFiles w)
        end
    end in
  let applied :=
    match delivery with
    | EditsApplied => edits
    | EditsIgnored | NotCalled => []
    end in
  {| disk := <[ fsPath (uri doc) := applyEdits (getText doc) applied ]>
               (disk w);
     decryptedFiles := tracker' |}.

End AutoBehaviorHandler.

(** ** handlers/documentWatcher.ts: the state shown for a document *)
Module DocumentWatcher.
Import FileStateTracker.

Record Env := mkEnv {
  (** [configManager.hasMatchingRule(uri)] *)
  hasMatchingRule : Uri -> bool;
  (** [sopsDetector.isContentEncrypted(text)] *)
  isContentEncrypted : string -> bool;
  (** [vscode.workspace.fs.readFile(uri)] as text; [None] when it throws *)
  readFile : Uri -> option string
}.

(** [sopsDetector.isEncrypted(uri)] *)
Definition isEncrypted (env : Env) (u : Uri) : bool :=
  match readFile env u with
  | Some text => isContentEncrypted env text
  | None => false
  end.

(** [sopsDetector.isDocumentEncrypted(document)] *)
Definition isDocumentEncrypted (env : Env) (d : TextDocument) : bool :=
  isContentEncrypted env (getText d).

(** [DecryptedContentProvider.getOriginalPath(previewUri)] *)
Definition getOriginalPath (previewUri : Uri) : string :=
  if bool_decide (query previewUri = "") then path previewUri
  else query previewUri.

(** The file whose state [updateContext] computes for a URI. *)
Definition fileUriOf (u : Uri) : Uri :=
  if String.eqb (scheme u) "sops-decrypted"
  then Uri_file (getOriginalPath u)
  else u.

(** [updateContext(uri, document?)]: the arguments it passes to
    [contextManager.setFileContext], or [None] when it clears the context
    and returns. *)
Definition updateContext (env : Env) (tracker : FileStateTracker.t)
    (u : Uri) (document : option TextDocument)
  : option (bool * FileEncryptionState) :=
  if negb (String.eqb (scheme u) "file")
     && negb (String.eqb (scheme u) "sops-decrypted")
  then None
  else
    let fileUri := fileUriOf u in
    let hasRule := hasMatchingRule env fileUri in
    let encryptionState :=
      if negb hasRule then Unknown
      else if isMarkedDecrypted fileUri tracker then Decrypted
      else
        let encrypted :=
          match document with
          | Some d => isDocumentEncrypted env d
          | None => isEncrypted env fileUri
          end in
        if encrypted then Encrypted else PlainText in
    Some (hasRule, encryptionState).

(** [markDecrypted(uri)], [markEncrypted(uri)] and [onDocumentClosed(doc)]:
    the tracker afterwards and, for the first two, the context they set. *)
Definition markDecrypted (env : Env) (tracker : FileStateTracker.t) (u : Uri)
  : FileStateTracker.t * option (bool * FileEncryptionState) :=
  let tracker' := FileStateTracker.markDecrypted u tracker in
  (tracker', updateContext env tracker' u None).

Definition markEncrypted (env : Env) (tracker : FileStateTracker.t) (u : Uri)
  : FileStateTracker.t * option (bool * FileEncryptionState) :=
  let tracker' := FileStateTracker.markEncrypted u tracker in
  (tracker', updateContext env tracker' u None).

Definition onDocumentClosed (tracker : FileStateTracker.t)
    (d : TextDocument) : FileStateTracker.t :=
  FileStateTracker.clearFile (uri d) tracker.

End DocumentWatcher.

(** ** JavaScript values the sources pass around *)
Module JSText.

(** The line feed, ['\n']. *)
Definition nl : string := String (ascii_of_nat 10) EmptyString.

(** [s.padEnd(n)]: spaces are added up to the length [n]. *)
Definition padEnd (n : nat) (s : string) : string :=
  s +:+ String.string_of_list_ascii (replicate (n - String.length s) " "%char).

(** [lines.join('\n')] *)
Fixpoint joinLines (lines : list string) : string :=
  match lines with
  | [] => ""
  | [l] => l
  | l :: rest => l +:+ nl +:+ joinLines rest
  end.

End JSText.

(** [Map<string, V>]: the entries in insertion order. [set] on a present
    key replaces the value where the entry stands; on an absent key it
    appends the entry. [keys().next().value] is the key of the first
    entry. *)
Module JSMap.
Section Entries.
Context {V : Type}.

Definition t := list (string * V).

Fixpoint get (k : string) (m : t) : option V :=
  match m with
  | [] => None
  | (k', v) :: m' => if String.eqb k' k then Some v else get k m'
  end.

Definition has (k : string) (m : t) : bool :=
  match get k m with Some _ => true | None => false end.

Fixpoint set (k : string) (v : V) (m : t) : t :=
  match m with
  | [] => [(k, v)]
  | (k', v') :: m' =>
      if String.eqb k' k then (k', v) :: m' else (k', v') :: set k v m'
  end.

Fixpoint delete (k : string) (m : t) : t :=
  match m with
  | [] => []
  | (k', v') :: m' =>
      if String.eqb k' k then delete k m' else (k', v') :: delete k m'
  end.

Definition size (m : t) : nat := length m.

Definition keys (m : t) : list string := map fst m.

Definition firstKey (m : t) : option string := head (keys m).

End Entries.
Arguments t : clear implicits.
End JSMap.

(** ** providers/decryptedContentProvider.ts *)
Module DecryptedContentProvider.
Import JSString JSText NodePath.

Definition MAX_CACHE_SIZE : nat := 20.

(** [vscode.Uri.from({ scheme, path, query })] for a scheme other than
    [file] and no authority. *)
Definition Uri_from (scheme path query : string) : Uri :=
  {| scheme := scheme; fsPath := path; path := path; query := query;
     toString := scheme +:+ ":" +:+ path +:+ "?" +:+ query |}.

Record Env := mkEnv {
  (** what [sopsRunner.decrypt(path)] settles to, given the number of
      calls made before it *)
  decrypt : nat -> string -> Settled string
}.

Record State := mkState {
  cache : JSMap.t string;
  (** the URIs [_onDidChange] has fired for, oldest first *)
  fired : list Uri;
  (** the paths [sopsRunner.decrypt] was called with, oldest first *)
  decrypted : list string
}.

(** The provider as its constructor leaves it. *)
Definition initial : State :=
  {| cache := []; fired := []; decrypted := [] |}.

Definition evictOldestIfNeeded (c : JSMap.t string) : JSMap.t string :=
  if MAX_CACHE_SIZE <=? JSMap.size c then
    match JSMap.firstKey c with
    | Some firstKey => JSMap.delete firstKey c
    | None => c
    end
  else c.

Definition header (filename : string) : string :=
  joinLines
    [ "# ╔══════════════════════════════════════════════════════════════╗";
      "# ║  SOPS DECRYPTED PREVIEW (READ-ONLY)                          ║";
      "# ║  This is a preview of: " +:+ padEnd 38 filename +:+ "║";
      "# ║  To edit, use " +:+ dquote +:+ "SOPS: Decrypt File" +:+ dquote
        +:+ " on the original file      ║";
      "# ╚══════════════════════════════════════════════════════════════╝";
      "" ].

Definition addReadOnlyHeader (content filePath : string) : string :=
  let ext := toLowerCase (extname filePath) in
  let filename := basename filePath in
  if String.eqb ext ".json" then content
  else header filename +:+ content.

(** The text shown in place of the content when the decryption fails. *)
Definition failureText (error : Exn) (originalPath : string) : string :=
  "# Failed to decrypt file" +:+ nl +:+ "# Error: " +:+ getErrorMessage error
    +:+ nl +:+ "#" +:+ nl +:+ "# Original file: " +:+ originalPath.

(** [provideTextDocumentContent(uri)]: the content and the provider
    afterwards, for calls that do not overlap. *)
Definition provideTextDocumentContent (env : Env) (uri : Uri) (st : State)
  : string * State :=
  let originalPath := if bool_decide (query uri = "") then path uri
                      else query uri in
  match JSMap.get originalPath (cache st) with
  | Some cached => (cached, st)
  | None =>
      let called := decrypted st ++ [originalPath] in
      match decrypt env (length (decrypted st)) originalPath with
      | Resolved text =>
          let contentWithHeader := addReadOnlyHeader text originalPath in
          (contentWithHeader,
           {| cache := JSMap.set originalPath contentWithHeader
                         (evictOldestIfNeeded (cache st));
              fired := fired st; decrypted := called |})
      | Rejected error =>
          (failureText error originalPath,
           {| cache := cache st; fired := fired st; decrypted := called |})
      end
  end.

(** [refresh(originalPath)] *)
Definition refresh (originalPath : string) (st : State) : State :=
  let wasCached := JSMap.has originalPath (cache st) in
  let cache' := JSMap.delete originalPath (cache st) in
  if wasCached then
    let filename := basename originalPath in
    let uri := Uri_from "sops-decrypted" (filename +:+ " (SOPS Preview)")
                 originalPath in
    {| cache := cache'; fired := fired st ++ [uri];
       decrypted := decrypted st |}
  else {| cache := cache'; fired := fired st; decrypted := decrypted st |}.

(** [dispose()] *)
Definition dispose (st : State) : State :=
  {| cache := []; fired := fired st; decrypted := decrypted st |}.

End DecryptedContentProvider.

(** ** context/contextManager.ts *)
Module ContextManager.

(** [CONTEXT_KEYS] of types.ts *)
Definition IS_SOPS_FILE : string := "sopsie.isSopsFile".
Definition IS_ENCRYPTED_FILE : string := "sopsie.isEncryptedFile".
Definition IS_DECRYPTED_FILE : string := "sopsie.isDecryptedFile".
Definition HAS_MATCHING_RULE : string := "sopsie.hasMatchingRule".
Definition USE_EDIT_IN_PLACE : string := "sopsie.useEditInPlace".

(** The context keys of the editor, as
    [executeCommand('setContext', key, value)] sets them. *)
Abbreviation Context := (gmap string bool).

Definition setContext (key : string) (value : bool) (c : Context) : Context :=
  <[ key := value ]> c.

Definition setFileContext (hasMatchingRule : bool)
    (encryptionState : FileEncryptionState) (c : Context) : Context :=
  let isEncrypted :=
    match encryptionState with Encrypted => true | _ => false end in
  let isDecrypted :=
    match encryptionState with
    | Decrypted | PlainText => true
    | _ => false
    end in
  setContext HAS_MATCHING_RULE hasMatchingRule
    (setContext IS_DECRYPTED_FILE (hasMatchingRule && isDecrypted)
      (setContext IS_ENCRYPTED_FILE (hasMatchingRule && isEncrypted)
        (setContext IS_SOPS_FILE hasMatchingRule c))).

Definition clearContext (c : Context) : Context :=
  setContext HAS_MATCHING_RULE false
    (setContext IS_DECRYPTED_FILE false
      (setContext IS_ENCRYPTED_FILE false
        (setContext IS_SOPS_FILE false c))).

Definition setEditInPlaceContext (useEditInPlace : bool) (c : Context)
  : Context :=
  setContext USE_EDIT_IN_PLACE useEditInPlace c.

End ContextManager.

(** ** providers/statusBarProvider.ts *)
Module StatusBarProvider.

(** What the provider calls on its [vscode.StatusBarItem]. *)
Inductive ItemCall := ItemShow | ItemHide.

Record State := mkState {
  visible : bool;
  text : string;
  tooltip : string;
  command : option string;
  (** [backgroundColor] is the warning colour rather than [undefined] *)
  warningBackground : bool;
  (** the calls of [show()] and [hide()] made on the item, oldest first *)
  itemCalls : list ItemCall
}.

(** The provider as its constructor leaves it: the item is created and
    not shown. *)
Definition initial : State :=
  {| visible := false; text := ""; tooltip := ""; command := None;
     warningBackground := false; itemCalls := [] |}.

Definition show (st : State) : State :=
  if negb (visible st) then
    {| visible := true; text := text st; tooltip := tooltip st;
       command := command st; warningBackground := warningBackground st;
       itemCalls := itemCalls st ++ [ItemShow] |}
  else st.

Definition hide (st : State) : State :=
  if visible st then
    {| visible := false; text := text st; tooltip := tooltip st;
       command := command st; warningBackground := warningBackground st;
       itemCalls := itemCalls st ++ [ItemHide] |}
  else st.

Definition update (hasMatchingRule : bool)
    (encryptionState : FileEncryptionState) (showStatusBar : bool)
    (st : State) : State :=
  if negb showStatusBar || negb hasMatchingRule then hide st
  else
    match encryptionState with
    | Encrypted =>
        show {| visible := visible st;
                text := "$(lock) SOPS: Encrypted";
                tooltip := "This file is SOPS-encrypted. Click to decrypt.";
                command := Some "sopsie.decrypt";
                warningBackground := false;
                itemCalls := itemCalls st |}
    | Decrypted =>
        show {| visible := visible st;
                text := "$(unlock) SOPS: Decrypted";
                tooltip := "This file is decrypted. Click to encrypt.";
                command := Some "sopsie.encrypt";
                warningBackground := true;
                itemCalls := itemCalls st |}
    | PlainText =>
        show {| visible := visible st;
                text := "$(shield) SOPS: Not Encrypted";
                tooltip := "This file matches a SOPS rule but is not encrypted. Click to encrypt.";
                command := Some "sopsie.encrypt";
                warningBackground := true;
                itemCalls := itemCalls st |}
    | Unknown => hide st
    end.

End StatusBarProvider.

(** ** watchers/documentWatcher.ts: what [updateContext] and
    [onEditorActivated] do to the context keys and to the status bar *)
Module DocumentWatcherUi.
Import DocumentWatcher.

Record Ui := mkUi {
  context : ContextManager.Context;
  statusBar : StatusBarProvider.State
}.

(** [updateContext(uri, document?)] with the calls it makes on the context
    manager and on the status bar; [shouldShowStatusBar] is the setting. *)
Definition runUpdateContext (env : Env) (shouldShowStatusBar : bool)
    (tracker : FileStateTracker.t) (u : Uri) (document : option TextDocument)
    (ui : Ui) : Ui :=
  match updateContext env tracker u document with
  | None =>
      {| context := ContextManager.clearContext (context ui);
         statusBar := StatusBarProvider.hide (statusBar ui) |}
  | Some (hasMatchingRule, encryptionState) =>
      {| context := ContextManager.setFileContext hasMatchingRule
                      encryptionState (context ui);
         statusBar := StatusBarProvider.update hasMatchingRule encryptionState
                        shouldShowStatusBar (statusBar ui) |}
  end.

(** The part of [onEditorActivated(editor)] that comes before
    [maybeUpdateDecryptedView]. *)
Definition onEditorActivated (env : Env) (shouldShowStatusBar : bool)
    (tracker : FileStateTracker.t) (editor : option TextDocument) (ui : Ui)
  : Ui :=
  match editor with
  | None =>
      {| context := ContextManager.clearContext (context ui);
         statusBar := StatusBarProvider.hide (statusBar ui) |}
  | Some document =>
      runUpdateContext env shouldShowStatusBar tracker (uri document)
        (Some document) ui
  end.

End DocumentWatcherUi.

(** ** What [yaml.parse] returns *)
Module Yaml.

#[local] Unset Elimination Schemes.
Inductive t :=
| Null
| Bool (b : bool)
| Num (z : Z)
| Str (s : string)
| Seq (items : list t)
| Map (entries : JSMap.t t).
#[local] Set Elimination Schemes.

(** Whether a value passes an [if (v)] test. *)
Definition truthy (v : t) : bool :=
  match v with
  | Null => false
  | Bool b => b
  | Num z => negb (Z.eqb z 0)
  | Str s => negb (String.eqb s "")
  | Seq _ | Map _ => true
  end.

(** [v.key] for a key that is no built-in property: [None] stands for
    [undefined]. *)
Definition field (key : string) (v : t) : option t :=
  match v with
  | Map entries => JSMap.get key entries
  | _ => None
  end.

End Yaml.

(** The regular expressions of the host: whether [new RegExp(pattern)]
    throws, and what [test] answers for the expression a pattern compiles
    to. *)
Record RegExpEngine := mkRegExpEngine {
  (** the message of the [SyntaxError], when the pattern is invalid *)
  syntaxError : string -> option string;
  (** [new RegExp(pattern).test(s)] *)
  test : string -> string -> bool
}.

(** ** config/configParser.ts *)
Module ConfigParser.
Import JSString.

(** types.ts: [SopsCreationRule]. The two patterns are checked to be
    strings; the other fields are handed on as they were parsed. *)
Record SopsCreationRule := mkRule {
  path_regex : option string;
  filename_regex : option string;
  encrypted_regex : option Yaml.t;
  encrypted_suffix : option Yaml.t;
  unencrypted_suffix : option Yaml.t;
  age : option Yaml.t;
  pgp : option Yaml.t;
  kms : option Yaml.t;
  gcp_kms : option Yaml.t;
  azure_kv : option Yaml.t;
  hc_vault_transit : option Yaml.t;
  key_groups : option Yaml.t;
  shamir_threshold : option Yaml.t
}.

Record SopsConfig := mkConfig {
  creation_rules : list SopsCreationRule
}.

Record Env := mkEnv {
  (** [yaml.parse(content)], or the error it throws *)
  parseYaml : string -> Exn + Yaml.t;
  engine : RegExpEngine
}.

Definition rulePrefix (index : nat) : string :=
  "creation_rules[" +:+ pretty index +:+ "]".

(** The check [r.f !== undefined && typeof r.f !== 'string'] followed by
    the read of the field as a string. *)
Definition stringField (name : string) (index : nat) (rule : Yaml.t)
  : Exn + option string :=
  match Yaml.field name rule with
  | None => inr None
  | Some (Yaml.Str s) => inr (Some s)
  | Some _ =>
      inl (ErrorExn (rulePrefix index +:+ "." +:+ name
                       +:+ " must be a string"))
  end.

(** The check [if (r.f) { try { new RegExp(r.f) } catch ... }]. *)
Definition compiles (env : Env) (name : string) (index : nat)
    (pattern : option string) : Exn + unit :=
  match pattern with
  | Some s =>
      if negb (String.eqb s "") then
        match syntaxError (engine env) s with
        | Some msg =>
            inl (ErrorExn (rulePrefix index +:+ "." +:+ name
                             +:+ " is invalid: " +:+ msg))
        | None => inr tt
        end
      else inr tt
  | None => inr tt
  end.

Definition validateRule (env : Env) (rule : Yaml.t) (index : nat)
  : Exn + SopsCreationRule :=
  match rule with
  | Yaml.Map _ | Yaml.Seq _ =>
      match stringField "path_regex" index rule with
      | inl e => inl e
      | inr pathRegex =>
          match stringField "filename_regex" index rule with
          | inl e => inl e
          | inr filenameRegex =>
              match compiles env "path_regex" index pathRegex with
              | inl e => inl e
              | inr _ =>
                  match compiles env "filename_regex" index filenameRegex with
                  | inl e => inl e
                  | inr _ =>
                      inr {| path_regex := pathRegex;
                             filename_regex := filenameRegex;
                             encrypted_regex :=
                               Yaml.field "encrypted_regex" rule;
                             encrypted_suffix :=
                               Yaml.field "encrypted_suffix" rule;
                             unencrypted_suffix :=
                               Yaml.field "unencrypted_suffix" rule;
                             age := Yaml.field "age" rule;
                             pgp := Yaml.field "pgp" rule;
                             kms := Yaml.field "kms" rule;
                             gcp_kms := Yaml.field "gcp_kms" rule;
                             azure_kv := Yaml.field "azure_kv" rule;
                             hc_vault_transit :=
                               Yaml.field "hc_vault_transit" rule;
                             key_groups := Yaml.field "key_groups" rule;
                             shamir_threshold :=
                               Yaml.field "shamir_threshold" rule |}
                  end
              end
          end
      end
  | _ => inl (ErrorExn (rulePrefix index +:+ " must be an object"))
  end.

(** [rules.map((rule, index) => validateRule(rule, index))], from the
    index of the first rule of the list: the first throw ends the map. *)
Fixpoint validateRules (env : Env) (rules : list Yaml.t) (index : nat)
  : Exn + list SopsCreationRule :=
  match rules with
  | [] => inr []
  | rule :: rest =>
      match validateRule env rule index with
      | inl e => inl e
      | inr r =>
          match validateRules env rest (S index) with
          | inl e => inl e
          | inr rs => inr (r :: rs)
          end
      end
  end.

Definition parseConfig (env : Env) (content : string) : Exn + SopsConfig :=
  match parseYaml env content with
  | inl e => inl e
  | inr parsed =>
      if negb (Yaml.truthy parsed)
      then inl (ErrorExn "Empty or invalid YAML content")
      else
        let missing :=
          ErrorExn ("Missing required " +:+ dquote +:+ "creation_rules"
                      +:+ dquote +:+ " field") in
        match Yaml.field "creation_rules" parsed with
        | None => inl missing
        | Some rules =>
            if negb (Yaml.truthy rules) then inl missing
            else
              match rules with
              | Yaml.Seq items =>
                  match validateRules env items 0 with
                  | inl e => inl e
                  | inr rs => inr {| creation_rules := rs |}
                  end
              | _ =>
                  inl (ErrorExn (dquote +:+ "creation_rules" +:+ dquote
                                   +:+ " must be an array"))
              end
        end
  end.

End ConfigParser.

(** ** config/rulesMatcher.ts *)
Module RulesMatcher.
Import NodePath ConfigParser.

Definition MAX_REGEX_CACHE_SIZE : nat := 50.

(** [regexCache]: a compiled expression is known by its pattern; [None]
    is the [null] kept for a pattern that does not compile. *)
Abbreviation RegexCache := (JSMap.t (option string)).

Definition clearRegexCache (cache : RegexCache) : RegexCache := [].

Definition getCachedRegex (re : RegExpEngine) (pattern : string)
    (cache : RegexCache) : option string * RegexCache :=
  match JSMap.get pattern cache with
  | Some cached => (cached, cache)
  | None =>
      match syntaxError re pattern with
      | None =>
          let cache1 :=
            if MAX_REGEX_CACHE_SIZE <=? JSMap.size cache then
              match JSMap.firstKey cache with
              | Some firstKey => JSMap.delete firstKey cache
              | None => cache
              end
            else cache in
          (Some pattern, JSMap.set pattern (Some pattern) cache1)
      | Some _ => (None, JSMap.set pattern None cache)
      end
  end.

(** [regex !== null && regex.test(s)] *)
Definition testWith (re : RegExpEngine) (regex : option string) (s : string)
  : bool :=
  match regex with
  | Some pattern => test re pattern s
  | None => false
  end.

(** A pattern that passes [if (rule.f)]. *)
Definition given (pattern : option string) : option string :=
  match pattern with
  | Some s => if String.eqb s "" then None else Some s
  | None => None
  end.

Definition ruleMatches (re : RegExpEngine) (rule : SopsCreationRule)
    (relativePath filename : string) (cache : RegexCache)
  : bool * RegexCache :=
  match given (path_regex rule) with
  | Some pattern =>
      let '(regex, cache') := getCachedRegex re pattern cache in
      (testWith re regex relativePath, cache')
  | None =>
      match given (filename_regex rule) with
      | Some pattern =>
          let '(regex, cache') := getCachedRegex re pattern cache in
          (testWith re regex filename, cache')
      | None => (true, cache)
      end
  end.

(** [s.replace(/\\/g, '/')] *)
Definition slashes (s : string) : string :=
  str (map (fun c => if Ascii.eqb c (ascii_of_nat 92) then "/"%char else c)
           (chars s)).

Record Matcher := mkMatcher {
  config : SopsConfig;
  configDir : string
}.

(** [relative] is [path.relative] of the host. *)
Definition getNormalizedPaths (relative : string -> string -> string)
    (m : Matcher) (fileUri : Uri) : string * string :=
  let relativePath := relative (configDir m) (fsPath fileUri) in
  (slashes relativePath, basename (fsPath fileUri)).

(** The [for] loop of [findMatchingRule]. *)
Fixpoint firstMatch (re : RegExpEngine) (rules : list SopsCreationRule)
    (normalizedPath filename : string) (cache : RegexCache)
  : option SopsCreationRule * RegexCache :=
  match rules with
  | [] => (None, cache)
  | rule :: rest =>
      let '(matches, cache') :=
        ruleMatches re rule normalizedPath filename cache in
      if matches : bool then (Some rule, cache')
      else firstMatch re rest normalizedPath filename cache'
  end.

Definition findMatchingRule (re : RegExpEngine)
    (relative : string -> string -> string) (m : Matcher) (fileUri : Uri)
    (cache : RegexCache) : option SopsCreationRule * RegexCache :=
  let '(normalizedPath, filename) := getNormalizedPaths relative m fileUri in
  firstMatch re (creation_rules (config m)) normalizedPath filename cache.

End RulesMatcher.

(** ** config/configManager.ts *)
Module ConfigManager.
Import JSString NodePath ConfigParser RulesMatcher.

Record LoadedConfig := mkLoaded {
  loadedConfig : SopsConfig;
  configPath : string;
  loadedDir : string
}.

(** [loadedConfig.matcher], built by [new RulesMatcher(config, configDir)]
    when the configuration is loaded. *)
Definition matcher (lc : LoadedConfig) : Matcher :=
  {| config := loadedConfig lc; configDir := loadedDir lc |}.

Record Env := mkEnv {
  parser : ConfigParser.Env;
  (** [vscode.workspace.fs.readFile(uri)] as text; [None] when it
      throws *)
  readFile : string -> option string;
  (** [vscode.workspace.getWorkspaceFolder(uri)?.uri.fsPath] *)
  getWorkspaceFolder : Uri -> option string;
  (** [vscode.workspace.workspaceFolders] is defined *)
  hasWorkspaceFolders : bool;
  (** what [findFiles('**/.sops.{yaml,yml}', ...)] resolves to *)
  findFiles : list Uri;
  (** [path.relative] *)
  relative : string -> string -> string
}.

Record State := mkState {
  configs : gmap string LoadedConfig;
  (** the cache of compiled patterns kept by rulesMatcher.ts *)
  regexCache : RegexCache;
  (** the URIs [_onDidChangeConfig] has fired for, oldest first *)
  changed : list Uri
}.

Definition initial : State :=
  {| configs := ∅; regexCache := []; changed := [] |}.

Definition loadConfig (env : Env) (configUri : Uri) (st : State) : State :=
  let loaded :=
    match readFile env (fsPath configUri) with
    | None => None
    | Some text =>
        match parseConfig (parser env) text with
        | inl _ => None
        | inr config =>
            Some {| loadedConfig := config;
                    configPath := fsPath configUri;
                    loadedDir := dirname (fsPath configUri) |}
        end
    end in
  match loaded with
  | Some lc =>
      {| configs := <[ fsPath configUri := lc ]> (configs st);
         regexCache := regexCache st; changed := changed st |}
  | None =>
      {| configs := delete (fsPath configUri) (configs st);
         regexCache := regexCache st; changed := changed st |}
  end.

Definition initialize (env : Env) (st : State) : State :=
  if hasWorkspaceFolders env
  then foldl (fun st uri => loadConfig env uri st) st (findFiles env)
  else st.

Definition reloadConfig (env : Env) (configUri : Uri) (st : State) : State :=
  let st1 := {| configs := configs st;
                regexCache := clearRegexCache (regexCache st);
                changed := changed st |} in
  let st2 := loadConfig env configUri st1 in
  {| configs := configs st2; regexCache := regexCache st2;
     changed := changed st2 ++ [configUri] |}.

Definition removeConfig (configUri : Uri) (st : State) : State :=
  {| configs := delete (fsPath configUri) (configs st);
     regexCache := regexCache st;
     changed := changed st ++ [configUri] |}.

(** The [for] loop over the two names in one directory. *)
Definition configIn (st : State) (currentDir : string)
  : option LoadedConfig :=
  match configs st !! join currentDir ".sops.yaml" with
  | Some lc => Some lc
  | None => configs st !! join currentDir ".sops.yml"
  end.

(** The [while] loop of [findNearestConfig], run for at most [fuel]
    directories: [None] when the fuel runs out before the loop ends. *)
Fixpoint walkUp (fuel : nat) (st : State) (workspaceRoot currentDir : string)
  : option (option LoadedConfig) :=
  match fuel with
  | 0 => None
  | S fuel' =>
      if startsWith currentDir workspaceRoot then
        match configIn st currentDir with
        | Some lc => Some (Some lc)
        | None =>
            let parentDir := dirname currentDir in
            if String.eqb parentDir currentDir then Some None
            else walkUp fuel' st workspaceRoot parentDir
        end
      else Some None
  end.

(** Each turn of the loop shortens the directory, except the turn that
    goes from a relative name to [.]; two more turns than the directory
    has characters are enough. *)
Definition findNearestConfig (env : Env) (st : State) (fileUri : Uri)
  : option (option LoadedConfig) :=
  match getWorkspaceFolder env fileUri with
  | None => Some None
  | Some workspaceRoot =>
      let currentDir := dirname (fsPath fileUri) in
      walkUp (String.length currentDir + 2) st workspaceRoot currentDir
  end.

(** [findMatchingRule(fileUri)]: the rule and the manager afterwards. *)
Definition findMatchingRule (env : Env) (st : State) (fileUri : Uri)
  : option (option SopsCreationRule * State) :=
  match findNearestConfig env st fileUri with
  | None => None
  | Some None => Some (None, st)
  | Some (Some lc) =>
      let '(rule, cache') :=
        RulesMatcher.findMatchingRule (engine (parser env)) (relative env)
          (matcher lc) fileUri (regexCache st) in
      Some (rule, {| configs := configs st; regexCache := cache';
                     changed := changed st |})
  end.

Definition hasMatchingRule (env : Env) (st : State) (fileUri : Uri)
  : option (bool * State) :=
  match findMatchingRule env st fileUri with
  | None => None
  | Some (rule, st') =>
      Some (match rule with Some _ => true | None => false end, st')
  end.

Definition dispose (st : State) : State :=
  {| configs := ∅; regexCache := regexCache st; changed := changed st |}.

End ConfigManager.

(** ** handlers/autoBehaviorHandler.ts: auto-decrypt on open *)
Module AutoDecrypt.
Import FileStateTracker AutoBehaviorHandler.

(** settingsService.getOpenBehavior() *)
Inductive OpenBehavior := OpenShowEncrypted | OpenAutoDecrypt | OpenShowDecrypted.

Record Env := mkEnv {
  getOpenBehavior : OpenBehavior;
  (** configManager.hasMatchingRule(uri) *)
  hasMatchingRule : Uri -> bool;
  (** sopsDetector.isContentEncrypted(text) *)
  isContentEncrypted : string -> bool;
  (** sopsRunner.decrypt(filePath) *)
  decrypt : string -> Settled string;
  (** what [vscode.workspace.applyEdit(edit)] settles to: whether the
      edit was applied *)
  applyEdit : Settled bool
}.

(** What a call leaves behind: the document with its buffer, the
    decrypted-set, the paths [decrypt] was called with and the warnings
    shown. *)
Record Outcome := mkOutcome {
  opened : TextDocument;
  decryptedFiles : FileStateTracker.t;
  decryptCalls : list string;
  warnings : list string
}.

Definition autoDecryptFailed (error : Exn) : string :=
  "Auto-decrypt failed: " +:+ getErrorMessage error
    +:+ ". You can manually decrypt using the toolbar icon.".

Definition autoDecryptDocument (env : Env) (tracker : FileStateTracker.t)
    (doc : TextDocument) : Outcome :=
  let failed error :=
    {| opened := doc; decryptedFiles := tracker;
       decryptCalls := [fsPath (uri doc)];
       warnings := [autoDecryptFailed error] |} in
  match decrypt env (fsPath (uri doc)) with
  | Rejected error => failed error
  | Resolved decrypted =>
      let edit := ReplaceEdit 0 (String.length (getText doc)) decrypted in
      match applyEdit env with
      | Rejected error => failed error
      | Resolved applied =>
          {| opened :=
               if applied
               then {| uri := uri doc;
                       getText := applyEdits (getText doc) [edit];
                       isDirty := true |}
               else doc;
             decryptedFiles := markDecrypted (uri doc) tracker;
             decryptCalls := [fsPath (uri doc)];
             warnings := [] |}
      end
  end.

Definition handleDocumentOpened (env : Env) (tracker : FileStateTracker.t)
    (doc : TextDocument) : Outcome :=
  let untouched :=
    {| opened := doc; decryptedFiles := tracker; decryptCalls := [];
       warnings := [] |} in
  if negb (String.eqb (scheme (uri doc)) "file") then untouched
  else
    match getOpenBehavior env with
    | OpenAutoDecrypt =>
        if negb (hasMatchingRule env (uri doc)) then untouched
        else if negb (isContentEncrypted env (getText doc)) then untouched
        else autoDecryptDocument env tracker doc
    | _ => untouched
    end.

End AutoDecrypt.

(** ** watchers/configWatcher.ts *)
Module ConfigWatcher.

(** The three emitters, named as [eventTypeNames] names them. *)
Inductive Emitter := OnDidChange | OnDidCreate | OnDidDelete.

Global Instance Emitter_eq_dec : EqDecision Emitter.
Proof. solve_decision. Defined.

Definition eventTypeName (emitter : Emitter) : string :=
  match emitter with
  | OnDidChange => "change"
  | OnDidCreate => "create"
  | OnDidDelete => "delete"
  end.

Definition debounceMs : N := 500.

(** What the callback given to [setTimeout] closes over. *)
Record Callback := mkCallback {
  cbUri : Uri;
  cbEmitter : Emitter;
  cbKey : string
}.

Record State := mkState {
  (** [debounceTimers]: key to timer handle *)
  debounceTimers : gmap string nat;
  (** the host's timers that are set and have neither fired nor been
      cleared, with their callbacks *)
  armed : gmap nat Callback;
  (** the handle the next [setTimeout] returns *)
  nextTimer : nat;
  (** what the emitters have fired, oldest first *)
  emitted : list (Emitter * Uri)
}.

Definition initial : State :=
  {| debounceTimers := ∅; armed := ∅; nextTimer := 0; emitted := [] |}.

Definition handleEvent (uri : Uri) (emitter : Emitter) (st : State) : State :=
  let key := fsPath uri +:+ ":" +:+ eventTypeName emitter in
  let cleared :=
    match debounceTimers st !! key with
    | Some existingTimer => delete existingTimer (armed st)
    | None => armed st
    end in
  let timer := nextTimer st in
  {| debounceTimers := <[ key := timer ]> (debounceTimers st);
     armed := <[ timer := {| cbUri := uri; cbEmitter := emitter;
                             cbKey := key |} ]> cleared;
     nextTimer := S timer;
     emitted := emitted st |}.

(** The host runs the callback of a timer, [debounceMs] after it was set,
    if the timer is still armed. *)
Definition timerFires (timer : nat) (st : State) : State :=
  match armed st !! timer with
  | None => st
  | Some cb =>
      {| debounceTimers := delete (cbKey cb) (debounceTimers st);
         armed := delete timer (armed st);
         nextTimer := nextTimer st;
         emitted := emitted st ++ [(cbEmitter cb, cbUri cb)] |}
  end.

(** [dispose()]: every timer of the map is cleared. *)
Definition dispose (st : State) : State :=
  {| debounceTimers := ∅;
     armed := map_fold (fun _ timer a => delete timer a) (armed st)
                (debounceTimers st);
     nextTimer := nextTimer st;
     emitted := emitted st |}.

End ConfigWatcher.

(** ** commands/encryptCommand.ts *)
Module EncryptCommand.
Import FileStateTracker AutoBehaviorHandler.

(** What the command shows. *)
Inductive Message :=
| Warning (msg : string)
| Information (msg : string)
(** [handleError(error)] *)
| HandledError (error : Exn).

Record Env := mkEnv {
  (** the runner and the settings the will-save handler shares with the
      command *)
  handler : AutoBehaviorHandler.Env;
  (** sopsDetector.isContentEncrypted(text) *)
  isContentEncrypted : string -> bool;
  (** what [vscode.workspace.applyEdit(edit)] settles to *)
  applyEdit : Settled bool;
  (** what the editor makes of the will-save listener while the command
      saves *)
  delivery : Delivery
}.

(** What a run leaves behind: the files and the decrypted-set, and the
    messages shown. *)
Record Outcome := mkOutcome {
  world : AutoBehaviorHandler.World;
  shown : list Message
}.

(** [editor.document.save()]: the editor saves a dirty document through
    its will-save listeners; a clean one has nothing to save. *)
Definition saveDocument (env : Env) (w : World) (doc : TextDocument) : World :=
  if isDirty doc then saveUnder (delivery env) (handler env) w doc else w.

(** The command; [onEncrypted] is the callback [activate] registers,
    given here as what it does to the decrypted-set. *)
Definition run (env : Env)
    (onEncrypted : Uri -> FileStateTracker.t -> FileStateTracker.t)
    (activeTextEditor : option TextDocument) (w : World) : Outcome :=
  match activeTextEditor with
  | None =>
      {| world := w; shown := [Warning "No active editor"] |}
  | Some doc =>
      let stopped msg := {| world := w; shown := [msg] |} in
      if negb (String.eqb (scheme (uri doc)) "file")
      then stopped (Warning "Can only encrypt local files")
      else if isContentEncrypted env (getText doc)
      then stopped (Information "File is already SOPS-encrypted")
      else
        let content := getText doc in
        match encryptContent (handler env) content (fsPath (uri doc)) with
        | Rejected error => stopped (HandledError error)
        | Resolved encrypted =>
            let edit := ReplaceEdit 0 (String.length content) encrypted in
            match applyEdit env with
            | Rejected error => stopped (HandledError error)
            | Resolved applied =>
                let edited :=
                  if applied
                  then {| uri := uri doc;
                          getText := applyEdits content [edit];
                          isDirty := true |}
                  else doc in
                let saved := saveDocument env w edited in
                {| world :=
                     {| disk := disk saved;
                        decryptedFiles :=
                          onEncrypted (uri doc) (decryptedFiles saved) |};
                   shown := [Information "File encrypted successfully"] |}
            end
        end
  end.

End EncryptCommand.

(** * Vocabulary of the statements *)

Module DocumentWatcherSpec.
Import DocumentWatcher.

(** What [updateContext] reads the content from. *)
Definition classifiedEncrypted (env : Env) (u : Uri)
    (document : option TextDocument) : bool :=
  match document with
  | Some d => isDocumentEncrypted env d
  | None => isEncrypted env (fileUriOf u)
  end.

End DocumentWatcherSpec.

Module NodePathSpec.
Import NodePath.

(** The name without its extension, as a function of the segment. *)
Definition stemChars (r : list ascii) : list ascii :=
  take (length r - length (extChars r)) (reverse r).

End NodePathSpec.

Module SopsRunnerSpec.
Import SopsRunner.

(** The run is settled exactly when the promise has an outcome, and a
    cleared timer means a settled run. *)
Definition consistent (r : Run) : Prop :=
  (isSettled r = true <-> is_Some (settled r))
  /\ (timer r = false -> isSettled r = true).

(** Output arriving on the pipes. *)
Definition isData (ev : ProcEvent) : bool :=
  match ev with
  | StdoutData _ | StderrData _ => true
  | _ => false
  end.

(** The events whose callbacks settle the promise. *)
Definition settles (ev : ProcEvent) : bool :=
  match ev with
  | ProcClose _ | ProcError _ _ | TimeoutElapsed => true
  | _ => false
  end.

(** While the grace timer is armed and [killed] is still false, the process
    does not exist: [killProcess] arms the timer right after [kill], which
    sets [killed] for a process that exists. *)
Definition noForcedKill (r : Run) : Prop :=
  (SIGKILL ∉ signalsSent (proc r))
  /\ (graceTimer r = true -> killed (proc r) = false ->
      alive (proc r) = false).

End SopsRunnerSpec.

Module DecryptedViewServiceSpec.
Import DecryptedViewService.

(** A computation is quiet when it leaves the guard flag alone: the flag
    is the same afterwards, and every call it makes is observed under the
    flag it started with. *)
Definition Quiet {A} (m : M A) : Prop :=
  forall w,
    flag (m w).2 = flag w
    /\ exists l, observed (m w).2 = observed w ++ l
                 /\ Forall (fun o => flagAtCall o = flag w) l.

(** The dialog of [switchToFile] over an unsaved buffer. *)
Definition unsavedPrompt : HostCall :=
  ShowWarningMessage
    "You have unsaved changes in the decrypted file. Save before switching?"
    ["Save"; "Discard"; "Cancel"].

End DecryptedViewServiceSpec.

(** ** Vocabulary for the runs of [runCommand] *)
Module SopsRunnerOutput.
Import SopsRunner.

(** What the ['data'] callbacks have appended to [stdout] and to [stderr]
    after a sequence of events, starting from the empty string. *)
Definition stdoutOf (evs : list ProcEvent) : string :=
  foldl (fun acc ev => match ev with
                       | StdoutData data => acc +:+ data
                       | _ => acc
                       end) "" evs.

Definition stderrOf (evs : list ProcEvent) : string :=
  foldl (fun acc ev => match ev with
                       | StderrData data => acc +:+ data
                       | _ => acc
                       end) "" evs.

(** A settled run whose process was never signalled and whose grace timer
    is not armed. *)
Definition leftAlone (r : Run) : Prop :=
  isSettled r = true /\ graceTimer r = false /\ signalsSent (proc r) = [].

End SopsRunnerOutput.

Module SopsRunnerRejection.
Import SopsRunner.

(** What a rejection of [runCommand] carries when it comes from the
    events of the child or from the timeout: an object built by
    [createError]. *)
Definition built (se : SopsError) : Prop :=
  recoverable se = negb (isCliNotFound (type se))
  /\ type se <> ConfigParseError.

Definition rejectsBuilt (r : Run) : Prop :=
  forall e, settled r = Some (Rejected e) -> exists se, e = SopsExn se /\ built se.

End SopsRunnerRejection.

(** ** Vocabulary for the content provider *)
Module DecryptedContentProviderSpec.
Import DecryptedContentProvider.

(** What the editor asks of the provider, one call after the other. *)
Inductive Call :=
| Provide (uri : Uri)
| Refresh (originalPath : string).

Definition call (env : Env) (st : State) (c : Call) : State :=
  match c with
  | Provide uri => (provideTextDocumentContent env uri st).2
  | Refresh originalPath => refresh originalPath st
  end.

(** The path a preview URI stands for, as [provideTextDocumentContent]
    reads it. *)
Definition pathOf (uri : Uri) : string :=
  if bool_decide (query uri = "") then path uri else query uri.

End DecryptedContentProviderSpec.

(** ** Vocabulary for what the decrypted-view service leaves alone *)
Module DecryptedViewFrame.
Import DecryptedViewService.

(** A computation respects a relation between the world before and the
    world after when every run, normal or interrupted by a throw, ends in
    a related world. *)
Definition Respects (R : World -> World -> Prop) {A} (m : M A) : Prop :=
  forall w, R w (m w).2.

(** The temp-file handler is as it was: same map, same disk, same
    effects. *)
Definition sameTemp (w w' : World) : Prop := temp w' = temp w.

(** The map and the disk of the temp-file handler are as they were except
    possibly at one path. *)
Definition sameExceptAt (p : string) (w w' : World) : Prop :=
  forall q, q <> p ->
    TempFileHandler.disk (temp w') !! q = TempFileHandler.disk (temp w) !! q
    /\ TempFileHandler.tempToOriginal (temp w') !! q
       = TempFileHandler.tempToOriginal (temp w) !! q.

(** A relation that holds, with the Registry as it was. *)
Definition keepingSessions (Q : World -> World -> Prop) (w w' : World)
  : Prop :=
  Q w w'
  /\ EditorGroupTracker.sessions (tracker w')
     = EditorGroupTracker.sessions (tracker w).

(** The Registry holds no session for the source: tracking a view of it
    supersedes nothing. *)
Definition fresh (sourceUri : Uri) (w : World) : Prop :=
  EditorGroupTracker.getSession (toString sourceUri) (tracker w) = None.

End DecryptedViewFrame.

(** ** Vocabulary for the guard flag on the event loop *)
Module EventLoopSpec.
Import DecryptedViewService EventLoop.

(** The calls made between two worlds, each observed under the flag
    [b]. *)
Definition callsUnder (b : bool) (w w' : World) : Prop :=
  exists l, observed w' = observed w ++ l
            /\ Forall (fun o => flagAtCall o = b) l.

(** What one turn leaves, for a turn that leaves the flag alone: the
    flag is as the turn found it, and the calls of the turn were made
    under it. *)
Definition keepsFlag (w w' : World) : Prop :=
  flag w' = flag w /\ callsUnder (flag w) w w'.

(** A call that leaves the flag alone in each of its turns, whatever the
    world it is resumed in. *)
Fixpoint quiet {A} (t : Task A) : Prop :=
  match t with
  | Finished _ => True
  | Suspended next after => forall w, keepsFlag w (after w) /\ quiet (next w)
  end.

(** An async function whose statements leave the flag alone. *)
Definition quietly {A} (p : Async A) : Prop :=
  forall w, keepsFlag w (p w).2 /\ quiet (p w).1.

(** [P] holds of the world the call leaves in the turn in which it
    returns or throws, whichever turn that is and whatever the world it
    is resumed in. *)
Fixpoint exits {A} (P : World -> Prop) (t : Task A) : Prop :=
  match t with
  | Finished _ => True
  | Suspended next after =>
      forall w, (finished (next w) = true -> P (after w)) /\ exits P (next w)
  end.

(** A call that keeps running under the flag for as long as it finds
    the flag [true] when it is resumed: the calls of the turn are made
    under [true], and the flag is [true] when the call is suspended
    again. *)
Fixpoint holdsFlag {A} (t : Task A) : Prop :=
  match t with
  | Finished _ => True
  | Suspended next after =>
      forall w,
        flag w = true ->
        callsUnder true w (after w)
        /\ (finished (next w) = false -> flag (after w) = true)
        /\ holdsFlag (next w)
  end.

(** The calls of guarded blocks, made and not yet run. *)
Definition blocks (bodies : list (Async unit)) : list (Task unit) :=
  map (fun body => suspend (guarded body)) bodies.

End EventLoopSpec.

(** ** Vocabulary for the context keys and the status bar *)
Module DocumentWatcherUiSpec.
Import DocumentWatcher StatusBarProvider.

Global Instance FileEncryptionState_eq_dec : EqDecision FileEncryptionState.
Proof. solve_decision. Defined.

(** The URI is of a scheme [updateContext] looks at, and a creation rule
    matches the file it stands for. *)
Definition governed (env : Env) (u : Uri) : bool :=
  (String.eqb (scheme u) "file" || String.eqb (scheme u) "sops-decrypted")
  && hasMatchingRule env (fileUriOf u).

(** What a caller does with the status bar. *)
Inductive Op :=
| Update (hasMatchingRule : bool) (encryptionState : FileEncryptionState)
         (showStatusBar : bool)
| Show
| Hide.

Definition apply (st : State) (op : Op) : State :=
  match op with
  | Update r s b => update r s b st
  | Show => show st
  | Hide => hide st
  end.

(** One call on an item whose visibility is known: [None] when the call
    is redundant ([show()] on a shown item, [hide()] on a hidden one). *)
Definition itemStep (shown : option bool) (c : ItemCall) : option bool :=
  match shown, c with
  | Some false, ItemShow => Some true
  | Some true, ItemHide => Some false
  | _, _ => None
  end.

(** The visibility of an item created hidden after a log of calls, none of
    them redundant. *)
Definition replay (calls : list ItemCall) : option bool :=
  foldl itemStep (Some false) calls.

End DocumentWatcherUiSpec.

(** ** Vocabulary for the rules of [.sops.yaml] *)
Module RulesMatcherSpec.
Import ConfigParser RulesMatcher.

(** What [new RegExp(pattern)] gives [getCachedRegex] to keep. *)
Definition compiled (re : RegExpEngine) (pattern : string) : option string :=
  match syntaxError re pattern with
  | None => Some pattern
  | Some _ => None
  end.

(** Every entry of the cache is what compiling its pattern gives. *)
Definition coherent (re : RegExpEngine) (cache : RegexCache) : Prop :=
  forall pattern v, JSMap.get pattern cache = Some v -> v = compiled re pattern.

(** Whether a rule matches, read off the patterns alone. *)
Definition matchesBy (re : RegExpEngine) (rule : SopsCreationRule)
    (relativePath filename : string) : bool :=
  match given (path_regex rule) with
  | Some pattern => testWith re (compiled re pattern) relativePath
  | None =>
      match given (filename_regex rule) with
      | Some pattern => testWith re (compiled re pattern) filename
      | None => true
      end
  end.

(** The patterns a rule is matched by compile. *)
Definition compilable (re : RegExpEngine) (rule : SopsCreationRule) : Prop :=
  (forall pattern, given (path_regex rule) = Some pattern ->
                   syntaxError re pattern = None)
  /\ (forall pattern, given (filename_regex rule) = Some pattern ->
                      syntaxError re pattern = None).

(** A rule that gives no pattern. *)
Definition catchAll (rule : SopsCreationRule) : Prop :=
  given (path_regex rule) = None /\ given (filename_regex rule) = None.

End RulesMatcherSpec.

(** ** Vocabulary for the calls made on the configuration manager *)
Module ConfigManagerSpec.
Import ConfigParser RulesMatcher RulesMatcherSpec ConfigManager.

Inductive Call :=
| Initialize
| LoadConfig (configUri : Uri)
| ReloadConfig (configUri : Uri)
| RemoveConfig (configUri : Uri)
| FindMatchingRule (fileUri : Uri)
| HasMatchingRule (fileUri : Uri)
| Dispose.

(** One call, made while the host is as [env] says. *)
Definition call (env : Env) (c : Call) (st : State) : State :=
  match c with
  | Initialize => initialize env st
  | LoadConfig configUri => loadConfig env configUri st
  | ReloadConfig configUri => reloadConfig env configUri st
  | RemoveConfig configUri => removeConfig configUri st
  | FindMatchingRule fileUri =>
      match findMatchingRule env st fileUri with
      | Some (_, st') => st'
      | None => st
      end
  | HasMatchingRule fileUri =>
      match hasMatchingRule env st fileUri with
      | Some (_, st') => st'
      | None => st
      end
  | Dispose => dispose st
  end.

(** The manager after a series of calls, each with the host of its
    moment. *)
Definition after (calls : list (Env * Call)) : State :=
  foldl (fun st ec => call ec.1 ec.2 st) initial calls.

(** A cache with at most [MAX_REGEX_CACHE_SIZE] entries, none of them a
    [null]. *)
Definition tidy (cache : RegexCache) : Prop :=
  JSMap.size cache <= MAX_REGEX_CACHE_SIZE
  /\ forall pattern v, JSMap.get pattern cache = Some v -> v = Some pattern.

(** A manager whose loaded rules all compile and whose cache is tidy. *)
Definition sound (re : RegExpEngine) (st : State) : Prop :=
  (forall p lc, configs st !! p = Some lc ->
     Forall (compilable re) (creation_rules (loadedConfig lc)))
  /\ tidy (regexCache st).

End ConfigManagerSpec.

(** ** Vocabulary for auto-decrypt and for the config watcher *)
Module AutoDecryptSpec.
Import AutoDecrypt.

Global Instance OpenBehavior_eq_dec : EqDecision OpenBehavior.
Proof. solve_decision. Defined.

(** The four tests a document passes before [handleDocumentOpened] calls
    SOPS. *)
Definition eligible (env : Env) (doc : TextDocument) : bool :=
  String.eqb (scheme (uri doc)) "file"
  && bool_decide (getOpenBehavior env = OpenAutoDecrypt)
  && hasMatchingRule env (uri doc)
  && isContentEncrypted env (getText doc).

End AutoDecryptSpec.

Module ConfigWatcherSpec.
Import ConfigWatcher.

(** What happens to a watcher: the file system watcher reports an event,
    the host runs the callback of a timer, the watcher is disposed of. *)
Inductive Step :=
| HandleEvent (uri : Uri) (emitter : Emitter)
| TimerFires (timer : nat)
| Dispose.

Definition step (st : State) (s : Step) : State :=
  match s with
  | HandleEvent uri emitter => handleEvent uri emitter st
  | TimerFires timer => timerFires timer st
  | Dispose => dispose st
  end.

Definition keyOf (uri : Uri) (emitter : Emitter) : string :=
  fsPath uri +:+ ":" +:+ eventTypeName emitter.

(** The armed timers are the timers the map holds, each under the key of
    its callback. *)
Definition oneTimerPerKey (st : State) : Prop :=
  (forall key timer, debounceTimers st !! key = Some timer ->
     exists cb, armed st !! timer = Some cb /\ cbKey cb = key)
  /\ (forall timer cb, armed st !! timer = Some cb ->
        debounceTimers st !! cbKey cb = Some timer)
  /\ (forall timer, is_Some (armed st !! timer) -> timer < nextTimer st).

End ConfigWatcherSpec.

(** ** Concrete inputs: a workspace with one governed file *)
Module Scenario.
Import AutoBehaviorHandler.

(** A decrypted document of the workspace, its buffer edited in place. *)
Definition secretsUri : Uri := Uri_file "/w/secrets.yaml".

Definition secretsDoc : TextDocument :=
  {| uri := secretsUri; getText := "password: hunter2"; isDirty := true |}.

Definition promptEnv (choice : option string) : Env :=
  {| getSaveBehavior := SavePrompt;
     encryptContent := fun _ _ => Resolved "password: ENC[AES256_GCM]";
     showWarningMessage := choice |}.

Definition secretsWorld : World :=
  {| disk := {[ "/w/secrets.yaml" := "password: ENC[AES256_GCM]" ]};
     decryptedFiles := {[ toString secretsUri ]} |}.

(** A file that no rule of [.sops.yaml] matches, decrypted by the decrypt
    command and therefore in the decrypted-set. *)
Definition notesUri : Uri := Uri_file "/w/notes.txt".

Definition ungovernedEnv : DocumentWatcher.Env :=
  {| DocumentWatcher.hasMatchingRule := fun _ => false;
     DocumentWatcher.isContentEncrypted := fun _ => false;
     DocumentWatcher.readFile := fun _ => Some "remember the milk" |}.

(** Every file is governed; ciphertext carries the [ENC] marker. *)
Definition governedEnv : DocumentWatcher.Env :=
  {| DocumentWatcher.hasMatchingRule := fun _ => true;
     DocumentWatcher.isContentEncrypted := fun text => JSString.includes text "ENC[";
     DocumentWatcher.readFile := fun _ => Some "password: ENC[AES256_GCM]" |}.

(** A run of SOPS that hangs (it waits on a key agent, say) and ignores
    [SIGTERM]: the timeout timer fires, then the grace timer; the process
    never closes. *)
Definition hungEnv : SopsRunner.Env :=
  {| SopsRunner.getSopsPath := "sops";
     SopsRunner.getTimeout := 30000%N;
     SopsRunner.spawned := fun _ _ => true;
     SopsRunner.events := fun _ _ =>
       [SopsRunner.TimeoutElapsed; SopsRunner.GraceElapsed];
     SopsRunner.writeFails := fun _ => false;
     SopsRunner.unlinkFails := fun _ => false |}.

(** A run of SOPS that prints its output and exits with code 0. *)
Definition okEnv : SopsRunner.Env :=
  {| SopsRunner.getSopsPath := "sops";
     SopsRunner.getTimeout := 30000%N;
     SopsRunner.spawned := fun _ _ => true;
     SopsRunner.events := fun _ _ =>
       [SopsRunner.StdoutData "password: ENC[AES256_GCM]";
        SopsRunner.ProcClose (Some 0%Z)];
     SopsRunner.writeFails := fun _ => false;
     SopsRunner.unlinkFails := fun _ => false |}.


Definition secretsDisk : Disk :=
  {[ "/w/secrets.yaml" := "password: ENC[AES256_GCM]" ]}.

(** [os.tmpdir()] on a Unix host; encryption and the file system work. *)
Definition tmpEnv : TempFileHandler.Env :=
  {| TempFileHandler.tmpdir := "/tmp";
     TempFileHandler.encryptContent :=
       fun _ _ => Resolved "password: ENC[AES256_GCM]";
     TempFileHandler.writeFails := fun _ => false;
     TempFileHandler.unlinkFails := fun _ => false |}.

(** The editor and the collaborators all succeed; the user answers
    "Cancel" to a dialog. *)
Definition viewEnv : DecryptedViewService.Env :=
  {| DecryptedViewService.decrypt := fun _ => Resolved "password: hunter2";
     DecryptedViewService.getDecryptedViewMode :=
       DecryptedViewService.editInPlace;
     DecryptedViewService.shouldOpenDecryptedBeside := true;
     DecryptedViewService.tempEnv := tmpEnv;
     DecryptedViewService.throws := fun _ _ => None;
     DecryptedViewService.picks := fun _ => Some "Cancel";
     DecryptedViewService.textOf := fun _ => "password: hunter2";
     DecryptedViewService.columnOf :=
       fun _ => Some (EditorGroupTracker.Column 2) |}.

(** The same, except that the decrypt call times out. *)
Definition timedOutViewEnv : DecryptedViewService.Env :=
  {| DecryptedViewService.decrypt := fun _ =>
       Rejected (SopsExn (SopsRunner.timeoutError 30000));
     DecryptedViewService.getDecryptedViewMode :=
       DecryptedViewService.editInPlace;
     DecryptedViewService.shouldOpenDecryptedBeside := true;
     DecryptedViewService.tempEnv := tmpEnv;
     DecryptedViewService.throws := fun _ _ => None;
     DecryptedViewService.picks := fun _ => Some "Cancel";
     DecryptedViewService.textOf := fun _ => "password: hunter2";
     DecryptedViewService.columnOf :=
       fun _ => Some (EditorGroupTracker.Column 2) |}.

Definition sourceDoc : TextDocument :=
  {| uri := secretsUri; getText := "password: ENC[AES256_GCM]";
     isDirty := false |}.

Definition previewUri : Uri := DecryptedViewService.createPreviewUri secretsUri.

Definition previewDoc : TextDocument :=
  {| uri := previewUri; getText := "password: hunter2"; isDirty := false |}.

(** [secrets.yaml] in column one, its read-only preview beside it and
    focused. *)
Definition previewWorld : DecryptedViewService.World :=
  {| DecryptedViewService.tracker :=
       {| EditorGroupTracker.extensionTriggeredOpen := false;
          EditorGroupTracker.sessions :=
            [{| EditorGroupTracker.docUri := toString previewUri;
                EditorGroupTracker.originalActiveUri := toString secretsUri;
                EditorGroupTracker.openedInColumn :=
                  EditorGroupTracker.Column 2;
                EditorGroupTracker.originalColumn :=
                  Some (EditorGroupTracker.Column 1) |}] |};
     DecryptedViewService.temp :=
       {| TempFileHandler.tempToOriginal := ∅;
          TempFileHandler.disk := secretsDisk;
          TempFileHandler.effects := [] |};
     DecryptedViewService.textDocuments := [sourceDoc; previewDoc];
     DecryptedViewService.visibleTextEditors :=
       [ {| DecryptedViewService.document := sourceDoc;
            DecryptedViewService.viewColumn :=
              Some (EditorGroupTracker.Column 1) |};
         {| DecryptedViewService.document := previewDoc;
            DecryptedViewService.viewColumn :=
              Some (EditorGroupTracker.Column 2) |} ];
     DecryptedViewService.activeTextEditor :=
       Some {| DecryptedViewService.document := previewDoc;
               DecryptedViewService.viewColumn :=
                 Some (EditorGroupTracker.Column 2) |};
     DecryptedViewService.tabGroups :=
       [[toString secretsUri]; [toString previewUri]];
     DecryptedViewService.observed := [] |}.

Definition editUri : Uri := Uri_file "/tmp/secrets.sops-edit.yaml".

Definition editDoc : TextDocument :=
  {| uri := editUri; getText := "password: hunter3"; isDirty := true |}.

(** [secrets.yaml] in column one, its writable copy beside it with unsaved
    changes. *)
Definition editWorld : DecryptedViewService.World :=
  {| DecryptedViewService.tracker :=
       {| EditorGroupTracker.extensionTriggeredOpen := false;
          EditorGroupTracker.sessions :=
            [{| EditorGroupTracker.docUri := toString editUri;
                EditorGroupTracker.originalActiveUri := toString secretsUri;
                EditorGroupTracker.openedInColumn :=
                  EditorGroupTracker.Column 2;
                EditorGroupTracker.originalColumn :=
                  Some (EditorGroupTracker.Column 1) |}] |};
     DecryptedViewService.temp :=
       {| TempFileHandler.tempToOriginal :=
            {[ "/tmp/secrets.sops-edit.yaml" := "/w/secrets.yaml" ]};
          TempFileHandler.disk :=
            <[ "/tmp/secrets.sops-edit.yaml" := "password: hunter2" ]>
              secretsDisk;
          TempFileHandler.effects := [] |};
     DecryptedViewService.textDocuments := [sourceDoc; editDoc];
     DecryptedViewService.visibleTextEditors :=
       [ {| DecryptedViewService.document := sourceDoc;
            DecryptedViewService.viewColumn :=
              Some (EditorGroupTracker.Column 1) |};
         {| DecryptedViewService.document := editDoc;
            DecryptedViewService.viewColumn :=
              Some (EditorGroupTracker.Column 2) |} ];
     DecryptedViewService.activeTextEditor :=
       Some {| DecryptedViewService.document := editDoc;
               DecryptedViewService.viewColumn :=
                 Some (EditorGroupTracker.Column 2) |};
     DecryptedViewService.tabGroups :=
       [[toString secretsUri]; [toString editUri]];
     DecryptedViewService.observed := [] |}.

End Scenario.

(** ** Concrete inputs: processes, caches and configurations *)
Module Inputs.

(** No [sops] on the [PATH]: [spawn] emits ['error'] with code [ENOENT]. *)
Definition missingCliEnv : SopsRunner.Env :=
  {| SopsRunner.getSopsPath := "sops";
     SopsRunner.getTimeout := 30000%N;
     SopsRunner.spawned := fun _ _ => false;
     SopsRunner.events := fun _ _ =>
       [SopsRunner.ProcError "ENOENT" "spawn sops ENOENT"];
     SopsRunner.writeFails := fun _ => false;
     SopsRunner.unlinkFails := fun _ => false |}.

(** SOPS cannot reach the key: it complains on [stderr] and exits with
    code 128. *)
Definition deniedEnv : SopsRunner.Env :=
  {| SopsRunner.getSopsPath := "sops";
     SopsRunner.getTimeout := 30000%N;
     SopsRunner.spawned := fun _ _ => true;
     SopsRunner.events := fun _ _ =>
       [SopsRunner.StderrData "Failed to get the data key ";
        SopsRunner.StderrData "required to decrypt the SOPS file.";
        SopsRunner.ProcClose (Some 128%Z)];
     SopsRunner.writeFails := fun _ => false;
     SopsRunner.unlinkFails := fun _ => false |}.

(** The same failure on a file system that refuses to unlink. *)
Definition deniedLockedEnv : SopsRunner.Env :=
  {| SopsRunner.getSopsPath := "sops";
     SopsRunner.getTimeout := 30000%N;
     SopsRunner.spawned := fun _ _ => true;
     SopsRunner.events := fun _ _ =>
       [SopsRunner.StderrData "Failed to get the data key ";
        SopsRunner.StderrData "required to decrypt the SOPS file.";
        SopsRunner.ProcClose (Some 128%Z)];
     SopsRunner.writeFails := fun _ => false;
     SopsRunner.unlinkFails := fun _ => true |}.

(** [saveBehavior] is [autoEncrypt] and SOPS encrypts. *)
Definition autoEncryptEnv : AutoBehaviorHandler.Env :=
  {| AutoBehaviorHandler.getSaveBehavior := SaveAutoEncrypt;
     AutoBehaviorHandler.encryptContent :=
       fun _ _ => Resolved "password: ENC[AES256_GCM]";
     AutoBehaviorHandler.showWarningMessage := None |}.

(** [saveBehavior] is [autoEncrypt] and SOPS has lost access to the key. *)
Definition autoEncryptDeniedEnv : AutoBehaviorHandler.Env :=
  {| AutoBehaviorHandler.getSaveBehavior := SaveAutoEncrypt;
     AutoBehaviorHandler.encryptContent :=
       fun _ _ => Rejected (SopsExn (SopsRunner.parseError
                                       "Failed to get the data key" (Some 128%Z)));
     AutoBehaviorHandler.showWarningMessage := None |}.

(** A host that encrypts whatever it is given, ciphertext included, with
    [saveBehavior] set to [autoEncrypt]. *)
Definition wrappingEnv : EncryptCommand.Env :=
  {| EncryptCommand.handler :=
       {| AutoBehaviorHandler.getSaveBehavior := SaveAutoEncrypt;
          AutoBehaviorHandler.encryptContent :=
            fun content _ => Resolved ("ENC[" +:+ content +:+ "]");
          AutoBehaviorHandler.showWarningMessage := None |};
     EncryptCommand.isContentEncrypted := fun text =>
       JSString.startsWith text "ENC[";
     EncryptCommand.applyEdit := Resolved true;
     EncryptCommand.delivery := AutoBehaviorHandler.EditsApplied |}.

(** SOPS decrypts; what it prints changes from one call to the next (the
    file is edited in between). *)
Definition providerEnv : DecryptedContentProvider.Env :=
  {| DecryptedContentProvider.decrypt :=
       fun n _ => Resolved ("revision: " +:+ pretty n) |}.

(** SOPS times out. *)
Definition failingProviderEnv : DecryptedContentProvider.Env :=
  {| DecryptedContentProvider.decrypt :=
       fun _ _ => Rejected (SopsExn (SopsRunner.timeoutError 30000)) |}.

(** The preview of [/w/secrets.yaml] and of [/w/other.json]. *)
Definition otherUri : Uri := Uri_file "/w/other.json".

Definition otherPreviewUri : Uri :=
  DecryptedViewService.createPreviewUri otherUri.

(** The preview command invoked on [/w/secrets.yaml] and, while its
    first [await] is pending, on [/w/other.json]; the first call then
    runs to its end before the second is resumed. *)
Definition twoPreviews : list (EventLoop.Task unit) :=
  [EventLoop.suspend
     (EventLoop.openPreview Scenario.viewEnv Scenario.secretsUri
        {| DecryptedViewService.preserveFocus := false;
           DecryptedViewService.showInfoMessage := None |});
   EventLoop.suspend
     (EventLoop.openPreview Scenario.viewEnv otherUri
        {| DecryptedViewService.preserveFocus := false;
           DecryptedViewService.showInfoMessage := None |})].

Definition overlapping : list nat := [0; 1; 0; 0; 0; 0; 1; 1; 1; 1].

(** The encrypted source alone in the window: no view is open. *)
Definition sourceWorld : DecryptedViewService.World :=
  {| DecryptedViewService.tracker :=
       {| EditorGroupTracker.extensionTriggeredOpen := false;
          EditorGroupTracker.sessions := [] |};
     DecryptedViewService.temp :=
       {| TempFileHandler.tempToOriginal := ∅;
          TempFileHandler.disk := Scenario.secretsDisk;
          TempFileHandler.effects := [] |};
     DecryptedViewService.textDocuments := [Scenario.sourceDoc];
     DecryptedViewService.visibleTextEditors :=
       [ {| DecryptedViewService.document := Scenario.sourceDoc;
            DecryptedViewService.viewColumn :=
              Some (EditorGroupTracker.Column 1) |} ];
     DecryptedViewService.activeTextEditor :=
       Some {| DecryptedViewService.document := Scenario.sourceDoc;
               DecryptedViewService.viewColumn :=
                 Some (EditorGroupTracker.Column 1) |};
     DecryptedViewService.tabGroups := [[toString Scenario.secretsUri]];
     DecryptedViewService.observed := [] |}.

(** A provider whose cache holds twenty previews, [/w/0.yaml] the oldest. *)
Definition fullProvider : DecryptedContentProvider.State :=
  {| DecryptedContentProvider.cache :=
       map (fun i : nat => ("/w/" +:+ pretty i +:+ ".yaml", "revision: 0"))
           (seq 0 20);
     DecryptedContentProvider.fired := [];
     DecryptedContentProvider.decrypted := [] |}.

Definition oldestPreviewUri : Uri :=
  DecryptedViewService.createPreviewUri (Uri_file "/w/0.yaml").

(** A host whose patterns are plain words: a pattern matches the strings
    that contain it, and an unclosed group does not compile. *)
Definition wordEngine : RegExpEngine :=
  {| syntaxError := fun pattern =>
       if JSString.includes pattern "("
       then Some "Invalid regular expression: Unterminated group"
       else None;
     test := fun pattern s => JSString.includes s pattern |}.

(** [.sops.yaml] with one rule for the files under [secrets]. *)
Definition sopsYamlText : string :=
  "creation_rules: [{path_regex: secrets, age: age1qqq}]".

Definition sopsYaml : Yaml.t :=
  Yaml.Map [("creation_rules",
             Yaml.Seq [Yaml.Map [("path_regex", Yaml.Str "secrets");
                                 ("age", Yaml.Str "age1qqq")]])].

Definition parserEnv : ConfigParser.Env :=
  {| ConfigParser.parseYaml := fun content =>
       if String.eqb content sopsYamlText then inr sopsYaml
       else inl (ErrorExn "YAMLParseError");
     ConfigParser.engine := wordEngine |}.

Definition secretsRule : ConfigParser.SopsCreationRule :=
  {| ConfigParser.path_regex := Some "secrets";
     ConfigParser.filename_regex := None;
     ConfigParser.encrypted_regex := None;
     ConfigParser.encrypted_suffix := None;
     ConfigParser.unencrypted_suffix := None;
     ConfigParser.age := Some (Yaml.Str "age1qqq");
     ConfigParser.pgp := None;
     ConfigParser.kms := None;
     ConfigParser.gcp_kms := None;
     ConfigParser.azure_kv := None;
     ConfigParser.hc_vault_transit := None;
     ConfigParser.key_groups := None;
     ConfigParser.shamir_threshold := None |}.

(** The workspace [/w] with its [.sops.yaml]; [brokenEnv] is the same
    workspace after the file has been cut in the middle of a line. *)
Definition managerEnv : ConfigManager.Env :=
  {| ConfigManager.parser := parserEnv;
     ConfigManager.readFile := fun p =>
       if String.eqb p "/w/.sops.yaml" then Some sopsYamlText else None;
     ConfigManager.getWorkspaceFolder := fun _ => Some "/w";
     ConfigManager.hasWorkspaceFolders := true;
     ConfigManager.findFiles := [Uri_file "/w/.sops.yaml"];
     ConfigManager.relative := fun from to =>
       String.substring (String.length from + 1)
         (String.length to - String.length from - 1) to |}.

Definition brokenEnv : ConfigManager.Env :=
  {| ConfigManager.parser := parserEnv;
     ConfigManager.readFile := fun p =>
       if String.eqb p "/w/.sops.yaml" then Some "creation_rules: [{path_"
       else None;
     ConfigManager.getWorkspaceFolder := fun _ => Some "/w";
     ConfigManager.hasWorkspaceFolders := true;
     ConfigManager.findFiles := [Uri_file "/w/.sops.yaml"];
     ConfigManager.relative := fun from to =>
       String.substring (String.length from + 1)
         (String.length to - String.length from - 1) to |}.

Definition loadedManager : ConfigManager.State :=
  ConfigManager.initialize managerEnv ConfigManager.initial.

(** [openBehavior] is [autoDecrypt]; every file is governed, ciphertext
    carries the [ENC] marker, and SOPS decrypts. *)
Definition autoDecryptEnv : AutoDecrypt.Env :=
  {| AutoDecrypt.getOpenBehavior := AutoDecrypt.OpenAutoDecrypt;
     AutoDecrypt.hasMatchingRule := fun _ => true;
     AutoDecrypt.isContentEncrypted := fun text => JSString.includes text "ENC[";
     AutoDecrypt.decrypt := fun _ => Resolved "password: hunter2";
     AutoDecrypt.applyEdit := Resolved true |}.

(** The same, with SOPS timing out. *)
Definition autoDecryptTimeoutEnv : AutoDecrypt.Env :=
  {| AutoDecrypt.getOpenBehavior := AutoDecrypt.OpenAutoDecrypt;
     AutoDecrypt.hasMatchingRule := fun _ => true;
     AutoDecrypt.isContentEncrypted := fun text => JSString.includes text "ENC[";
     AutoDecrypt.decrypt := fun _ =>
       Rejected (SopsExn (SopsRunner.timeoutError 30000));
     AutoDecrypt.applyEdit := Resolved true |}.

End Inputs.

(** * Properties *)

(** ** The encryption-state tracker and the will-save handler *)
Module AutoBehaviorHandlerProps.
Import FileStateTracker AutoBehaviorHandler Scenario.

Lemma isMarkedDecrypted_markEncrypted u s :
  isMarkedDecrypted u (markEncrypted u s) = false.
Proof.
  unfold isMarkedDecrypted, markEncrypted.
  apply bool_decide_eq_false.
  rewrite elem_of_difference, elem_of_singleton. tauto.
Qed.

Lemma isMarkedDecrypted_clearFile u s :
  isMarkedDecrypted u (clearFile u s) = false.
Proof. apply isMarkedDecrypted_markEncrypted. Qed.

Lemma isMarkedDecrypted_markDecrypted u s :
  isMarkedDecrypted u (markDecrypted u s) = true.
Proof.
  unfold isMarkedDecrypted, markDecrypted.
  apply bool_decide_eq_true.
  rewrite elem_of_union, elem_of_singleton. tauto.
Qed.

Lemma handleDocumentWillSave_unmarked env tracker doc :
  isMarkedDecrypted (uri doc) tracker = false ->
  handleDocumentWillSave env tracker doc = None.
Proof.
  intros Hm. unfold handleDocumentWillSave. rewrite Hm.
  by destruct (String.eqb _ _).
Qed.

Lemma handleDocumentWillSave_marked env tracker doc :
  isMarkedDecrypted (uri doc) tracker = true ->
  scheme (uri doc) = "file" ->
  handleDocumentWillSave env tracker doc =
    match getSaveBehavior env with
    | SaveAutoEncrypt => Some (autoEncryptOf doc)
    | SavePrompt => Some (promptBeforeSaveOf doc)
    | SaveManualEncrypt => None
    end.
Proof.
  intros Hm Hs. unfold handleDocumentWillSave. by rewrite Hm, Hs.
Qed.

Lemma applyEdits_nil text : applyEdits text [] = text.
Proof. reflexivity. Qed.

(** C7: for a document whose URI is not in the decrypted-set the handler
    returns without calling [waitUntil] (the decision is [ProceedAsIs]) and
    the save writes the buffer as it is, leaving the set alone; a decision
    other than [ProceedAsIs] is only taken for a member of the set; and for
    a member (a [file] document) the decision is the configured
    [saveBehavior]: [AutoEncrypt], [Prompt], or nothing for
    [manualEncrypt]. *)
Theorem willSave_decision env tracker doc :
  (isMarkedDecrypted (uri doc) tracker = false ->
     handleDocumentWillSave env tracker doc = None
     /\ decideOnWillSave env tracker doc = ProceedAsIs
     /\ forall d,
          save env {| disk := d; decryptedFiles := tracker |} doc
          = {| disk := <[ fsPath (uri doc) := getText doc ]> d;
               decryptedFiles := tracker |})
  /\ (decideOnWillSave env tracker doc <> ProceedAsIs ->
        isMarkedDecrypted (uri doc) tracker = true)
  /\ (isMarkedDecrypted (uri doc) tracker = true ->
      scheme (uri doc) = "file" ->
        decideOnWillSave env tracker doc
        = mapSaveBehavior (getSaveBehavior env)).
Proof.
  split; [|split].
  - intros Hm.
    pose proof (handleDocumentWillSave_unmarked env tracker doc Hm) as Hn.
    split; [done|]. split.
    + unfold decideOnWillSave. by rewrite Hn.
    + intros d. unfold save. simpl. by rewrite Hn.
  - intros Hd. destruct (isMarkedDecrypted (uri doc) tracker) eqn:Hm; [done|].
    exfalso. apply Hd. unfold decideOnWillSave.
    by rewrite (handleDocumentWillSave_unmarked env tracker doc Hm).
  - intros Hm Hs. unfold decideOnWillSave.
    rewrite (handleDocumentWillSave_marked env tracker doc Hm Hs).
    by destruct (getSaveBehavior env).
Qed.

Lemma willSave_decision_witness :
  decideOnWillSave (promptEnv None) (decryptedFiles secretsWorld) secretsDoc
  = Prompt.
Proof.
  apply (proj2 (proj2 (willSave_decision (promptEnv None)
                         (decryptedFiles secretsWorld) secretsDoc)));
    reflexivity.
Defined.

(** With [saveBehavior = prompt], whatever the user does other than picking
    "Encrypt & Save" -- the other button, or dismissing the dialog -- the
    thenable resolves to no edits: the buffer is written as it is. *)
Lemma save_prompt_not_encrypt env w doc :
  isMarkedDecrypted (uri doc) (decryptedFiles w) = true ->
  scheme (uri doc) = "file" ->
  getSaveBehavior env = SavePrompt ->
  showWarningMessage env <> Some "Encrypt & Save" ->
  save env w doc
  = {| disk := <[ fsPath (uri doc) := getText doc ]> (disk w);
       decryptedFiles := decryptedFiles w |}.
Proof.
  intros Hm Hs Hb Hc. unfold save.
  rewrite (handleDocumentWillSave_marked env _ doc Hm Hs), Hb. simpl.
  unfold promptBeforeSave.
  destruct (showWarningMessage env) as [c|] eqn:Hw; [|done].
  destruct (String.eqb c "Encrypt & Save") eqn:He; [|done].
  apply String.eqb_eq in He. by subst.
Qed.

(** C1, the code at the failing input: the file is in the decrypted-set,
    [saveBehavior] is [prompt] and the user dismisses the dialog. The save
    goes through: the file on disk, which held ciphertext, now holds the
    plaintext of the buffer. The decrypted-set is unchanged. *)
Theorem prompt_cancel_still_writes_plaintext :
  let w' := save (promptEnv None) secretsWorld secretsDoc in
  disk secretsWorld !! "/w/secrets.yaml" = Some "password: ENC[AES256_GCM]"
  /\ disk w' !! "/w/secrets.yaml" = Some "password: hunter2"
  /\ decryptedFiles w' = decryptedFiles secretsWorld.
Proof.
  cbv zeta.
  rewrite (save_prompt_not_encrypt (promptEnv None) secretsWorld secretsDoc)
    by (reflexivity || discriminate).
  simpl. split; [|split].
  - by rewrite lookup_singleton_eq.
  - by rewrite lookup_insert_eq.
  - done.
Qed.

End AutoBehaviorHandlerProps.

(** ** The state shown for a document *)
Module DocumentWatcherProps.
Import FileStateTracker DocumentWatcher DocumentWatcherSpec Scenario.

Lemma updateContext_state env tracker u document r st :
  updateContext env tracker u document = Some (r, st) ->
  r = hasMatchingRule env (fileUriOf u)
  /\ st = (if negb r then Unknown
           else if isMarkedDecrypted (fileUriOf u) tracker then Decrypted
           else if classifiedEncrypted env u document then Encrypted
           else PlainText).
Proof.
  unfold updateContext, classifiedEncrypted.
  destruct (negb (String.eqb (scheme u) "file")
            && negb (String.eqb (scheme u) "sops-decrypted")); [done|].
  intros [= <- <-]. done.
Qed.

(** C8, the claim as stated fails: [/w/notes.txt] matches no rule and is in
    the decrypted-set; after [markEncrypted] removes it, the next state
    query reports [Unknown], which is neither [Encrypted] nor
    [PlainText]. *)
Lemma removed_ungoverned_path_is_Unknown :
  updateContext ungovernedEnv
    (FileStateTracker.markEncrypted notesUri {[ toString notesUri ]})
    notesUri None
  = Some (false, Unknown).
Proof. reflexivity. Qed.

(** C8 as amended: [Decrypted] is reported only for a file in the
    decrypted-set; once the file has been removed from the set by
    [markEncrypted] or [clearFile], the next query never reports
    [Decrypted]: for a file with a matching rule it reports [Encrypted] or
    [PlainText] according to the content, and for a file without one it
    reports [Unknown]. *)
Theorem decrypted_only_while_tracked env tracker u document :
  (forall r,
     updateContext env tracker u document = Some (r, Decrypted) ->
     isMarkedDecrypted (fileUriOf u) tracker = true)
  /\ (forall tracker' r st,
        tracker' = FileStateTracker.markEncrypted (fileUriOf u) tracker
        \/ tracker' = clearFile (fileUriOf u) tracker ->
        updateContext env tracker' u document = Some (r, st) ->
        st <> Decrypted
        /\ (hasMatchingRule env (fileUriOf u) = true ->
            st = if classifiedEncrypted env u document
                 then Encrypted else PlainText)
        /\ (hasMatchingRule env (fileUriOf u) = false -> st = Unknown)).
Proof.
  split.
  - intros r H. apply updateContext_state in H as [-> H].
    destruct (hasMatchingRule env (fileUriOf u)); simpl in H; [|done].
    destruct (isMarkedDecrypted (fileUriOf u) tracker); [done|].
    by destruct (classifiedEncrypted env u document).
  - intros tracker' r st Htr H.
    apply updateContext_state in H as [-> ->].
    assert (isMarkedDecrypted (fileUriOf u) tracker' = false) as ->.
    { destruct Htr as [-> | ->].
      - apply AutoBehaviorHandlerProps.isMarkedDecrypted_markEncrypted.
      - apply AutoBehaviorHandlerProps.isMarkedDecrypted_clearFile. }
    destruct (hasMatchingRule env (fileUriOf u)); simpl.
    + destruct (classifiedEncrypted env u document); by repeat split.
    + by repeat split.
Qed.

Lemma decrypted_only_while_tracked_witness :
  Encrypted <> Decrypted
  /\ (hasMatchingRule governedEnv (fileUriOf Scenario.secretsUri) = true ->
      Encrypted = if classifiedEncrypted governedEnv Scenario.secretsUri None
                  then Encrypted else PlainText)
  /\ (hasMatchingRule governedEnv (fileUriOf Scenario.secretsUri) = false ->
      Encrypted = Unknown).
Proof.
  apply (proj2 (decrypted_only_while_tracked governedEnv
                  {[ toString Scenario.secretsUri ]} Scenario.secretsUri None)
           (FileStateTracker.markEncrypted (fileUriOf Scenario.secretsUri)
              {[ toString Scenario.secretsUri ]}) true Encrypted).
  - left. reflexivity.
  - reflexivity.
Defined.

End DocumentWatcherProps.

(** ** The temp-file handler *)
Module TempFileHandlerProps.
Import NodePath TempFileHandler.

Lemma onDocumentSaved_untracked env doc st :
  tempToOriginal st !! fsPath (uri doc) = None ->
  onDocumentSaved env doc st = st.
Proof. intros H. unfold onDocumentSaved. by rewrite H. Qed.

(** Saving never unlinks, never forgets a mapping and never removes a file
    from the disk. *)
Lemma not_Unlink_appended p (l : list Effect) (added : list Effect) :
  Forall (fun e => forall q, e <> Unlink q) added ->
  Unlink p ∈ l ++ added -> Unlink p ∈ l.
Proof.
  intros Hall [H|H]%elem_of_app; [done|].
  rewrite Forall_forall in Hall. by destruct (Hall _ H p).
Qed.

Lemma onDocumentSaved_keeps_files env doc st :
  tempToOriginal (onDocumentSaved env doc st) = tempToOriginal st
  /\ (forall p, Unlink p ∈ effects (onDocumentSaved env doc st) ->
               Unlink p ∈ effects st)
  /\ (forall p, is_Some (disk st !! p) ->
               is_Some (disk (onDocumentSaved env doc st) !! p)).
Proof.
  unfold onDocumentSaved.
  destruct (tempToOriginal st !! fsPath (uri doc)) as [orig|]; [|done].
  case_bool_decide; [done|].
  destruct (encryptContent env (getText doc) orig) as [enc|e]; simpl.
  - destruct (writeFails env orig); simpl.
    + split; [done|]. split; [|done].
      intros p Hp. rewrite <- app_assoc in Hp.
      apply (not_Unlink_appended p _ _) in Hp; [done|].
      by repeat constructor.
    + split; [done|]. split.
      * intros p Hp. rewrite <- app_assoc in Hp.
        apply (not_Unlink_appended p _ _) in Hp; [done|].
        by repeat constructor.
      * intros p Hp. destruct (decide (orig = p)) as [->|Hne].
        -- rewrite lookup_insert_eq. eauto.
        -- by rewrite lookup_insert_ne.
  - split; [done|]. split; [|done].
    intros p Hp. rewrite <- app_assoc in Hp.
    apply (not_Unlink_appended p _ _) in Hp; [done|].
    by repeat constructor.
Qed.

(** C5: when a tracked writable copy is saved, [encryptContent] is called
    with the buffer's text and the source path, and when it succeeds the
    ciphertext is written to the source path: that write is the only one
    the save makes, so the file at the copy's own path is as it was. A
    save, whatever its outcome, keeps the mapping, unlinks nothing and
    removes no file; the copy is unlinked by [onDocumentClosed]. *)
Theorem onDocumentSaved_encrypts_to_source env doc st :
  (forall originalPath encrypted,
     tempToOriginal st !! fsPath (uri doc) = Some originalPath ->
     originalPath <> "" ->
     encryptContent env (getText doc) originalPath = Resolved encrypted ->
     writeFails env originalPath = false ->
     effects (onDocumentSaved env doc st)
     = effects st ++ [EncryptContent (getText doc) originalPath;
                      WriteFile originalPath encrypted;
                      ShowInformationMessage
                        ("Encrypted and saved to " +:+ basename originalPath)]
     /\ disk (onDocumentSaved env doc st)
        = <[ originalPath := encrypted ]> (disk st)
     /\ (fsPath (uri doc) <> originalPath ->
         disk (onDocumentSaved env doc st) !! fsPath (uri doc)
         = disk st !! fsPath (uri doc)))
  /\ tempToOriginal (onDocumentSaved env doc st) = tempToOriginal st
  /\ (forall p, Unlink p ∈ effects (onDocumentSaved env doc st) ->
               Unlink p ∈ effects st)
  /\ (forall p, is_Some (disk st !! p) ->
               is_Some (disk (onDocumentSaved env doc st) !! p))
  /\ (is_Some (tempToOriginal st !! fsPath (uri doc)) ->
      effects (onDocumentClosed env doc st)
      = effects st ++ [Unlink (fsPath (uri doc))]).
Proof.
  split; [|split; [|split; [|split]]];
    try apply onDocumentSaved_keeps_files.
  - intros orig enc Hl Hne He Hw. unfold onDocumentSaved.
    rewrite Hl. case_bool_decide; [done|]. rewrite He, Hw. simpl.
    rewrite <- app_assoc. split; [done|]. split; [done|].
    intros Hd. by rewrite lookup_insert_ne.
  - intros Hs. unfold onDocumentClosed. by rewrite bool_decide_eq_true_2.
Qed.

Lemma onDocumentSaved_encrypts_to_source_witness :
  let st := DecryptedViewService.temp Scenario.editWorld in
  effects (onDocumentSaved Scenario.tmpEnv Scenario.editDoc st)
  = effects st ++ [EncryptContent "password: hunter3" "/w/secrets.yaml";
                   WriteFile "/w/secrets.yaml" "password: ENC[AES256_GCM]";
                   ShowInformationMessage
                     ("Encrypted and saved to " +:+ basename "/w/secrets.yaml")]
  /\ disk (onDocumentSaved Scenario.tmpEnv Scenario.editDoc st)
     = <[ "/w/secrets.yaml" := "password: ENC[AES256_GCM]" ]> (disk st)
  /\ (fsPath (uri Scenario.editDoc) <> "/w/secrets.yaml" ->
      disk (onDocumentSaved Scenario.tmpEnv Scenario.editDoc st)
        !! fsPath (uri Scenario.editDoc)
      = disk st !! fsPath (uri Scenario.editDoc)).
Proof.
  cbv zeta.
  apply (proj1 (onDocumentSaved_encrypts_to_source Scenario.tmpEnv
                  Scenario.editDoc
                  (DecryptedViewService.temp Scenario.editWorld))
           "/w/secrets.yaml" "password: ENC[AES256_GCM]").
  - reflexivity.
  - discriminate.
  - reflexivity.
  - reflexivity.
Defined.

(** C6: a second close notification for the same path finds no entry and
    changes nothing; after the first one the path is untracked; and the two
    notifications together unlink the path at most once. *)
Theorem onDocumentClosed_idempotent env doc st :
  let p := fsPath (uri doc) in
  let st1 := onDocumentClosed env doc st in
  let st2 := onDocumentClosed env doc st1 in
  tempToOriginal st1 !! p = None
  /\ st2 = st1
  /\ (effects st2 = effects st \/ effects st2 = effects st ++ [Unlink p]).
Proof.
  cbv zeta.
  assert (tempToOriginal (onDocumentClosed env doc st) !! fsPath (uri doc)
          = None) as Hgone.
  { unfold onDocumentClosed. case_bool_decide as Hs; simpl.
    - apply lookup_delete_eq.
    - by apply eq_None_not_Some. }
  assert (onDocumentClosed env doc (onDocumentClosed env doc st)
          = onDocumentClosed env doc st) as Hsame.
  { unfold onDocumentClosed at 1.
    rewrite bool_decide_eq_false_2; [done|].
    rewrite Hgone. by intros [? ?]. }
  split; [done|]. split; [done|]. rewrite Hsame.
  unfold onDocumentClosed. case_bool_decide; simpl; auto.
Qed.

End TempFileHandlerProps.

(** ** Names of temp files *)
Module NodePathProps.
Import NodePath NodePathSpec.

Lemma chars_str l : chars (str l) = l.
Proof. apply String.list_ascii_of_string_of_list_ascii. Qed.

Lemma str_chars s : str (chars s) = s.
Proof. apply String.string_of_list_ascii_of_string. Qed.

Lemma str_inj l1 l2 : str l1 = str l2 -> l1 = l2.
Proof. intros H. by rewrite <- (chars_str l1), <- (chars_str l2), H. Qed.

Lemma str_app l1 l2 : str (l1 ++ l2) = str l1 +:+ str l2.
Proof.
  induction l1 as [|c l1 IH]; simpl; [done|].
  unfold str in *. simpl. by rewrite IH.
Qed.

Lemma isDot_true c : isDot c = true -> c = "."%char.
Proof. apply Ascii.eqb_eq. Qed.

Lemma splitDot_Some l after before :
  splitDot l = Some (after, before) -> l = after ++ "."%char :: before.
Proof.
  revert after. induction l as [|c l IH]; intros after; simpl; [done|].
  destruct (isDot c) eqn:Hc.
  - intros [= <- <-]. by rewrite (isDot_true c Hc).
  - destruct (splitDot l) as [[a b]|]; [|done].
    intros [= <- <-]. simpl. f_equal. by apply IH.
Qed.

(** The extension is empty, or the segment has a dot with something before
    it and the extension runs from that dot. *)
Lemma extChars_cases r :
  extChars r = []
  \/ exists after before,
       r = after ++ "."%char :: before /\ before <> []
       /\ extChars r = "."%char :: reverse after.
Proof.
  unfold extChars.
  destruct (splitDot r) as [[after before]|] eqn:Hs; [|by left].
  apply splitDot_Some in Hs.
  destruct after as [|a after], before as [|c before]; try by left.
  - destruct before as [|c' before].
    + destruct (isDot c); [by left|].
      right. by exists [], [c].
    + right. by exists [], (c :: c' :: before).
  - right. by exists (a :: after), (c :: before).
Qed.

Lemma length_dropWhile f l : length (dropWhile f l) <= length l.
Proof.
  induction l as [|c l IH]; simpl; [done|].
  destruct (f c); simpl; lia.
Qed.

Lemma length_takeUntil f l : length (takeUntil f l) <= length l.
Proof.
  induction l as [|c l IH]; simpl; [done|].
  destruct (f c); simpl; lia.
Qed.

Lemma length_revSegment p : length (revSegment p) <= length (chars p).
Proof.
  unfold revSegment.
  etrans; [apply length_takeUntil|].
  etrans; [apply length_dropWhile|].
  by rewrite length_reverse.
Qed.

Lemma stemChars_ext r : stemChars r ++ extChars r = reverse r.
Proof.
  unfold stemChars.
  destruct (extChars_cases r) as [-> | (after & before & Hr & Hne & ->)].
  - simpl. rewrite Nat.sub_0_r, app_nil_r.
    apply take_ge. by rewrite length_reverse.
  - rewrite Hr at 1 2. rewrite reverse_app, reverse_cons.
    rewrite !length_app. simpl. rewrite length_reverse, <- app_assoc. simpl.
    replace (length after + S (length before) - S (length after))
      with (length (reverse before)) by (rewrite length_reverse; lia).
    rewrite take_app_length.
    subst r. rewrite reverse_app, reverse_cons, <- app_assoc. done.
Qed.

Lemma basenameExt_extname p :
  basenameExt p (extname p) = str (stemChars (revSegment p)).
Proof.
  unfold basenameExt, extname. rewrite chars_str.
  set (r := revSegment p).
  pose proof (length_revSegment p) as Hlen. fold r in Hlen.
  pose proof (stemChars_ext r) as Hse.
  destruct (extChars_cases r) as [He | (after & before & Hr & Hne & He)].
  - rewrite He in *. simpl. unfold basename. fold r.
    unfold stemChars in *. rewrite He in *. simpl in *.
    rewrite app_nil_r in Hse. by rewrite Hse.
  - assert (length (extChars r) < length r) as Hlt.
    { rewrite He, Hr. rewrite length_app. simpl. rewrite length_reverse.
      destruct before; [done|simpl; lia]. }
    rewrite bool_decide_eq_false_2 by (rewrite He; done). simpl.
    replace (length (chars p) <? length (extChars r)) with false
      by (symmetry; apply Nat.ltb_ge; lia).
    rewrite bool_decide_eq_false_2
      by (intros Heq; rewrite Heq in Hlt; lia).
    assert (drop (length (reverse r) - length (extChars r)) (reverse r)
            = extChars r) as Hdrop.
    { rewrite <- Hse at 2.
      replace (length (reverse r) - length (extChars r))
        with (length (stemChars r)).
      - by rewrite drop_app_length.
      - unfold stemChars. rewrite length_take, !length_reverse. lia. }
    rewrite bool_decide_eq_true_2 by done.
    rewrite bool_decide_eq_false_2; simpl.
    + unfold stemChars. by rewrite length_reverse.
    + intros Heq. apply (f_equal length) in Heq.
      rewrite length_reverse in Heq. lia.
Qed.

Lemma stem_ext p : basenameExt p (extname p) +:+ extname p = basename p.
Proof.
  rewrite basenameExt_extname. unfold extname, basename.
  by rewrite <- str_app, stemChars_ext.
Qed.

Lemma basename_revSegment p1 p2 :
  basename p1 = basename p2 -> revSegment p1 = revSegment p2.
Proof.
  unfold basename. intros H%str_inj.
  by apply (inj reverse).
Qed.

End NodePathProps.

Module TempFileNameProps.
Import NodePath TempFileHandler NodePathSpec NodePathProps.

Lemma tempFileName_basename p1 p2 :
  basename p1 = basename p2 -> tempFileName p1 = tempFileName p2.
Proof.
  intros H%basename_revSegment. unfold tempFileName.
  rewrite !basenameExt_extname. unfold extname. by rewrite H.
Qed.

Lemma tempPathOf_basename env p1 p2 :
  basename p1 = basename p2 -> tempPathOf env p1 = tempPathOf env p2.
Proof.
  intros H. unfold tempPathOf. by rewrite (tempFileName_basename p1 p2 H).
Qed.

(** The ephemeral path is the temp directory's entry of the source's base
    name with the marker [.sops-edit] put before the extension; it is a
    function of the base name alone. *)
Lemma tempPath_from_basename env :
  (forall p,
     tempPathOf env p = join (tmpdir env) (tempFileName p)
     /\ exists stem,
          tempFileName p = stem +:+ ".sops-edit" +:+ extname p
          /\ stem +:+ extname p = basename p)
  /\ (forall p1 p2,
        basename p1 = basename p2 -> tempPathOf env p1 = tempPathOf env p2).
Proof.
  split.
  - intros p. split; [done|].
    exists (basenameExt p (extname p)). split; [done|]. apply stem_ext.
  - apply tempPathOf_basename.
Qed.

(** What the shared path costs: a second [createTempFile] for a source of
    the same base name takes over the first one's file and mapping. *)
Lemma createTempFile_takes_over env u1 u2 c1 c2 st :
  basename (fsPath u1) = basename (fsPath u2) ->
  writeFails env (tempPathOf env (fsPath u2)) = false ->
  let st1 := fst (createTempFile env u1 c1 st) in
  let st2 := fst (createTempFile env u2 c2 st1) in
  tempToOriginal st2 !! tempPathOf env (fsPath u1) = Some (fsPath u2)
  /\ disk st2 !! tempPathOf env (fsPath u1) = Some c2.
Proof.
  intros Hb Hw. cbv zeta.
  rewrite (tempPathOf_basename env _ _ Hb).
  generalize (createTempFile env u1 c1 st).1. intros st1.
  unfold createTempFile. rewrite Hw.
  cbn [fst tempToOriginal disk]. split; apply lookup_insert_eq.
Qed.

Lemma createTempFile_takes_over_witness :
  let st0 := {| tempToOriginal := ∅; disk := ∅; effects := [] |} in
  let st1 := (createTempFile Scenario.tmpEnv (Uri_file "/a/secrets.yaml")
                "password: one" st0).1 in
  let st2 := (createTempFile Scenario.tmpEnv (Uri_file "/b/secrets.yaml")
                "password: two" st1).1 in
  tempToOriginal st2
    !! tempPathOf Scenario.tmpEnv (fsPath (Uri_file "/a/secrets.yaml"))
  = Some (fsPath (Uri_file "/b/secrets.yaml"))
  /\ disk st2
       !! tempPathOf Scenario.tmpEnv (fsPath (Uri_file "/a/secrets.yaml"))
     = Some "password: two".
Proof.
  apply (createTempFile_takes_over Scenario.tmpEnv
           (Uri_file "/a/secrets.yaml") (Uri_file "/b/secrets.yaml")
           "password: one" "password: two"
           {| tempToOriginal := ∅; disk := ∅; effects := [] |});
    reflexivity.
Defined.

(** C3, the code at the failing input: [/a/secrets.yaml] and
    [/b/secrets.yaml] are opened for editing one after the other. The name
    has no uniqueness suffix, so both get [/tmp/secrets.sops-edit.yaml]:
    the second open overwrites the first one's file and takes over its
    entry in [tempToOriginal]. *)
Theorem same_basename_sources_share_temp_file :
  let u1 := Uri_file "/a/secrets.yaml" in
  let u2 := Uri_file "/b/secrets.yaml" in
  let st0 := {| tempToOriginal := ∅; disk := ∅; effects := [] |} in
  let st1 := (createTempFile Scenario.tmpEnv u1 "password: one" st0).1 in
  let st2 := (createTempFile Scenario.tmpEnv u2 "password: two" st1).1 in
  fsPath u1 <> fsPath u2
  /\ tempPathOf Scenario.tmpEnv (fsPath u1) = "/tmp/secrets.sops-edit.yaml"
  /\ tempPathOf Scenario.tmpEnv (fsPath u2) = "/tmp/secrets.sops-edit.yaml"
  /\ tempToOriginal st1 !! "/tmp/secrets.sops-edit.yaml"
     = Some "/a/secrets.yaml"
  /\ tempToOriginal st2 !! "/tmp/secrets.sops-edit.yaml"
     = Some "/b/secrets.yaml"
  /\ disk st2 !! "/tmp/secrets.sops-edit.yaml" = Some "password: two".
Proof. cbv zeta. split; [done|]. repeat split; reflexivity. Qed.

End TempFileNameProps.

(** ** The SOPS runner *)
Module SopsRunnerProps.
Import NodePath SopsRunner SopsRunnerSpec.

(** *** The scratch file of [encryptContent] *)

Lemma cleanup_other env p fs q : q <> p -> cleanup env p fs !! q = fs !! q.
Proof.
  intros Hq. unfold cleanup, unlinkSync.
  destruct (existsSync p fs); simpl; [|done].
  destruct (unlinkFails env p); [done|]. by apply lookup_delete_ne.
Qed.

Lemma cleanup_removes env p fs :
  unlinkFails env p = false -> cleanup env p fs !! p = None.
Proof.
  intros Hu. unfold cleanup, unlinkSync. rewrite Hu.
  destruct (existsSync p fs) eqn:He; simpl.
  - apply lookup_delete_eq.
  - unfold existsSync in He. apply bool_decide_eq_false in He.
    by apply eq_None_not_Some.
Qed.

Lemma cleanup_refused env p fs :
  unlinkFails env p = true -> cleanup env p fs = fs.
Proof.
  intros Hu. unfold cleanup, unlinkSync. rewrite Hu.
  by destruct (existsSync p fs).
Qed.



(** *** Settling *)

Lemma spawn_consistent spawned stdin : consistent (spawn spawned stdin).
Proof.
  split; simpl; [|done]. split; [done|]. by intros [? ?].
Qed.

Lemma killProcess_fields r :
  isSettled (killProcess r) = isSettled r
  /\ settled (killProcess r) = settled r
  /\ timer (killProcess r) = timer r.
Proof. unfold killProcess. by destruct (negb (killed (proc r))). Qed.

(** A run that has just been settled is consistent. *)
Ltac just_settled := split; [split; eauto | done].

Lemma step_consistent cmd timeout r ev :
  consistent r -> consistent (step cmd timeout r ev).
Proof.
  intros [Hs Ht]. unfold consistent.
  destruct ev; cbn -[killProcess].
  - done.
  - done.
  - destruct (isSettled r) eqn:Hi; cbn.
    + by rewrite Hi.
    + case_bool_decide; cbn; just_settled.
  - destruct (isSettled r) eqn:Hi; cbn -[killProcess].
    + by rewrite Hi.
    + destruct (String.eqb errCode "ENOENT"); cbn -[killProcess];
        just_settled.
  - destruct (timer r) eqn:Htm; [|split; auto]. cbn -[killProcess].
    destruct (isSettled r) eqn:Hi; cbn -[killProcess].
    + by rewrite Hi.
    + just_settled.
  - destruct (graceTimer r); [|done].
    destruct (negb (killed (proc r))); done.
Qed.

Lemma run_consistent cmd timeout evs r :
  consistent r -> consistent (foldl (step cmd timeout) r evs).
Proof.
  revert r. induction evs as [|ev evs IH]; intros r Hr; simpl; [done|].
  apply IH. by apply step_consistent.
Qed.

(** Once settled, a promise keeps its outcome. *)
Lemma step_settled_stable cmd timeout r ev o :
  consistent r -> settled r = Some o ->
  settled (step cmd timeout r ev) = Some o.
Proof.
  intros [Hs Ht] Ho.
  assert (isSettled r = true) as Hi by (apply Hs; eauto).
  destruct ev; simpl; try done.
  - by rewrite Hi.
  - by rewrite Hi.
  - destruct (timer r); [|done]. simpl. by rewrite Hi.
  - destruct (graceTimer r); [|done].
    by destruct (negb (killed (proc r))).
Qed.

Lemma run_settled_stable cmd timeout evs r o :
  consistent r -> settled r = Some o ->
  settled (foldl (step cmd timeout) r evs) = Some o.
Proof.
  revert r. induction evs as [|ev evs IH]; intros r Hr Ho; simpl; [done|].
  apply IH; [by apply step_consistent|by apply step_settled_stable].
Qed.

Lemma run_data_pending cmd timeout evs r :
  forallb isData evs = true ->
  let r' := foldl (step cmd timeout) r evs in
  isSettled r' = isSettled r /\ timer r' = timer r /\ proc r' = proc r
  /\ graceTimer r' = graceTimer r.
Proof.
  revert r. induction evs as [|ev evs IH]; intros r Hd; simpl; [done|].
  simpl in Hd. apply andb_true_iff in Hd as [Hev Hd].
  destruct (IH (step cmd timeout r ev) Hd) as (H1 & H2 & H3 & H4).
  cbv zeta in *. rewrite H1, H2, H3, H4.
  by destruct ev.
Qed.

(** Signals are only ever added. *)
Lemma kill_signals sig p :
  exists more, signalsSent (kill sig p) = signalsSent p ++ more.
Proof.
  unfold kill. destruct (alive p); simpl; [by eauto|].
  exists []. by rewrite app_nil_r.
Qed.

Lemma killProcess_signals r :
  exists more,
    signalsSent (proc (killProcess r)) = signalsSent (proc r) ++ more.
Proof.
  unfold killProcess. destruct (negb (killed (proc r))); simpl.
  - apply kill_signals.
  - exists []. by rewrite app_nil_r.
Qed.

Lemma step_signals cmd timeout r ev :
  exists more,
    signalsSent (proc (step cmd timeout r ev))
    = signalsSent (proc r) ++ more.
Proof.
  assert (exists more : list Signal,
            signalsSent (proc r) = signalsSent (proc r) ++ more) as Hrefl
    by (exists []; by rewrite app_nil_r).
  destruct ev; cbn -[killProcess]; try done.
  - destruct (isSettled r); cbn; [done|]. by case_bool_decide.
  - destruct (isSettled r); cbn -[killProcess]; [done|].
    destruct (String.eqb errCode "ENOENT"); cbn -[killProcess];
      apply (killProcess_signals (clearTimer r)).
  - destruct (timer r); [|done]. cbn -[killProcess].
    destruct (isSettled r); cbn -[killProcess]; [done|].
    apply (killProcess_signals (clearTimer r)).
  - destruct (graceTimer r); [|done].
    destruct (negb (killed (proc r))); [|done]. cbn. apply kill_signals.
Qed.

Lemma run_signals cmd timeout evs r :
  exists more,
    signalsSent (proc (foldl (step cmd timeout) r evs))
    = signalsSent (proc r) ++ more.
Proof.
  revert r. induction evs as [|ev evs IH]; intros r; simpl.
  - exists []. by rewrite app_nil_r.
  - destruct (IH (step cmd timeout r ev)) as [m1 H1].
    destruct (step_signals cmd timeout r ev) as [m2 H2].
    exists (m2 ++ m1). by rewrite H1, H2, app_assoc.
Qed.

(** A run whose process neither closes nor fails before the timer fires
    rejects with [Timeout], and a process that exists is sent [SIGTERM]. *)
Lemma runCommand_timeout env cmd args cwd stdin timeout pre post :
  events env cmd args = pre ++ TimeoutElapsed :: post ->
  forallb isData pre = true ->
  let r := runCommand env cmd args cwd stdin timeout in
  settled r = Some (Rejected (SopsExn (timeoutError timeout)))
  /\ (spawned env cmd args = true ->
      exists rest, signalsSent (proc r) = SIGTERM :: rest).
Proof.
  intros Hev Hpre. cbv zeta. unfold runCommand. rewrite Hev, foldl_app.
  pose (r0 := spawn (spawned env cmd args) stdin).
  destruct (run_data_pending cmd timeout pre r0 Hpre) as (H1 & H2 & H3 & H4).
  cbv zeta in *. fold r0.
  assert (consistent (foldl (step cmd timeout) r0 pre)) as Hc1
    by (apply run_consistent, spawn_consistent).
  generalize dependent (foldl (step cmd timeout) r0 pre). intros r1 **.
  change (foldl (step cmd timeout) r1 (TimeoutElapsed :: post))
    with (foldl (step cmd timeout) (step cmd timeout r1 TimeoutElapsed) post).
  assert (settled (step cmd timeout r1 TimeoutElapsed)
          = Some (Rejected (SopsExn (timeoutError timeout)))
          /\ (spawned env cmd args = true ->
              signalsSent (proc (step cmd timeout r1 TimeoutElapsed))
              = [SIGTERM]))
    as [Hs2 Hp2].
  { unfold step. rewrite H2. cbn -[killProcess]. rewrite H1.
    cbn -[killProcess]. split; [done|]. intros Hsp.
    unfold killProcess. cbn. rewrite H3. cbn. unfold kill. cbn.
    by rewrite Hsp. }
  assert (consistent (step cmd timeout r1 TimeoutElapsed)) as Hc2
    by (by apply step_consistent).
  split; [by apply run_settled_stable|].
  intros Hsp.
  destruct (run_signals cmd timeout post
              (step cmd timeout r1 TimeoutElapsed)) as [more Hm].
  rewrite Hm, (Hp2 Hsp). eauto.
Qed.

Lemma runCommand_timeout_witness :
  let r := runCommand Scenario.hungEnv "sops" ["--decrypt"; "/w/secrets.yaml"]
             "/w" "" 30000 in
  settled r = Some (Rejected (SopsExn (timeoutError 30000)))
  /\ (SopsRunner.spawned Scenario.hungEnv "sops"
        ["--decrypt"; "/w/secrets.yaml"] = true ->
      exists rest, signalsSent (proc r) = SIGTERM :: rest).
Proof.
  apply (runCommand_timeout Scenario.hungEnv "sops"
           ["--decrypt"; "/w/secrets.yaml"] "/w" "" 30000 [] [GraceElapsed]);
    reflexivity.
Defined.

(** *** The escalation to SIGKILL *)

Lemma spawn_noForcedKill spawned stdin : noForcedKill (spawn spawned stdin).
Proof. split; simpl; [apply not_elem_of_nil|done]. Qed.

Lemma killProcess_noForcedKill r :
  noForcedKill r -> noForcedKill (killProcess r).
Proof.
  intros [Hk Hg]. unfold killProcess.
  destruct (killed (proc r)) eqn:Hkd; simpl;
    [split; [done|by rewrite Hkd]|].
  unfold kill. destruct (alive (proc r)) eqn:Ha; split; simpl.
  - rewrite elem_of_app, list_elem_of_singleton. by intros [?|?].
  - done.
  - done.
  - done.
Qed.

Lemma clearTimer_noForcedKill r : noForcedKill r -> noForcedKill (clearTimer r).
Proof. done. Qed.

Lemma step_noForcedKill cmd timeout r ev :
  noForcedKill r -> noForcedKill (step cmd timeout r ev).
Proof.
  intros Hr. pose proof Hr as [Hk Hg].
  pose proof (killProcess_noForcedKill (clearTimer r)
                (clearTimer_noForcedKill r Hr)) as Hkp.
  destruct ev; cbn -[killProcess]; try done.
  - destruct (isSettled r); cbn; [done|]. by case_bool_decide.
  - destruct (isSettled r); cbn -[killProcess]; [done|].
    by destruct (String.eqb errCode "ENOENT").
  - destruct (timer r); [|done]. cbn -[killProcess].
    by destruct (isSettled r).
  - destruct (graceTimer r) eqn:Hgt; [|done].
    destruct (killed (proc r)) eqn:Hkd; [done|]. cbn.
    unfold kill. rewrite (Hg eq_refl eq_refl). split; cbn; [done|].
    rewrite Hgt, Hkd. auto.
Qed.

(** Whatever the process does and whenever the timers fire, [runCommand]
    never delivers [SIGKILL]: the guard [!proc.killed] of the grace timer
    is true only for a process that no longer exists. *)
Lemma runCommand_never_delivers_SIGKILL env cmd args cwd stdin timeout :
  SIGKILL ∉ signalsSent (proc (runCommand env cmd args cwd stdin timeout)).
Proof.
  unfold runCommand.
  assert (forall evs r, noForcedKill r ->
                        noForcedKill (foldl (step cmd timeout) r evs)) as H.
  { induction evs as [|ev evs IH]; intros r Hr; simpl; [done|].
    apply IH. by apply step_noForcedKill. }
  apply H, spawn_noForcedKill.
Qed.

Lemma step_settles cmd timeout r ev :
  consistent r -> settles ev = true ->
  isSettled (step cmd timeout r ev) = true.
Proof.
  intros [Hs Ht] Hev. destruct ev; try done; cbn -[killProcess].
  - destruct (isSettled r) eqn:Hi; cbn; [done|]. by case_bool_decide.
  - destruct (isSettled r) eqn:Hi; cbn -[killProcess]; [done|].
    by destruct (String.eqb errCode "ENOENT").
  - destruct (timer r) eqn:Htm; [|auto]. cbn -[killProcess].
    by destruct (isSettled r) eqn:Hi.
Qed.

Lemma runCommand_settles env cmd args cwd stdin timeout :
  existsb settles (events env cmd args) = true ->
  is_Some (settled (runCommand env cmd args cwd stdin timeout)).
Proof.
  unfold runCommand. intros Hex.
  assert (forall evs r, consistent r ->
            (isSettled r = true \/ existsb settles evs = true) ->
            isSettled (foldl (step cmd timeout) r evs) = true) as H.
  { induction evs as [|ev evs IH]; intros r Hr Hor; simpl.
    - destruct Hor as [?|?]; done.
    - apply IH; [by apply step_consistent|].
      destruct Hor as [Hi|Hx].
      + left. destruct (proj1 (proj1 Hr) Hi) as [o Ho].
        apply (proj2 (proj1 (step_consistent cmd timeout r ev Hr))).
        rewrite (step_settled_stable cmd timeout r ev o Hr Ho). eauto.
      + simpl in Hx. apply orb_true_iff in Hx as [Hx|Hx]; [|by right].
        left. by apply step_settles. }
  pose proof (run_consistent cmd timeout (events env cmd args) _
                (spawn_consistent (spawned env cmd args) stdin)) as [Hs _].
  apply Hs, H; [apply spawn_consistent|by right].
Qed.

Lemma runCommand_settles_witness :
  is_Some (settled (runCommand Scenario.okEnv "sops"
                      ["--decrypt"; "/w/secrets.yaml"] "/w" "" 30000)).
Proof.
  apply (runCommand_settles Scenario.okEnv "sops"
           ["--decrypt"; "/w/secrets.yaml"] "/w" "" 30000).
  reflexivity.
Defined.

(** C2, the code at the failing input: SOPS hangs past the timeout and
    does not exit on [SIGTERM]. Each of the four executor calls rejects
    with [Timeout] and [SIGTERM] is sent; but when the grace period is
    over [killed] is already true, so no [SIGKILL] follows and the process
    is still there. *)
Theorem timeout_sends_SIGTERM_but_no_SIGKILL :
  let p := "/w/secrets.yaml" in
  let r := runSops Scenario.hungEnv (decryptArgs p) p in
  let timedOut := SopsExn (timeoutError 30000) in
  decrypt Scenario.hungEnv p = Some (Rejected timedOut)
  /\ updateKeys Scenario.hungEnv p = Some (Rejected timedOut)
  /\ rotate Scenario.hungEnv p = Some (Rejected timedOut)
  /\ (encryptContent Scenario.hungEnv 1730505600000 "k3j9x2"
        "password: hunter2" p Scenario.secretsDisk).1
     = Some (Rejected timedOut)
  /\ signalsSent (proc r) = [SIGTERM]
  /\ killed (proc r) = true
  /\ alive (proc r) = true.
Proof. cbv zeta. repeat split; reflexivity. Qed.


End SopsRunnerProps.

(** ** The guard flag and the decrypted-view service *)
Module DecryptedViewServiceProps.
Import NodePath EditorGroupTracker DecryptedViewService
  DecryptedViewServiceSpec.

Lemma quiet_pure {A} (m : M A) :
  (forall w, flag (m w).2 = flag w /\ observed (m w).2 = observed w) ->
  Quiet m.
Proof.
  intros H w. destruct (H w) as [Hf Ho]. split; [done|].
  exists []. by rewrite Ho, app_nil_r.
Qed.

Lemma quiet_ret {A} (a : A) : Quiet (mret a).
Proof. by apply quiet_pure. Qed.

Lemma quiet_throw {A} e : Quiet (throw e : M A).
Proof. by apply quiet_pure. Qed.

Lemma quiet_gets {A} (f : World -> A) : Quiet (gets f).
Proof. by apply quiet_pure. Qed.

Lemma quiet_modify f :
  (forall w, flag (f w) = flag w /\ observed (f w) = observed w) ->
  Quiet (modify f).
Proof. intros H. by apply quiet_pure. Qed.

Lemma quiet_record c w :
  flag (record c w) = flag w
  /\ exists l, observed (record c w) = observed w ++ l
               /\ Forall (fun o => flagAtCall o = flag w) l.
Proof.
  split; [done|]. eexists. split; [done|].
  by apply Forall_singleton.
Qed.

Lemma quiet_observe env c : Quiet (observe env c).
Proof.
  intros w. unfold observe.
  destruct (throws env (length (observed w)) c); apply quiet_record.
Qed.

Lemma quiet_notify c : Quiet (notify c).
Proof. intros w. apply quiet_record. Qed.

Lemma quiet_ask env c : Quiet (ask env c).
Proof. intros w. apply quiet_record. Qed.

Lemma quiet_bind {A B} (m : M A) (k : A -> M B) :
  Quiet m -> (forall a, Quiet (k a)) -> Quiet (m ≫= k).
Proof.
  intros Hm Hk w. unfold mbind, M_bind, bind.
  destruct (Hm w) as (Hf1 & l1 & Ho1 & Hl1).
  destruct (m w) as [[e|a] w1]; simpl in *.
  - split; [done|]. by exists l1.
  - destruct (Hk a w1) as (Hf2 & l2 & Ho2 & Hl2).
    split; [by rewrite Hf2|].
    exists (l1 ++ l2). rewrite Ho2, Ho1, app_assoc. split; [done|].
    apply Forall_app. split; [done|]. by rewrite <- Hf1.
Qed.

Lemma quiet_tryCatch {A} (m : M A) (h : Exn -> M A) :
  Quiet m -> (forall e, Quiet (h e)) -> Quiet (tryCatch m h).
Proof.
  intros Hm Hh w. unfold tryCatch.
  destruct (Hm w) as (Hf1 & l1 & Ho1 & Hl1).
  destruct (m w) as [[e|a] w1]; simpl in *.
  - destruct (Hh e w1) as (Hf2 & l2 & Ho2 & Hl2).
    split; [by rewrite Hf2|].
    exists (l1 ++ l2). rewrite Ho2, Ho1, app_assoc. split; [done|].
    apply Forall_app. split; [done|]. by rewrite <- Hf1.
  - split; [done|]. by exists l1.
Qed.

(** Solves [Quiet] goals over the combinators by following the program. *)
Ltac quiet :=
  repeat first
    [ apply quiet_ret | apply quiet_throw | apply quiet_gets
    | apply quiet_observe | apply quiet_notify | apply quiet_ask
    | apply quiet_bind; [|intros ?]
    | apply quiet_tryCatch; [|intros ?]
    | apply quiet_modify; by intros ?
    | progress cbv beta
    | match goal with
      | |- Quiet (match ?x with _ => _ end) => destruct x
      | |- Quiet (if ?b then _ else _) => destruct b
      end ].

Lemma quiet_openTextDocument env u : Quiet (openTextDocument env u).
Proof. unfold openTextDocument. quiet. Qed.

Lemma quiet_showTextDocument env d column keepFocus :
  Quiet (showTextDocument env d column keepFocus).
Proof. unfold showTextDocument. quiet. Qed.

Lemma quiet_setDocumentLanguage env d filePath :
  Quiet (setDocumentLanguage env d filePath).
Proof. unfold setDocumentLanguage. quiet. Qed.

Lemma quiet_closeSession env s : Quiet (closeSession env s).
Proof. unfold closeSession. quiet. Qed.

Lemma quiet_trackDocumentOpened env doc source column :
  Quiet (trackDocumentOpened env doc source column).
Proof.
  unfold trackDocumentOpened.
  apply quiet_bind; [apply quiet_gets|intros w].
  apply quiet_bind; [|intros _; by apply quiet_modify].
  destruct (getSession _ _); [apply quiet_closeSession|apply quiet_ret].
Qed.

Lemma quiet_trackOpenedDocument env d sourceUri shownEditor column :
  Quiet (trackOpenedDocument env d sourceUri shownEditor column).
Proof.
  unfold trackOpenedDocument.
  apply quiet_bind; [apply quiet_gets|intros w].
  apply quiet_bind; [apply quiet_trackDocumentOpened|intros _].
  apply quiet_ret.
Qed.

(** The statements inside the [try] of [openPreview] and of
    [openEditInPlace] do not touch the flag. *)
Lemma quiet_showAndTrack env target sourceUri options :
  Quiet (showAndTrack env target sourceUri options).
Proof.
  unfold showAndTrack.
  apply quiet_bind; [apply quiet_openTextDocument|intros d].
  apply quiet_bind; [apply quiet_showTextDocument|intros ed].
  apply quiet_bind; [apply quiet_setDocumentLanguage|intros _].
  apply quiet_bind; [apply quiet_trackOpenedDocument|intros _].
  apply quiet_ret.
Qed.

(** Every exit of a guarded block, normal or by a throw, leaves the flag
    false. *)
Lemma guarded_clears {A} (body : M A) w : flag (guarded body w).2 = false.
Proof.
  unfold guarded, mbind, M_bind, bind, modify, tryFinally. simpl.
  by destruct (body _).
Qed.

(** Inside a guarded block whose statements are quiet, every call is made
    with the flag true. *)
Lemma guarded_quiet {A} (body : M A) w :
  Quiet body ->
  exists l, observed (guarded body w).2 = observed w ++ l
            /\ Forall (fun o => flagAtCall o = true) l.
Proof.
  intros Hq. unfold guarded, mbind, M_bind, bind, modify, tryFinally. simpl.
  destruct (Hq (withTracker (setExtensionTriggeredOpen true) w))
    as (_ & l & Ho & Hl).
  destruct (body _) as [r w1]. simpl in *. by exists l.
Qed.

(** C4, the claim as stated fails: the command's block calls
    [openEditInPlace], whose own block clears the flag when it exits; the
    information message that follows, still inside the command's block, is
    shown with the flag false. *)
Lemma nested_block_runs_with_flag_false :
  map flagAtCall
    (observed (switchToEditInPlace Scenario.viewEnv Scenario.previewWorld).2)
  = [true; true; true; true; true; true; false]
  /\ last (observed (switchToEditInPlace Scenario.viewEnv
                       Scenario.previewWorld).2)
     = Some {| call := ShowInformationMessage
                 "Editing decrypted copy. Save to encrypt back to secrets.yaml";
               flagAtCall := false |}.
Proof. split; reflexivity. Qed.

(** *** [switchToFile] *)

(** C9: with an edit-in-place session whose buffer is dirty, [switchToFile]
    asks Save/Discard/Cancel, and on "Cancel" or a dismissed dialog it
    returns at once: the dialog is the only call made, and the tracker, the
    temp-file map, the disk, the open documents, the editors and the tabs
    are as they were. *)
Theorem switchToFile_cancel_is_noop env newSourceUri w tempDoc :
  getCurrentMode w = Some editInPlace ->
  getCurrentTempDocument w = Some tempDoc ->
  isDirty tempDoc = true ->
  picks env (length (observed w)) = Some "Cancel"
  \/ picks env (length (observed w)) = None ->
  switchToFile env newSourceUri w = (inr tt, record unsavedPrompt w)
  /\ tracker (record unsavedPrompt w) = tracker w
  /\ temp (record unsavedPrompt w) = temp w
  /\ textDocuments (record unsavedPrompt w) = textDocuments w
  /\ visibleTextEditors (record unsavedPrompt w) = visibleTextEditors w
  /\ activeTextEditor (record unsavedPrompt w) = activeTextEditor w
  /\ tabGroups (record unsavedPrompt w) = tabGroups w
  /\ observed (record unsavedPrompt w)
     = observed w ++ [{| call := unsavedPrompt; flagAtCall := flag w |}].
Proof.
  intros Hmode Hdoc Hdirty Hpick. split; [|by repeat split].
  unfold switchToFile, mbind, M_bind, bind, gets. simpl. rewrite Hmode.
  unfold resolveUnsaved. rewrite Hdoc, Hdirty.
  unfold mbind, M_bind, bind, ask. fold unsavedPrompt.
  destruct Hpick as [-> | ->]; reflexivity.
Qed.

Lemma switchToFile_cancel_is_noop_witness :
  switchToFile Scenario.viewEnv (Uri_file "/w/other.yaml") Scenario.editWorld
  = (inr tt, record unsavedPrompt Scenario.editWorld).
Proof.
  apply (switchToFile_cancel_is_noop Scenario.viewEnv
           (Uri_file "/w/other.yaml") Scenario.editWorld Scenario.editDoc);
    try reflexivity.
  left. reflexivity.
Defined.

(** *** A failing decrypt *)

(** When the decrypt call rejects -- with [Timeout] as with any other
    error -- [openEditInPlace] rejects with the same error before it
    creates a temp file or opens anything: only the decrypt call has been
    made, and the temp-file map, the disk and the tracker are unchanged. *)
Lemma openEditInPlace_decrypt_rejected env sourceUri options w e :
  decrypt env (fsPath sourceUri) = Rejected e ->
  openEditInPlace env sourceUri options w
  = (inl e, record (Decrypt (fsPath sourceUri)) w).
Proof.
  intros Hd. unfold openEditInPlace, awaitDecrypt, mbind, M_bind, bind, notify.
  by rewrite Hd.
Qed.

Lemma openEditInPlace_decrypt_rejected_witness :
  openEditInPlace Scenario.timedOutViewEnv Scenario.secretsUri
    {| preserveFocus := false; showInfoMessage := None |}
    Scenario.previewWorld
  = (inl (SopsExn (SopsRunner.timeoutError 30000)),
     record (Decrypt "/w/secrets.yaml") Scenario.previewWorld).
Proof.
  apply (openEditInPlace_decrypt_rejected Scenario.timedOutViewEnv
           Scenario.secretsUri
           {| preserveFocus := false; showInfoMessage := None |}
           Scenario.previewWorld).
  reflexivity.
Defined.

End DecryptedViewServiceProps.

(** ** The guard flag on the event loop *)
Module EventLoopProps.
Import NodePath EditorGroupTracker DecryptedViewService
  DecryptedViewServiceSpec DecryptedViewServiceProps EventLoop EventLoopSpec.

(** *** A call alone on the loop is the operation run from call to
    return *)

Lemma alone_now {A} (m : M A) w : alone (now m) w = m w.
Proof. unfold alone, now. cbn. by destruct (m w). Qed.

Lemma runAlone_deliver {A} (t : Task A) w :
  runAlone (deliver t) w = runAlone t w.
Proof.
  revert w. induction t as [r|next IH after]; intros w; [done|].
  cbn. apply IH.
Qed.

Lemma alone_await {A} (p : Async A) w : alone (await p) w = alone p w.
Proof. unfold alone, await. cbn. apply runAlone_deliver. Qed.

Lemma runAlone_andThen {A B} (t : Task A) (k : A -> Async B) w :
  runAlone (andThen t k w).1 (andThen t k w).2
  = match runAlone t w with
    | (inr a, w') => alone (k a) w'
    | (inl e, w') => (inl e, w')
    end.
Proof.
  revert w. induction t as [[e|a]|next IH after]; intros w; try done.
  cbn. apply IH.
Qed.

Lemma alone_bind {A B} (p : Async A) (k : A -> Async B) w :
  alone (p ≫= k) w
  = DecryptedViewService.bind (alone p) (fun a => alone (k a)) w.
Proof.
  unfold mbind, Async_bind, bind, DecryptedViewService.bind, alone at 1 2.
  rewrite runAlone_andThen. by destruct (runAlone _ _) as [[e|a] w'].
Qed.

Lemma runAlone_catching {A} (t : Task A) (h : Exn -> Async A) w :
  runAlone (catching t h w).1 (catching t h w).2
  = match runAlone t w with
    | (inr a, w') => (inr a, w')
    | (inl e, w') => alone (h e) w'
    end.
Proof.
  revert w. induction t as [[e|a]|next IH after]; intros w; try done.
  cbn. apply IH.
Qed.

Lemma alone_tryCatch {A} (p : Async A) (h : Exn -> Async A) w :
  alone (tryCatch p h) w
  = DecryptedViewService.tryCatch (alone p) (fun e => alone (h e)) w.
Proof.
  unfold tryCatch, DecryptedViewService.tryCatch, alone at 1 2.
  rewrite runAlone_catching. by destruct (runAlone _ _) as [[e|a] w'].
Qed.

Lemma runAlone_finishing {A} (t : Task A) fin w :
  runAlone (finishing t fin w).1 (finishing t fin w).2
  = ((runAlone t w).1, fin (runAlone t w).2).
Proof.
  revert w. induction t as [r|next IH after]; intros w; [done|].
  cbn. apply IH.
Qed.

Lemma alone_guarded {A} (body : Async A) w :
  alone (guarded body) w = DecryptedViewService.guarded (alone body) w.
Proof.
  unfold guarded, tryFinally, DecryptedViewService.guarded,
    DecryptedViewService.tryFinally, alone at 1.
  unfold mbind, M_bind, DecryptedViewService.bind, modify. cbn.
  rewrite runAlone_finishing. unfold alone.
  by destruct (runAlone _ _).
Qed.

(** Two operations that agree on every world: [bind] and [tryCatch] go
    through. *)
Lemma bind_ext {A B} (m m' : M A) (k k' : A -> M B) w :
  (forall w, m w = m' w) -> (forall a w, k a w = k' a w) ->
  DecryptedViewService.bind m k w = DecryptedViewService.bind m' k' w.
Proof.
  intros Hm Hk. unfold DecryptedViewService.bind. rewrite Hm.
  by destruct (m' w) as [[e|a] w'].
Qed.

Lemma tryCatch_ext {A} (m m' : M A) (h h' : Exn -> M A) w :
  (forall w, m w = m' w) -> (forall e w, h e w = h' e w) ->
  DecryptedViewService.tryCatch m h w = DecryptedViewService.tryCatch m' h' w.
Proof.
  intros Hm Hh. unfold DecryptedViewService.tryCatch. rewrite Hm.
  by destruct (m' w) as [[e|a] w'].
Qed.

Lemma guarded_ext {A} (m m' : M A) w :
  (forall w, m w = m' w) ->
  DecryptedViewService.guarded m w = DecryptedViewService.guarded m' w.
Proof.
  intros Hm. unfold DecryptedViewService.guarded, mbind, M_bind,
    DecryptedViewService.bind, modify, DecryptedViewService.tryFinally.
  cbn. by rewrite Hm.
Qed.

Lemma alone_setDocumentLanguage env d filePath w :
  alone (setDocumentLanguage env d filePath) w
  = DecryptedViewService.setDocumentLanguage env d filePath w.
Proof.
  unfold setDocumentLanguage, DecryptedViewService.setDocumentLanguage.
  rewrite alone_tryCatch. apply tryCatch_ext.
  - intros w'. by rewrite alone_await, alone_now.
  - intros _ w'. destruct (negb _).
    + by rewrite alone_await, alone_now.
    + apply alone_now.
Qed.

Lemma alone_showAndTrack env target sourceUri options w :
  alone (showAndTrack env target sourceUri options) w
  = DecryptedViewService.showAndTrack env target sourceUri options w.
Proof.
  unfold showAndTrack, DecryptedViewService.showAndTrack.
  rewrite alone_bind. apply bind_ext.
  { intros w'. by rewrite alone_await, alone_now. }
  intros d w1. rewrite alone_bind. apply bind_ext.
  { intros w'. by rewrite alone_await, alone_now. }
  intros shownEditor w2. rewrite alone_bind. apply bind_ext.
  { intros w'. rewrite alone_await. apply alone_setDocumentLanguage. }
  intros _ w3. rewrite alone_bind. apply bind_ext.
  { intros w'. apply alone_now. }
  intros _ w4. apply alone_now.
Qed.

(** Run alone, the async [openPreview] and [openEditInPlace] are the
    operations of the embedding that runs from call to return. *)
Lemma alone_openPreview env sourceUri options w :
  alone (openPreview env sourceUri options) w
  = DecryptedViewService.openPreview env sourceUri options w.
Proof.
  unfold openPreview, DecryptedViewService.openPreview.
  rewrite alone_guarded. apply guarded_ext.
  intros w'. apply alone_showAndTrack.
Qed.

Lemma alone_openEditInPlace env sourceUri options w :
  alone (openEditInPlace env sourceUri options) w
  = DecryptedViewService.openEditInPlace env sourceUri options w.
Proof.
  unfold openEditInPlace, DecryptedViewService.openEditInPlace.
  rewrite alone_bind. apply bind_ext.
  { intros w'. by rewrite alone_await, alone_now. }
  intros decrypted w1. rewrite alone_bind. apply bind_ext.
  { intros w'. by rewrite alone_await, alone_now. }
  intros tempUri w2. rewrite alone_bind. apply bind_ext.
  { intros w'. rewrite alone_guarded. apply guarded_ext.
    intros w''. apply alone_showAndTrack. }
  intros _ w3. apply alone_now.
Qed.

(** *** Statements that leave the flag alone *)

Lemma callsUnder_refl b w : callsUnder b w w.
Proof. exists []. by rewrite app_nil_r. Qed.

Lemma callsUnder_trans b w1 w2 w3 :
  callsUnder b w1 w2 -> callsUnder b w2 w3 -> callsUnder b w1 w3.
Proof.
  intros (l1 & H1 & F1) (l2 & H2 & F2). exists (l1 ++ l2).
  rewrite H2, H1, app_assoc. split; [done|]. by apply Forall_app.
Qed.

Lemma keepsFlag_refl w : keepsFlag w w.
Proof. split; [done|apply callsUnder_refl]. Qed.

Lemma keepsFlag_trans w1 w2 w3 :
  keepsFlag w1 w2 -> keepsFlag w2 w3 -> keepsFlag w1 w3.
Proof.
  intros [F1 C1] [F2 C2]. split; [by rewrite F2|].
  apply (callsUnder_trans _ _ w2); [done|]. by rewrite <- F1.
Qed.

Lemma quietly_now {A} (m : M A) : Quiet m -> quietly (now m).
Proof. intros Hq w. split; [|done]. apply (Hq w). Qed.

Lemma quiet_deliver {A} (t : Task A) : quiet t -> quiet (deliver t).
Proof.
  induction t as [r|next IH after]; cbn.
  - intros _ w. split; [apply keepsFlag_refl|done].
  - intros Hq w. destruct (Hq w) as [Hk Hn]. split; [done|]. by apply IH.
Qed.

Lemma quietly_await {A} (p : Async A) : quietly p -> quietly (await p).
Proof.
  intros Hp w. destruct (Hp w) as [Hk Hq]. split; [done|].
  by apply quiet_deliver.
Qed.

Lemma quiet_andThen {A B} (t : Task A) (k : A -> Async B) w :
  quiet t -> (forall a, quietly (k a)) ->
  keepsFlag w (andThen t k w).2 /\ quiet (andThen t k w).1.
Proof.
  intros Ht Hk. revert w Ht.
  induction t as [[e|a]|next IH after]; intros w Ht; cbn.
  - split; [apply keepsFlag_refl|done].
  - apply Hk.
  - split; [apply keepsFlag_refl|]. intros w'.
    destruct (Ht w') as [Hkeep Hn].
    destruct (IH w' (after w') Hn) as [Hkeep' Hq'].
    split; [|done]. by apply (keepsFlag_trans _ (after w')).
Qed.

Lemma quietly_bind {A B} (p : Async A) (k : A -> Async B) :
  quietly p -> (forall a, quietly (k a)) -> quietly (p ≫= k).
Proof.
  intros Hp Hk w. destruct (Hp w) as [Hkeep Hq].
  unfold mbind, Async_bind, bind.
  destruct (quiet_andThen (p w).1 k (p w).2 Hq Hk) as [Hkeep' Hq'].
  split; [|done]. by apply (keepsFlag_trans _ (p w).2).
Qed.

Lemma quiet_catching {A} (t : Task A) (h : Exn -> Async A) w :
  quiet t -> (forall e, quietly (h e)) ->
  keepsFlag w (catching t h w).2 /\ quiet (catching t h w).1.
Proof.
  intros Ht Hh. revert w Ht.
  induction t as [[e|a]|next IH after]; intros w Ht; cbn.
  - apply Hh.
  - split; [apply keepsFlag_refl|done].
  - split; [apply keepsFlag_refl|]. intros w'.
    destruct (Ht w') as [Hkeep Hn].
    destruct (IH w' (after w') Hn) as [Hkeep' Hq'].
    split; [|done]. by apply (keepsFlag_trans _ (after w')).
Qed.

Lemma quietly_tryCatch {A} (p : Async A) (h : Exn -> Async A) :
  quietly p -> (forall e, quietly (h e)) -> quietly (tryCatch p h).
Proof.
  intros Hp Hh w. destruct (Hp w) as [Hkeep Hq]. unfold tryCatch.
  destruct (quiet_catching (p w).1 h (p w).2 Hq Hh) as [Hkeep' Hq'].
  split; [|done]. by apply (keepsFlag_trans _ (p w).2).
Qed.

Lemma quietly_setDocumentLanguage env d filePath :
  quietly (setDocumentLanguage env d filePath).
Proof.
  unfold setDocumentLanguage. apply quietly_tryCatch.
  - apply quietly_await, quietly_now, quiet_observe.
  - intros _. destruct (negb _).
    + apply quietly_await, quietly_now, quiet_observe.
    + apply quietly_now, quiet_ret.
Qed.

(** The statements inside the [try] of [openPreview] and of
    [openEditInPlace] leave the flag alone. *)
Lemma quietly_showAndTrack env target sourceUri options :
  quietly (showAndTrack env target sourceUri options).
Proof.
  unfold showAndTrack.
  apply quietly_bind; [|intros d].
  { apply quietly_await, quietly_now, quiet_openTextDocument. }
  apply quietly_bind; [|intros shownEditor].
  { apply quietly_await, quietly_now, quiet_showTextDocument. }
  apply quietly_bind; [|intros _].
  { apply quietly_await, quietly_setDocumentLanguage. }
  apply quietly_bind; [|intros _].
  { apply quietly_now, quiet_trackOpenedDocument. }
  apply quietly_now, quiet_ret.
Qed.

(** *** The exit of a block *)

Lemma finishing_exits {A} (t : Task A) (v : bool) w :
  let r := finishing t (withTracker (setExtensionTriggeredOpen v)) w in
  (finished r.1 = true -> flag r.2 = v)
  /\ exits (fun w => flag w = v) r.1.
Proof.
  revert w. induction t as [r|next IH after]; intros w; cbn; [done|].
  split; [done|]. intros w'. apply IH.
Qed.

Lemma guarded_exits {A} (body : Async A) :
  exits (fun w => flag w = false) (suspend (guarded body)).
Proof. intros w. apply finishing_exits. Qed.

(** *** A block that no other exit interferes with *)

Lemma finishing_holdsFlag {A} (t : Task A) w :
  quiet t -> flag w = true ->
  let r := finishing t (withTracker (setExtensionTriggeredOpen false)) w in
  observed r.2 = observed w
  /\ (finished r.1 = false -> flag r.2 = true)
  /\ holdsFlag r.1.
Proof.
  revert w. induction t as [r|next IH after]; intros w Hq Hf; cbn; [done|].
  split; [done|]. split; [done|]. intros w' Hf'.
  destruct (Hq w') as [[Hflag Hcalls] Hn].
  destruct (IH w' (after w') Hn) as (Hobs & Hstill & Hholds);
    [by rewrite Hflag|].
  split; [|done].
  destruct Hcalls as (l & Hl & Hall). exists l. rewrite Hobs.
  split; [done|]. by rewrite Hf' in Hall.
Qed.

Lemma guarded_holdsFlag {A} (body : Async A) w :
  quietly body ->
  callsUnder true w (guarded body w).2
  /\ (finished (guarded body w).1 = false -> flag (guarded body w).2 = true)
  /\ holdsFlag (guarded body w).1.
Proof.
  intros Hq. unfold guarded, tryFinally.
  set (w1 := withTracker (setExtensionTriggeredOpen true) w).
  destruct (Hq w1) as [[Hflag Hcalls] Hquiet].
  destruct (finishing_holdsFlag (body w1).1 (body w1).2 Hquiet)
    as (Hobs & Hstill & Hholds); [by rewrite Hflag|].
  split; [|done].
  destruct Hcalls as (l & Hl & Hall). exists l. rewrite Hobs. done.
Qed.

(** *** The loop *)

Lemma turn_exits P (pool : list (Task unit)) w i :
  Forall (exits P) pool ->
  Forall (exits P) (turn (pool, w) i).1
  /\ ((turn (pool, w) i) = (pool, w)
      \/ exists t, (turn (pool, w) i).1 !! i = Some t
                   /\ (finished t = true -> P (turn (pool, w) i).2)).
Proof.
  intros Hall. unfold turn. cbn.
  destruct (pool !! i) as [t|] eqn:Hi; [|by split; [|left]].
  pose proof (proj1 (Forall_lookup _ _) Hall i t Hi) as Ht.
  destruct t as [r|next after]; cbn.
  - rewrite list_insert_id by done. by split; [|left].
  - destruct (Ht w) as [Hfin Hnext]. split.
    + by apply Forall_insert.
    + right. exists (next w). split; [|done].
      apply list_lookup_insert_eq. by apply lookup_lt_Some in Hi.
Qed.

Lemma run_exits_clear (pool : list (Task unit)) schedule w :
  Forall (exits (fun w => flag w = false)) pool ->
  (exists t, t ∈ pool /\ finished t = false) \/ flag w = false ->
  let s := run schedule (pool, w) in
  Forall (fun t => finished t = true) s.1 -> flag s.2 = false.
Proof.
  cbv zeta. revert pool w.
  induction schedule as [|i schedule IH]; intros pool w Hall Hinv Hfin; cbn.
  - destruct Hinv as [(t & Hin & Hnot)|Hf]; [|done].
    cbn in Hfin. rewrite Forall_forall in Hfin.
    rewrite (Hfin t Hin) in Hnot. done.
  - cbn in Hfin.
    destruct (turn_exits _ pool w i Hall) as [Hall' Hstep].
    destruct (turn (pool, w) i) as [pool' w'] eqn:Ht. cbn in *.
    apply (IH pool' w' Hall'); [|done].
    destruct Hstep as [[= -> ->]|(t & Hlook & Hdone)]; [done|].
    destruct (finished t) eqn:Hft; [right; by apply Hdone|].
    left. exists t. split; [|done]. by apply list_elem_of_lookup_2 in Hlook.
Qed.

(** C4, the claim as stated fails also without nesting: the preview
    command is invoked on a second file while the first call waits for
    the editor; the first block exits and clears the flag, and the second
    block makes its remaining calls with the flag false. *)
Lemma overlapping_block_runs_with_flag_false :
  map (fun o => (call o, flagAtCall o))
      (observed (run Inputs.overlapping
                   (Inputs.twoPreviews, Inputs.sourceWorld)).2)
  = [(OpenTextDocument
        "sops-decrypted:secrets.yaml (SOPS Preview)?/w/secrets.yaml", true);
     (OpenTextDocument
        "sops-decrypted:other.json (SOPS Preview)?/w/other.json", true);
     (ShowTextDocument
        "sops-decrypted:secrets.yaml (SOPS Preview)?/w/secrets.yaml"
        Beside false, true);
     (SetTextDocumentLanguage
        "sops-decrypted:secrets.yaml (SOPS Preview)?/w/secrets.yaml" "yaml",
      true);
     (ShowTextDocument
        "sops-decrypted:other.json (SOPS Preview)?/w/other.json"
        Beside false, false);
     (SetTextDocumentLanguage
        "sops-decrypted:other.json (SOPS Preview)?/w/other.json" "json",
      false)].
Proof. vm_compute. reflexivity. Qed.

(** C4 as amended, for the blocks as the event loop runs them, under
    every interleaving. In the turn in which a guarded block exits,
    normally or by a throw, it leaves the flag false, whatever the other
    calls in flight have done meanwhile; and once every block in flight
    has exited, the flag reads false. While a block is running, the calls
    it makes are made with the flag true and the flag is true whenever it
    is suspended, for as long as it finds the flag true when it is
    resumed -- that is, until another block exits: the flag is one
    boolean, and the exit of a block that is nested in this one or
    overlaps with it clears it for the rest of this one. The statements
    in the blocks of [openPreview] and of [openEditInPlace] do not set
    the flag themselves. *)
Theorem guard_flag :
  (forall A (body : Async A),
     exits (fun w => flag w = false) (suspend (guarded body)))
  /\ (forall bodies schedule w,
        bodies <> [] ->
        let s := run schedule (blocks bodies, w) in
        Forall (fun t => finished t = true) s.1 -> flag s.2 = false)
  /\ (forall A (body : Async A) w,
        quietly body ->
        callsUnder true w (guarded body w).2
        /\ (finished (guarded body w).1 = false ->
            flag (guarded body w).2 = true)
        /\ holdsFlag (guarded body w).1)
  /\ (forall env target sourceUri options,
        quietly (showAndTrack env target sourceUri options)).
Proof.
  split; [|split; [|split]].
  - intros A body. apply guarded_exits.
  - intros bodies schedule w Hne. apply run_exits_clear.
    + apply Forall_forall. intros t (body & -> & _)%list_elem_of_fmap.
      apply guarded_exits.
    + left. destruct bodies as [|body bodies]; [done|].
      exists (suspend (guarded body)). split; [|done]. by left.
  - intros A body w. apply guarded_holdsFlag.
  - apply quietly_showAndTrack.
Qed.

Lemma guard_flag_witness :
  flag (run Inputs.overlapping
          (blocks
             [showAndTrack Scenario.viewEnv Scenario.previewUri
                Scenario.secretsUri
                {| preserveFocus := false; showInfoMessage := None |};
              showAndTrack Scenario.viewEnv Inputs.otherPreviewUri
                Inputs.otherUri
                {| preserveFocus := false; showInfoMessage := None |}],
           Inputs.sourceWorld)).2
  = false.
Proof.
  apply (proj1 (proj2 guard_flag)
           [showAndTrack Scenario.viewEnv Scenario.previewUri
              Scenario.secretsUri
              {| preserveFocus := false; showInfoMessage := None |};
            showAndTrack Scenario.viewEnv Inputs.otherPreviewUri
              Inputs.otherUri
              {| preserveFocus := false; showInfoMessage := None |}]
           Inputs.overlapping Inputs.sourceWorld).
  - discriminate.
  - vm_compute. by repeat constructor.
Defined.

End EventLoopProps.

(** ** The SOPS runner: exits, spawn errors and what a rejection carries *)
Module SopsRunnerExitProps.
Import SopsRunner SopsRunnerSpec SopsRunnerProps SopsRunnerOutput.

Lemma run_data_output cmd timeout evs r :
  forallb isData evs = true ->
  let r' := foldl (step cmd timeout) r evs in
  stdout r' = foldl (fun acc ev => match ev with
                                   | StdoutData data => acc +:+ data
                                   | _ => acc
                                   end) (stdout r) evs
  /\ stderr r' = foldl (fun acc ev => match ev with
                                      | StderrData data => acc +:+ data
                                      | _ => acc
                                      end) (stderr r) evs
  /\ settled r' = settled r.
Proof.
  revert r. induction evs as [|ev evs IH]; intros r Hd; simpl; [done|].
  simpl in Hd. apply andb_true_iff in Hd as [Hev Hd].
  destruct (IH (step cmd timeout r ev) Hd) as (H1 & H2 & H3).
  cbv zeta in *. rewrite H1, H2, H3.
  by destruct ev.
Qed.

Lemma step_leftAlone cmd timeout r ev :
  leftAlone r -> leftAlone (step cmd timeout r ev).
Proof.
  intros (Hi & Hg & Hs). unfold leftAlone.
  destruct ev; simpl; try done.
  - by rewrite Hi.
  - by rewrite Hi.
  - destruct (timer r); [|done]. simpl. by rewrite Hi.
  - by rewrite Hg.
Qed.

Lemma run_leftAlone cmd timeout evs r :
  leftAlone r -> leftAlone (foldl (step cmd timeout) r evs).
Proof.
  revert r. induction evs as [|ev evs IH]; intros r Hr; simpl; [done|].
  by apply IH, step_leftAlone.
Qed.

(** A process that ends by itself before the timeout: the promise resolves
    with the chunks of [stdout] in their order of arrival when the exit
    code is 0, and rejects with [parseError] of the chunks of [stderr] and
    the code otherwise; whatever the event loop dispatches afterwards, the
    outcome stays and no signal is ever sent. *)
Lemma runCommand_exit env cmd args cwd stdin timeout pre code post :
  events env cmd args = pre ++ ProcClose code :: post ->
  forallb isData pre = true ->
  let r := runCommand env cmd args cwd stdin timeout in
  settled r
  = Some (if bool_decide (code = Some 0%Z)
          then Resolved (stdoutOf pre)
          else Rejected (SopsExn (parseError (stderrOf pre) code)))
  /\ signalsSent (proc r) = [].
Proof.
  intros Hev Hpre. cbv zeta. unfold runCommand. rewrite Hev, foldl_app.
  pose (r0 := spawn (spawned env cmd args) stdin).
  destruct (run_data_pending cmd timeout pre r0 Hpre) as (H1 & H2 & H3 & H4).
  destruct (run_data_output cmd timeout pre r0 Hpre) as (Ho & He & Hs).
  cbv zeta in *. fold r0.
  assert (consistent (foldl (step cmd timeout) r0 pre)) as Hc1
    by (apply run_consistent, spawn_consistent).
  change (stdout r0) with "" in Ho. change (stderr r0) with "" in He.
  fold (stdoutOf pre) in Ho. fold (stderrOf pre) in He.
  generalize dependent (foldl (step cmd timeout) r0 pre). intros r1 **.
  change (foldl (step cmd timeout) r1 (ProcClose code :: post))
    with (foldl (step cmd timeout) (step cmd timeout r1 (ProcClose code)) post).
  assert (consistent (step cmd timeout r1 (ProcClose code))) as Hc2
    by (by apply step_consistent).
  assert (settled (step cmd timeout r1 (ProcClose code))
          = Some (if bool_decide (code = Some 0%Z)
                  then Resolved (stdoutOf pre)
                  else Rejected (SopsExn (parseError (stderrOf pre) code)))
          /\ leftAlone (step cmd timeout r1 (ProcClose code))) as [Hset Hla].
  { unfold leftAlone. cbn. rewrite H1. cbn.
    case_bool_decide; cbn; rewrite ?Ho, ?He, H3, H4; done. }
  split.
  - by apply run_settled_stable.
  - by apply (run_leftAlone cmd timeout post _ Hla).
Qed.

Lemma runCommand_exit_witness :
  let r := runCommand Inputs.deniedEnv "sops" ["--decrypt"; "/w/secrets.yaml"]
             "/w" "" 30000 in
  settled r
  = Some (Rejected (SopsExn (parseError
            "Failed to get the data key required to decrypt the SOPS file."
            (Some 128%Z))))
  /\ signalsSent (proc r) = [].
Proof.
  apply (runCommand_exit Inputs.deniedEnv "sops"
           ["--decrypt"; "/w/secrets.yaml"] "/w" "" 30000
           [StderrData "Failed to get the data key ";
            StderrData "required to decrypt the SOPS file."]
           (Some 128%Z) []);
    reflexivity.
Defined.

End SopsRunnerExitProps.

Module SopsRunnerRejectionProps.
Import JSString SopsRunner SopsRunnerSpec SopsRunnerProps SopsRunnerRejection.

Lemma parseError_built stderr code : built (parseError stderr code).
Proof.
  unfold parseError, built.
  repeat match goal with
         | |- context [if ?b then _ else _] => destruct b
         end; done.
Qed.

Lemma step_rejectsBuilt cmd timeout r ev :
  rejectsBuilt r -> rejectsBuilt (step cmd timeout r ev).
Proof.
  intros Hr. unfold rejectsBuilt.
  destruct ev; cbn -[killProcess parseError]; try done.
  - destruct (isSettled r); cbn -[parseError]; [done|].
    case_bool_decide; cbn -[parseError]; [done|].
    intros e [= <-]. eexists. split; [done|]. apply parseError_built.
  - destruct (isSettled r); cbn -[killProcess]; [done|].
    destruct (String.eqb errCode "ENOENT"); cbn -[killProcess];
      intros e [= <-]; eexists; (split; [done|]); done.
  - destruct (timer r); [|done]. cbn -[killProcess].
    destruct (isSettled r); cbn -[killProcess]; [done|].
    intros e [= <-]. eexists. split; [done|]. done.
  - destruct (graceTimer r); [|done].
    by destruct (negb (killed (proc r))).
Qed.

Lemma run_rejectsBuilt cmd timeout evs r :
  rejectsBuilt r -> rejectsBuilt (foldl (step cmd timeout) r evs).
Proof.
  revert r. induction evs as [|ev evs IH]; intros r Hr; simpl; [done|].
  by apply IH, step_rejectsBuilt.
Qed.

(** What a rejection of [runCommand] carries, and how [getErrorMessage]
    renders it. When the executor throws -- [spawn] refuses the command,
    or the child comes without its streams -- the promise rejects with
    the [Error] thrown, rendered as its message. Every other rejection,
    whatever the process and the timers do, carries an object built by
    [createError] and never an [Error]: it is recoverable unless its type
    is [CliNotFound], and [getErrorMessage], which reads [message] off an
    [Error] only, renders it as [[object Object]]. *)
Lemma runCommand_rejection_rendering host env cmd args cwd stdin timeout e :
  runCommandPromise host env cmd args cwd stdin timeout = Some (Rejected e) ->
  (exists message,
     host = ExecutorThrows message
     /\ e = ErrorExn message
     /\ getErrorMessage e = message)
  \/ (host = ExecutorReturns
      /\ exists se,
           e = SopsExn se
           /\ recoverable se = negb (isCliNotFound (type se))
           /\ type se <> ConfigParseError
           /\ getErrorMessage e = "[object Object]").
Proof.
  destruct host as [message|]; cbn [runCommandPromise].
  - intros [= <-]. left. by exists message.
  - intros H. right. split; [done|].
    destruct (run_rejectsBuilt cmd timeout (events env cmd args)
                (spawn (spawned env cmd args) stdin)) with (e := e)
      as (se & -> & Hrec & Hty); [done|done|].
    by exists se.
Qed.

Lemma runCommand_rejection_rendering_witness :
  (exists message,
     ExecutorReturns = ExecutorThrows message
     /\ SopsExn (timeoutError 30000) = ErrorExn message
     /\ getErrorMessage (SopsExn (timeoutError 30000)) = message)
  \/ (ExecutorReturns = ExecutorReturns
      /\ exists se,
           SopsExn (timeoutError 30000) = SopsExn se
           /\ recoverable se = negb (isCliNotFound (type se))
           /\ type se <> ConfigParseError
           /\ getErrorMessage (SopsExn (timeoutError 30000))
              = "[object Object]").
Proof.
  apply (runCommand_rejection_rendering ExecutorReturns Scenario.hungEnv
           "sops" ["--decrypt"; "/w/secrets.yaml"] "/w" "" 30000).
  reflexivity.
Defined.

(** A spawn that fails: the promise rejects with [CliNotFound] when the
    error code is [ENOENT] -- the hint on how to install SOPS is passed in
    the place of [details] -- and with [Unknown] and the error's message
    otherwise; no signal reaches a process that was never started. *)
Lemma runCommand_spawn_error env cmd args cwd stdin timeout pre errCode
    errMessage post :
  events env cmd args = pre ++ ProcError errCode errMessage :: post ->
  forallb isData pre = true ->
  let r := runCommand env cmd args cwd stdin timeout in
  settled r
  = Some (Rejected (SopsExn
      (if String.eqb errCode "ENOENT"
       then {| type := CliNotFound;
               message := "SOPS CLI not found at " +:+ dquote +:+ cmd
                            +:+ dquote;
               details := Some "Install SOPS or update the sopsPath setting";
               recoverable := false;
               suggestedAction := None |}
       else {| type := UnknownError;
               message := "Failed to run SOPS: " +:+ errMessage;
               details := None;
               recoverable := true;
               suggestedAction := None |})))
  /\ (spawned env cmd args = false -> signalsSent (proc r) = []).
Proof.
  intros Hev Hpre. cbv zeta. unfold runCommand. rewrite Hev, foldl_app.
  pose (r0 := spawn (spawned env cmd args) stdin).
  destruct (run_data_pending cmd timeout pre r0 Hpre) as (H1 & H2 & H3 & H4).
  cbv zeta in *. fold r0.
  assert (consistent (foldl (step cmd timeout) r0 pre)) as Hc1
    by (apply run_consistent, spawn_consistent).
  generalize dependent (foldl (step cmd timeout) r0 pre). intros r1 **.
  change (foldl (step cmd timeout) r1 (ProcError errCode errMessage :: post))
    with (foldl (step cmd timeout)
            (step cmd timeout r1 (ProcError errCode errMessage)) post).
  assert (consistent (step cmd timeout r1 (ProcError errCode errMessage)))
    as Hc2 by (by apply step_consistent).
  split.
  - apply run_settled_stable; [done|].
    cbn -[killProcess]. rewrite H1. cbn -[killProcess].
    by destruct (String.eqb errCode "ENOENT").
  - intros Hsp.
    assert (forall r, alive (proc r) = false -> signalsSent (proc r) = [] ->
              forall ev, alive (proc (step cmd timeout r ev)) = false
                         /\ signalsSent (proc (step cmd timeout r ev)) = [])
      as Hstep.
    { intros r Ha Hs ev. destruct ev; cbn; try done.
      - destruct (isSettled r); cbn; [done|]. by case_bool_decide.
      - destruct (isSettled r); cbn; [done|].
        unfold killProcess, kill. cbn. rewrite Ha.
        destruct (String.eqb errCode0 "ENOENT"), (negb (killed (proc r)));
          cbn; by rewrite ?Ha.
      - destruct (timer r); [|done]. cbn.
        destruct (isSettled r); cbn; [done|].
        unfold killProcess, kill. cbn. rewrite Ha.
        destruct (negb (killed (proc r))); cbn; by rewrite ?Ha.
      - destruct (graceTimer r); [|done].
        destruct (negb (killed (proc r))); [|done].
        cbn. unfold kill. by rewrite Ha. }
    assert (forall evs r, alive (proc r) = false -> signalsSent (proc r) = [] ->
              signalsSent (proc (foldl (step cmd timeout) r evs)) = [])
      as Hrun.
    { induction evs as [|ev evs IH]; intros r Ha Hs; simpl; [done|].
      destruct (Hstep r Ha Hs ev). by apply IH. }
    apply Hrun.
    + apply Hstep; rewrite H3; unfold r0; simpl; by rewrite ?Hsp.
    + apply Hstep; rewrite H3; unfold r0; simpl; by rewrite ?Hsp.
Qed.

Lemma runCommand_spawn_error_witness :
  let r := runCommand Inputs.missingCliEnv "sops"
             ["--decrypt"; "/w/secrets.yaml"] "/w" "" 30000 in
  settled r
  = Some (Rejected (SopsExn
      {| type := CliNotFound;
         message := "SOPS CLI not found at " +:+ dquote +:+ "sops" +:+ dquote;
         details := Some "Install SOPS or update the sopsPath setting";
         recoverable := false;
         suggestedAction := None |}))
  /\ (SopsRunner.spawned Inputs.missingCliEnv "sops"
        ["--decrypt"; "/w/secrets.yaml"] = false ->
      signalsSent (proc r) = []).
Proof.
  apply (runCommand_spawn_error Inputs.missingCliEnv "sops"
           ["--decrypt"; "/w/secrets.yaml"] "/w" "" 30000
           [] "ENOENT" "spawn sops ENOENT" []);
    reflexivity.
Defined.

End SopsRunnerRejectionProps.

(** ** The temp-file handler: failures, the life of a copy, disposal *)
Module TempFileLifeProps.
Import NodePath TempFileHandler.

Lemma encryptContent_leaves runner now rnd content filePath fs o fs' :
  SopsRunner.encryptContent runner now rnd content filePath fs
  = (Some o, fs') ->
  let scratch := SopsRunner.scratchPath now rnd filePath in
  (forall q, q <> scratch -> fs' !! q = fs !! q)
  /\ (SopsRunner.unlinkFails runner scratch = false -> fs' !! scratch = None)
  /\ (SopsRunner.unlinkFails runner scratch = true ->
      SopsRunner.writeFails runner scratch = false ->
      fs' !! scratch = Some content).
Proof.
  cbv zeta. unfold SopsRunner.encryptContent, SopsRunner.writeFileSync.
  set (tmp := SopsRunner.scratchPath now rnd filePath).
  destruct (SopsRunner.writeFails runner tmp).
  - intros [= <- <-]. split; [|split; [|done]].
    + intros q Hq. by apply SopsRunnerProps.cleanup_other.
    + apply SopsRunnerProps.cleanup_removes.
  - destruct (SopsRunner.settled _) as [o'|]; [|done].
    intros [= <- <-]. split; [|split].
    + intros q Hq. rewrite (SopsRunnerProps.cleanup_other runner tmp _ q Hq).
      by apply lookup_insert_ne.
    + apply SopsRunnerProps.cleanup_removes.
    + intros Hu _. rewrite (SopsRunnerProps.cleanup_refused runner tmp _ Hu).
      apply lookup_insert_eq.
Qed.

(** A save of a tracked copy that fails, with the runner the handler is
    constructed with. When the runner's [encryptContent] rejects, or when
    it resolves but the ciphertext cannot be written to the source, the
    handler writes no file, keeps every mapping and reports no success;
    a rejection is shown through [getErrorMessage]. The disk is as the
    runner left it: every file other than the runner's scratch file is
    as it was, and the scratch file is gone unless its unlink was
    refused -- then it stays next to the source, with the plaintext of
    the buffer in it if it could be written. *)
Lemma onDocumentSaved_failure_leaves_source runner now rnd env doc st
    originalPath outcome fs :
  tempToOriginal st !! fsPath (uri doc) = Some originalPath ->
  originalPath <> "" ->
  SopsRunner.encryptContent runner now rnd (getText doc) originalPath (disk st)
  = (Some outcome, fs) ->
  (forall encrypted,
     outcome = Resolved encrypted -> writeFails env originalPath = true) ->
  let scratch := SopsRunner.scratchPath now rnd originalPath in
  exists st',
    onDocumentSavedWith runner now rnd env doc st = Some st'
    /\ tempToOriginal st' = tempToOriginal st
    /\ disk st' = fs
    /\ (forall q, q <> scratch -> disk st' !! q = disk st !! q)
    /\ (SopsRunner.unlinkFails runner scratch = false ->
        disk st' !! scratch = None)
    /\ (SopsRunner.unlinkFails runner scratch = true ->
        SopsRunner.writeFails runner scratch = false ->
        disk st' !! scratch = Some (getText doc))
    /\ (forall msg,
          ShowInformationMessage msg ∈ effects st' ->
          ShowInformationMessage msg ∈ effects st)
    /\ (forall e,
          outcome = Rejected e ->
          effects st'
          = effects st ++ [EncryptContent (getText doc) originalPath;
                           ShowErrorMessage ("Failed to encrypt and save: "
                                               +:+ getErrorMessage e)]).
Proof.
  intros Hl Hne Henc Hw. cbv zeta.
  destruct (encryptContent_leaves _ _ _ _ _ _ _ _ Henc) as (Hother & Hgone & Hstay).
  unfold onDocumentSavedWith. rewrite Hl.
  rewrite bool_decide_eq_false_2 by done. rewrite Henc.
  eexists. split; [done|].
  unfold onDocumentSaved. cbn [tempToOriginal disk effects encryptContent
                               writeFails].
  rewrite Hl. rewrite bool_decide_eq_false_2 by done.
  destruct outcome as [encrypted|e].
  - rewrite (Hw encrypted eq_refl). cbn.
    repeat split; try done.
    intros msg. rewrite !elem_of_app, !elem_of_cons, elem_of_nil.
    intros [[?|[?|[]]]|[?|[?|[]]]]; done.
  - cbn. repeat split; try done.
    + intros msg. rewrite !elem_of_app, !elem_of_cons, elem_of_nil.
      intros [[?|[?|[]]]|[?|[]]]; done.
    + intros e' [= <-]. by rewrite <- app_assoc.
Qed.

Lemma onDocumentSaved_failure_leaves_source_witness :
  let st := DecryptedViewService.temp Scenario.editWorld in
  exists st',
    onDocumentSavedWith Inputs.deniedLockedEnv 1730505600000 "k3j9x2"
      Scenario.tmpEnv Scenario.editDoc st = Some st'
    /\ tempToOriginal st' = tempToOriginal st
    /\ disk st' !! "/w/secrets.yaml" = disk st !! "/w/secrets.yaml"
    /\ disk st' !! "/w/.sopsie-temp-1730505600000-k3j9x2.yaml"
       = Some "password: hunter3".
Proof.
  cbv zeta.
  destruct (onDocumentSaved_failure_leaves_source Inputs.deniedLockedEnv
              1730505600000 "k3j9x2" Scenario.tmpEnv Scenario.editDoc
              (DecryptedViewService.temp Scenario.editWorld)
              "/w/secrets.yaml"
              (Rejected (SopsExn (SopsRunner.parseError
                 "Failed to get the data key required to decrypt the SOPS file."
                 (Some 128%Z))))
              (<[ "/w/.sopsie-temp-1730505600000-k3j9x2.yaml"
                    := "password: hunter3" ]>
                 (disk (DecryptedViewService.temp Scenario.editWorld)))
              eq_refl ltac:(discriminate) eq_refl ltac:(discriminate))
    as (st' & H1 & H2 & _ & H3 & _ & H4 & _).
  exists st'. split; [exact H1|]. split; [exact H2|]. split.
  - apply H3. discriminate.
  - apply H4; reflexivity.
Defined.

(** The life of a copy: [createTempFile] records the mapping and writes the
    plaintext; [onDocumentClosed] forgets the mapping and unlinks the file.
    When the unlink is refused the plaintext stays in the temp directory.
    After the close a save of the same document encrypts nothing. *)
Lemma createTempFile_then_close env u content st doc :
  writeFails env (tempPathOf env (fsPath u)) = false ->
  fsPath (uri doc) = tempPathOf env (fsPath u) ->
  let tempPath := tempPathOf env (fsPath u) in
  let st1 := (createTempFile env u content st).1 in
  let st2 := onDocumentClosed env doc st1 in
  (createTempFile env u content st).2 = inr (Uri_file tempPath)
  /\ tempToOriginal st1 !! tempPath = Some (fsPath u)
  /\ disk st1 !! tempPath = Some content
  /\ tempToOriginal st2 = delete tempPath (tempToOriginal st)
  /\ (unlinkFails env tempPath = false ->
      disk st2 = delete tempPath (disk st))
  /\ (unlinkFails env tempPath = true ->
      disk st2 !! tempPath = Some content)
  /\ onDocumentSaved env doc st2 = st2.
Proof.
  intros Hw Hd. cbv zeta. unfold createTempFile. rewrite Hw. cbn.
  unfold onDocumentClosed. cbn. rewrite Hd.
  rewrite bool_decide_eq_true_2 by (rewrite lookup_insert_eq; eauto).
  cbn. rewrite !lookup_insert_eq, delete_insert_eq.
  repeat split; try done.
  - intros ->. by rewrite delete_insert_eq.
  - intros ->. by rewrite lookup_insert_eq.
  - unfold onDocumentSaved. cbn. by rewrite Hd, lookup_delete_eq.
Qed.

Lemma createTempFile_then_close_witness :
  let env := Scenario.tmpEnv in
  let u := Scenario.secretsUri in
  let st := {| tempToOriginal := ∅; disk := Scenario.secretsDisk;
               effects := [] |} in
  let doc := {| uri := Uri_file "/tmp/secrets.sops-edit.yaml";
                getText := "password: hunter2"; isDirty := false |} in
  let st2 := onDocumentClosed env doc
               (createTempFile env u "password: hunter2" st).1 in
  tempToOriginal st2 = delete "/tmp/secrets.sops-edit.yaml" ∅
  /\ (unlinkFails env "/tmp/secrets.sops-edit.yaml" = false ->
      disk st2 = delete "/tmp/secrets.sops-edit.yaml" Scenario.secretsDisk).
Proof.
  cbv zeta.
  pose proof (createTempFile_then_close Scenario.tmpEnv Scenario.secretsUri
                "password: hunter2"
                {| tempToOriginal := ∅; disk := Scenario.secretsDisk;
                   effects := [] |}
                {| uri := Uri_file "/tmp/secrets.sops-edit.yaml";
                   getText := "password: hunter2"; isDirty := false |}
                eq_refl eq_refl) as H.
  cbv zeta in H.
  exact (conj (proj1 (proj2 (proj2 (proj2 H))))
              (proj1 (proj2 (proj2 (proj2 (proj2 H)))))).
Defined.

Lemma lookup_unlink_all env (paths : list string) (d : Disk) q :
  foldr (fun p d => if unlinkFails env p then d else delete p d) d paths !! q
  = if bool_decide (q ∈ paths) && negb (unlinkFails env q) then None
    else d !! q.
Proof.
  induction paths as [|p paths IH]; simpl; [done|].
  destruct (decide (q = p)) as [->|Hne].
  - rewrite bool_decide_eq_true_2 by constructor. simpl.
    destruct (unlinkFails env p) eqn:Hu; simpl.
    + rewrite IH. simpl. by rewrite andb_false_r.
    + apply lookup_delete_eq.
  - assert (bool_decide (q ∈ p :: paths) = bool_decide (q ∈ paths)) as ->.
    { apply bool_decide_ext. rewrite elem_of_cons.
      split; [by intros [?|?]|by right]. }
    destruct (unlinkFails env p); [done|].
    by rewrite lookup_delete_ne.
Qed.

(** [dispose] forgets every mapping and unlinks every copy still tracked,
    and nothing else: it adds no effect other than those unlinks (no
    buffer is encrypted on the way out), and a file that no mapping names
    is untouched. *)
Lemma dispose_unlinks_tracked env st :
  tempToOriginal (dispose env st) = ∅
  /\ (forall p,
        is_Some (tempToOriginal st !! p) ->
        Unlink p ∈ effects (dispose env st)
        /\ (unlinkFails env p = false -> disk (dispose env st) !! p = None))
  /\ (forall p,
        tempToOriginal st !! p = None ->
        disk (dispose env st) !! p = disk st !! p)
  /\ exists added,
       effects (dispose env st) = effects st ++ added
       /\ Forall (fun e => exists p, e = Unlink p
                                     /\ is_Some (tempToOriginal st !! p))
                 added.
Proof.
  unfold dispose. cbn.
  assert (forall p, p ∈ (map_to_list (tempToOriginal st)).*1
                    <-> is_Some (tempToOriginal st !! p)) as Hin.
  { intros p. rewrite list_elem_of_fmap. split.
    - intros ([k v] & -> & Hkv). apply elem_of_map_to_list in Hkv. eauto.
    - intros [v Hv]. exists (p, v). split; [done|].
      by apply elem_of_map_to_list. }
  split; [done|]. split; [|split].
  - intros p Hp. split.
    + rewrite elem_of_app. right. apply list_elem_of_fmap.
      exists p. split; [done|]. by apply Hin.
    + intros Hu. rewrite lookup_unlink_all, Hu.
      by rewrite bool_decide_eq_true_2 by (by apply Hin).
  - intros p Hp. rewrite lookup_unlink_all.
    rewrite bool_decide_eq_false_2; [done|].
    rewrite Hin, Hp. by intros [? ?].
  - eexists. split; [done|].
    apply Forall_forall. intros e (p & -> & Hp)%list_elem_of_fmap.
    exists p. split; [done|]. by apply Hin.
Qed.

End TempFileLifeProps.

(** ** The decrypted-view service: what opening a view writes *)
Module DecryptedViewFrameProps.
Import NodePath EditorGroupTracker DecryptedViewService DecryptedViewFrame.

Section Frame.
Context (R : World -> World -> Prop).
Context (R_refl : forall w, R w w).
Context (R_trans : forall w1 w2 w3, R w1 w2 -> R w2 w3 -> R w1 w3).

Lemma respects_ret {A} (a : A) : Respects R (mret a).
Proof. intros w. apply R_refl. Qed.

Lemma respects_throw {A} e : Respects R (throw e : M A).
Proof. intros w. apply R_refl. Qed.

Lemma respects_gets {A} (f : World -> A) : Respects R (gets f).
Proof. intros w. apply R_refl. Qed.

Lemma respects_modify f : (forall w, R w (f w)) -> Respects R (modify f).
Proof. intros H w. apply H. Qed.

Lemma respects_bind {A B} (m : M A) (k : A -> M B) :
  Respects R m -> (forall a, Respects R (k a)) -> Respects R (m ≫= k).
Proof.
  intros Hm Hk w. unfold mbind, M_bind, bind.
  specialize (Hm w). destruct (m w) as [[e|a] w1]; simpl in *; [done|].
  by apply (R_trans _ w1), Hk.
Qed.

Lemma respects_tryCatch {A} (m : M A) (h : Exn -> M A) :
  Respects R m -> (forall e, Respects R (h e)) -> Respects R (tryCatch m h).
Proof.
  intros Hm Hh w. unfold tryCatch.
  specialize (Hm w). destruct (m w) as [[e|a] w1]; simpl in *; [|done].
  by apply (R_trans _ w1), Hh.
Qed.

(** What the relation must allow: a recorded call, and a change of the
    documents and editors the window shows. *)
Context (R_record : forall c w, R w (record c w)).
Context (R_window : forall w docs eds act,
  R w {| tracker := tracker w; temp := temp w; textDocuments := docs;
         visibleTextEditors := eds; activeTextEditor := act;
         tabGroups := tabGroups w; observed := observed w |}).

Lemma respects_observe env c : Respects R (observe env c).
Proof.
  intros w. unfold observe.
  destruct (throws env (length (observed w)) c); apply R_record.
Qed.

Lemma respects_notify c : Respects R (notify c).
Proof. intros w. apply R_record. Qed.

Lemma respects_openTextDocument env u : Respects R (openTextDocument env u).
Proof.
  unfold openTextDocument.
  apply respects_bind; [apply respects_observe|intros _].
  apply respects_bind; [apply respects_gets|intros w0].
  destruct (find _ _); [apply respects_ret|].
  apply respects_bind; [|intros _; apply respects_ret].
  apply respects_modify. intros w. apply R_window.
Qed.

Lemma respects_showTextDocument env d column keepFocus :
  Respects R (showTextDocument env d column keepFocus).
Proof.
  unfold showTextDocument.
  apply respects_bind; [apply respects_observe|intros _].
  apply respects_bind; [|intros _; apply respects_ret].
  apply respects_modify. intros w. apply R_window.
Qed.

Lemma respects_setDocumentLanguage env d filePath :
  Respects R (setDocumentLanguage env d filePath).
Proof.
  unfold setDocumentLanguage.
  apply respects_tryCatch; [apply respects_observe|intros _].
  destruct (negb _); [apply respects_observe|apply respects_ret].
Qed.

End Frame.

(** A relation on what the temp-file handler holds, followed through the
    opening of a view that supersedes no session. *)
Section Fresh.
Context (Q : World -> World -> Prop).
Context (Q_refl : forall w, Q w w).
Context (Q_trans : forall w1 w2 w3, Q w1 w2 -> Q w2 w3 -> Q w1 w3).
Context (Q_record : forall c w, Q w (record c w)).
Context (Q_tracker : forall f w, Q w (withTracker f w)).
Context (Q_window : forall w docs eds act,
  Q w {| tracker := tracker w; temp := temp w; textDocuments := docs;
         visibleTextEditors := eds; activeTextEditor := act;
         tabGroups := tabGroups w; observed := observed w |}).

Lemma keeping_refl w : keepingSessions Q w w.
Proof. by split. Qed.

Lemma keeping_trans w1 w2 w3 :
  keepingSessions Q w1 w2 -> keepingSessions Q w2 w3 ->
  keepingSessions Q w1 w3.
Proof.
  intros [H1 S1] [H2 S2]. split; [by apply (Q_trans _ w2)|].
  by rewrite S2.
Qed.

Lemma keeping_record c w : keepingSessions Q w (record c w).
Proof. by split. Qed.

Lemma keeping_window w docs eds act :
  keepingSessions Q w
    {| tracker := tracker w; temp := temp w; textDocuments := docs;
       visibleTextEditors := eds; activeTextEditor := act;
       tabGroups := tabGroups w; observed := observed w |}.
Proof. by split. Qed.

Ltac keeping :=
  first [ apply keeping_refl | apply keeping_trans | apply keeping_record
        | apply keeping_window ].

Lemma fresh_kept sourceUri w w' :
  keepingSessions Q w w' -> fresh sourceUri w -> fresh sourceUri w'.
Proof. intros [_ HS]. unfold fresh, getSession. by rewrite HS. Qed.

Lemma fresh_bind {A B} (m : M A) (k : A -> M B) sourceUri :
  Respects (keepingSessions Q) m ->
  (forall a w, fresh sourceUri w -> Q w (k a w).2) ->
  forall w, fresh sourceUri w -> Q w ((m ≫= k) w).2.
Proof.
  intros Hm Hk w Hf. unfold mbind, M_bind, bind.
  specialize (Hm w). destruct (m w) as [[e|a] w1]; simpl in *.
  - apply Hm.
  - apply (Q_trans _ w1); [apply Hm|]. apply Hk.
    by apply (fresh_kept _ w).
Qed.

Lemma trackOpenedDocument_fresh env d sourceUri shownEditor column w :
  fresh sourceUri w ->
  Q w (trackOpenedDocument env d sourceUri shownEditor column w).2.
Proof.
  intros Hf. unfold trackOpenedDocument, trackDocumentOpened.
  unfold mbind, M_bind, bind, gets, modify, mret, M_ret, ret. cbn.
  unfold fresh in Hf. rewrite Hf. cbn. apply Q_tracker.
Qed.

Lemma showAndTrack_fresh env target sourceUri options w :
  fresh sourceUri w -> Q w (showAndTrack env target sourceUri options w).2.
Proof.
  revert w. unfold showAndTrack.
  apply fresh_bind; [|intros d].
  { apply respects_openTextDocument; keeping. }
  apply fresh_bind; [|intros shownEditor].
  { apply respects_showTextDocument; keeping. }
  apply fresh_bind; [|intros _ w Hf].
  { apply respects_setDocumentLanguage; keeping. }
  pose proof (trackOpenedDocument_fresh env d sourceUri shownEditor
                (if shouldOpenDecryptedBeside env then Beside else Active)
                w Hf) as Ht.
  unfold mbind, M_bind, bind.
  by destruct (trackOpenedDocument _ _ _ _ _ _) as [[e|a] w1].
Qed.

Lemma guarded_showAndTrack_fresh env target sourceUri options w :
  fresh sourceUri w ->
  Q w (guarded (showAndTrack env target sourceUri options) w).2.
Proof.
  intros Hf. unfold guarded, mbind, M_bind, bind, modify, tryFinally. cbn.
  set (w1 := withTracker (setExtensionTriggeredOpen true) w).
  assert (fresh sourceUri w1) as Hf1 by done.
  pose proof (showAndTrack_fresh env target sourceUri options w1 Hf1) as Hb.
  destruct (showAndTrack env target sourceUri options w1) as [r w2].
  cbn in *. apply (Q_trans _ w1); [apply Q_tracker|].
  apply (Q_trans _ w2); [done|apply Q_tracker].
Qed.

End Fresh.

Lemma sameExceptAt_refl p w : sameExceptAt p w w.
Proof. by intros q Hq. Qed.

Lemma sameExceptAt_trans p w1 w2 w3 :
  sameExceptAt p w1 w2 -> sameExceptAt p w2 w3 -> sameExceptAt p w1 w3.
Proof.
  intros H12 H23 q Hq.
  destruct (H12 q Hq) as [H1 H2], (H23 q Hq) as [H3 H4].
  by rewrite H3, H4.
Qed.

Lemma awaitCreateTempFile_at env sourceUri decrypted :
  Respects
    (keepingSessions
       (sameExceptAt
          (TempFileHandler.tempPathOf (tempEnv env) (fsPath sourceUri))))
    (awaitCreateTempFile env sourceUri decrypted).
Proof.
  intros w.
  unfold awaitCreateTempFile, mbind, M_bind, bind, notify. cbn.
  unfold TempFileHandler.createTempFile.
  destruct (TempFileHandler.writeFails _ _); cbn; (split; [|done]);
    intros q Hq; cbn; [done|].
  by rewrite !lookup_insert_ne.
Qed.

Lemma openPreview_keeps_temp env sourceUri options w :
  fresh sourceUri w ->
  temp (openPreview env sourceUri options w).2 = temp w.
Proof.
  apply (guarded_showAndTrack_fresh sameTemp); unfold sameTemp; try done.
  intros w1 w2 w3 H12 H23. by rewrite H23.
Qed.

Lemma openEditInPlace_keeps_others env sourceUri options w :
  fresh sourceUri w ->
  sameExceptAt (TempFileHandler.tempPathOf (tempEnv env) (fsPath sourceUri))
    w (openEditInPlace env sourceUri options w).2.
Proof.
  set (tp := TempFileHandler.tempPathOf (tempEnv env) (fsPath sourceUri)).
  pose proof (sameExceptAt_refl tp) as Hrefl.
  pose proof (sameExceptAt_trans tp) as Htrans.
  assert (forall c w, sameExceptAt tp w (record c w)) as Hrec by done.
  revert w. unfold openEditInPlace.
  apply fresh_bind; [done..| |intros decrypted].
  { unfold awaitDecrypt.
    apply respects_bind; [by apply keeping_trans| |intros _].
    - apply respects_notify. by apply keeping_record.
    - destruct (decrypt env _);
        [apply respects_ret|apply respects_throw]; by apply keeping_refl. }
  apply fresh_bind; [done..|apply awaitCreateTempFile_at|intros tempUri w Hf].
  pose proof (guarded_showAndTrack_fresh (sameExceptAt tp) Hrefl Htrans Hrec
                ltac:(done) ltac:(done) env tempUri sourceUri options w Hf)
    as Hg.
  unfold mbind, M_bind, bind.
  destruct (guarded _ w) as [[e|[]] w1]; cbn in *; [done|].
  destruct (bool_decide _); cbn; [done|].
  by apply (Htrans _ w1).
Qed.

(** What opening a decrypted view writes, when the Registry holds no
    session for the source, so that tracking the view supersedes nothing
    (a session of the same source would be superseded, and its ephemeral
    document closed). A read-only preview writes nothing: whatever the
    editor does, and whether the calls succeed or throw, the temp-file
    map, the disk and the handler's effects are the same after
    [openPreview] as before. An editable copy writes at most one file,
    the copy at the temp path, and changes at most that path's mapping:
    every other file -- the encrypted source among them -- and every
    other mapping is as it was, on every outcome of [openEditInPlace]. *)
Lemma opening_a_view_writes_temp_copy_only env sourceUri options w :
  getSession (toString sourceUri) (tracker w) = None ->
  temp (openPreview env sourceUri options w).2 = temp w
  /\ forall q,
       q <> TempFileHandler.tempPathOf (tempEnv env) (fsPath sourceUri) ->
       TempFileHandler.disk
         (temp (openEditInPlace env sourceUri options w).2) !! q
       = TempFileHandler.disk (temp w) !! q
       /\ TempFileHandler.tempToOriginal
            (temp (openEditInPlace env sourceUri options w).2) !! q
          = TempFileHandler.tempToOriginal (temp w) !! q.
Proof.
  intros Hf. split; [by apply openPreview_keeps_temp|].
  intros q. by apply openEditInPlace_keeps_others.
Qed.

Lemma opening_a_view_writes_temp_copy_only_witness :
  temp (openPreview Scenario.viewEnv Inputs.otherUri
          {| preserveFocus := false; showInfoMessage := None |}
          Scenario.previewWorld).2
  = temp Scenario.previewWorld
  /\ TempFileHandler.disk
       (temp (openEditInPlace Scenario.viewEnv Inputs.otherUri
                {| preserveFocus := false; showInfoMessage := None |}
                Scenario.previewWorld).2) !! "/w/secrets.yaml"
     = TempFileHandler.disk (temp Scenario.previewWorld) !! "/w/secrets.yaml".
Proof.
  pose proof (opening_a_view_writes_temp_copy_only Scenario.viewEnv
                Inputs.otherUri
                {| preserveFocus := false; showInfoMessage := None |}
                Scenario.previewWorld eq_refl) as [H1 H2].
  split; [exact H1|].
  apply (H2 "/w/secrets.yaml"). discriminate.
Defined.

End DecryptedViewFrameProps.

(** ** The mode of a tracked preview *)
Module ViewModeProps.
Import NodePath EditorGroupTracker DecryptedViewService NodePathProps.









End ViewModeProps.

(** ** Saving with [autoEncrypt] *)
Module AutoEncryptProps.
Import FileStateTracker AutoBehaviorHandler AutoBehaviorHandlerProps.

Lemma substring_all_0 s : String.substring (String.length s) 0 s = "".
Proof. induction s as [|c s IH]; [done|]. apply IH. Qed.

Lemma append_empty_r s : s +:+ "" = s.
Proof.
  induction s as [|c s IH]; [done|].
  change (String c (s +:+ "") = String c s). by rewrite IH.
Qed.

(** The edit of [autoEncrypt] replaces the whole buffer. *)
Lemma applyEdits_whole text encrypted :
  applyEdits text [ReplaceEdit 0 (String.length text) encrypted] = encrypted.
Proof.
  unfold applyEdits, applyEdit. cbn [foldl rangeStart rangeEnd newText].
  rewrite Nat.sub_diag, substring_all_0, append_empty_r.
  by destruct text.
Qed.

Lemma save_autoEncrypt_success env w doc encrypted :
  isMarkedDecrypted (uri doc) (decryptedFiles w) = true ->
  scheme (uri doc) = "file" ->
  getSaveBehavior env = SaveAutoEncrypt ->
  encryptContent env (getText doc) (fsPath (uri doc)) = Resolved encrypted ->
  save env w doc
  = {| disk := <[ fsPath (uri doc) := encrypted ]> (disk w);
       decryptedFiles := markEncrypted (uri doc) (decryptedFiles w) |}.
Proof.
  intros Hm Hs Hb He. unfold save.
  rewrite (handleDocumentWillSave_marked env _ doc Hm Hs), Hb. cbn.
  unfold autoEncrypt. rewrite He. by rewrite applyEdits_whole.
Qed.

Lemma saveUnder_applied env w doc :
  saveUnder EditsApplied env w doc = save env w doc.
Proof. reflexivity. Qed.

Lemma saveUnder_unmarked delivery env w doc :
  isMarkedDecrypted (uri doc) (decryptedFiles w) = false ->
  saveUnder delivery env w doc
  = {| disk := <[ fsPath (uri doc) := getText doc ]> (disk w);
       decryptedFiles := decryptedFiles w |}.
Proof.
  intros Hm. unfold saveUnder.
  rewrite (handleDocumentWillSave_unmarked env _ doc Hm).
  by destruct delivery.
Qed.

Lemma saveUnder_autoEncrypt delivery env w doc :
  isMarkedDecrypted (uri doc) (decryptedFiles w) = true ->
  scheme (uri doc) = "file" ->
  getSaveBehavior env = SaveAutoEncrypt ->
  delivery <> NotCalled ->
  saveUnder delivery env w doc
  = match encryptContent env (getText doc) (fsPath (uri doc)) with
    | Resolved encrypted =>
        {| disk := <[ fsPath (uri doc) :=
                        match delivery with
                        | EditsApplied => encrypted
                        | _ => getText doc
                        end ]> (disk w);
           decryptedFiles := markEncrypted (uri doc) (decryptedFiles w) |}
    | Rejected _ =>
        {| disk := <[ fsPath (uri doc) := getText doc ]> (disk w);
           decryptedFiles := decryptedFiles w |}
    end.
Proof.
  intros Hm Hs Hb Hd. unfold saveUnder.
  rewrite (handleDocumentWillSave_marked env _ doc Hm Hs), Hb. cbn.
  unfold autoEncrypt.
  destruct (encryptContent env (getText doc) (fsPath (uri doc)));
    destruct delivery; try done.
  by rewrite applyEdits_whole.
Qed.

(** A save of a decrypted file under [autoEncrypt]. When SOPS encrypts
    and the editor applies the edits of the thenable, the ciphertext and
    not the buffer is written and the file leaves the decrypted-set. When
    SOPS encrypts but the editor ignores the edits -- the thenable settled
    after the will-save budget, or the document changed while it ran --
    the plaintext of the buffer is written, and the file leaves the
    decrypted-set all the same. Either way the next save of the document,
    under any setting, writes its buffer as it is, without another
    encryption. When SOPS fails, or when the editor does not call the
    listener, the plaintext is written and the file stays in the
    decrypted-set. *)
Lemma save_autoEncrypt_outcome env w doc :
  isMarkedDecrypted (uri doc) (decryptedFiles w) = true ->
  scheme (uri doc) = "file" ->
  getSaveBehavior env = SaveAutoEncrypt ->
  (forall encrypted,
     encryptContent env (getText doc) (fsPath (uri doc)) = Resolved encrypted ->
     saveUnder EditsApplied env w doc
     = {| disk := <[ fsPath (uri doc) := encrypted ]> (disk w);
          decryptedFiles := markEncrypted (uri doc) (decryptedFiles w) |}
     /\ saveUnder EditsIgnored env w doc
        = {| disk := <[ fsPath (uri doc) := getText doc ]> (disk w);
             decryptedFiles := markEncrypted (uri doc) (decryptedFiles w) |}
     /\ forall delivery delivery' env' doc',
          delivery <> NotCalled ->
          uri doc' = uri doc ->
          saveUnder delivery' env' (saveUnder delivery env w doc) doc'
          = {| disk := <[ fsPath (uri doc) := getText doc' ]>
                         (disk (saveUnder delivery env w doc));
               decryptedFiles :=
                 decryptedFiles (saveUnder delivery env w doc) |})
  /\ (forall e delivery,
        encryptContent env (getText doc) (fsPath (uri doc)) = Rejected e ->
        saveUnder delivery env w doc
        = {| disk := <[ fsPath (uri doc) := getText doc ]> (disk w);
             decryptedFiles := decryptedFiles w |})
  /\ saveUnder NotCalled env w doc
     = {| disk := <[ fsPath (uri doc) := getText doc ]> (disk w);
          decryptedFiles := decryptedFiles w |}.
Proof.
  intros Hm Hs Hb.
  pose proof (fun delivery => saveUnder_autoEncrypt delivery env w doc
                                Hm Hs Hb) as Hsave.
  split; [|split; [|done]].
  - intros encrypted He. rewrite He in Hsave.
    split; [by apply Hsave|]. split; [by apply Hsave|].
    intros delivery delivery' env' doc' Hd Hu.
    rewrite <- Hu. apply saveUnder_unmarked.
    rewrite (Hsave delivery Hd). cbn. rewrite Hu.
    apply isMarkedDecrypted_markEncrypted.
  - intros e delivery He. rewrite He in Hsave.
    destruct (decide (delivery = NotCalled)) as [->|Hd]; [done|].
    by apply Hsave.
Qed.

Lemma save_autoEncrypt_outcome_witness :
  saveUnder EditsApplied Inputs.autoEncryptEnv Scenario.secretsWorld
    Scenario.secretsDoc
  = {| disk := <[ "/w/secrets.yaml" := "password: ENC[AES256_GCM]" ]>
                 (disk Scenario.secretsWorld);
       decryptedFiles := markEncrypted Scenario.secretsUri
                           (decryptedFiles Scenario.secretsWorld) |}
  /\ saveUnder EditsIgnored Inputs.autoEncryptEnv Scenario.secretsWorld
       Scenario.secretsDoc
     = {| disk := <[ "/w/secrets.yaml" := "password: hunter2" ]>
                    (disk Scenario.secretsWorld);
          decryptedFiles := markEncrypted Scenario.secretsUri
                              (decryptedFiles Scenario.secretsWorld) |}.
Proof.
  pose proof (proj1 (save_autoEncrypt_outcome Inputs.autoEncryptEnv
                       Scenario.secretsWorld Scenario.secretsDoc
                       eq_refl eq_refl eq_refl)
                "password: ENC[AES256_GCM]" eq_refl) as (H1 & H2 & _).
  split; [exact H1|exact H2].
Defined.

End AutoEncryptProps.

(** ** The encrypt command and the will-save handler *)
Module EncryptCommandProps.
Import FileStateTracker AutoBehaviorHandler AutoBehaviorHandlerProps
  AutoEncryptProps EncryptCommand.

Lemma run_encrypts env onEncrypted w doc encrypted :
  scheme (uri doc) = "file" ->
  isContentEncrypted env (getText doc) = false ->
  encryptContent (handler env) (getText doc) (fsPath (uri doc))
  = Resolved encrypted ->
  applyEdit env = Resolved true ->
  let ciphertext :=
    {| uri := uri doc; getText := encrypted; isDirty := true |} in
  let saved := saveUnder (delivery env) (handler env) w ciphertext in
  run env onEncrypted (Some doc) w
  = {| world :=
         {| disk := disk saved;
            decryptedFiles := onEncrypted (uri doc) (decryptedFiles saved) |};
       shown := [Information "File encrypted successfully"] |}.
Proof.
  intros Hs Hd He Ha. cbv zeta. unfold run.
  rewrite Hs, Hd, He, Ha. cbn [negb String.eqb]. unfold saveDocument.
  cbn [isDirty]. by rewrite applyEdits_whole.
Qed.

(** The encrypt command, run on a local file whose buffer is not
    encrypted yet, when SOPS encrypts the buffer and the editor applies
    the command's edit: the command saves through the will-save handler,
    and tells the tracker only afterwards. For a file that is not in the
    decrypted-set, or under [manualEncrypt], or when the editor does not
    apply the edits of the handler's thenable, the ciphertext SOPS
    returned is what is written. For a file in the decrypted-set under
    [autoEncrypt], when the editor applies those edits, the handler has
    taken the ciphertext in the buffer for plaintext and called
    [encryptContent] on it: what is written is the result of encrypting
    twice when that call resolves, and the ciphertext when it rejects. In
    each case the command reports success. *)
Lemma encrypt_command_saves_through_handler env onEncrypted w doc encrypted :
  scheme (uri doc) = "file" ->
  isContentEncrypted env (getText doc) = false ->
  encryptContent (handler env) (getText doc) (fsPath (uri doc))
  = Resolved encrypted ->
  applyEdit env = Resolved true ->
  let out := run env onEncrypted (Some doc) w in
  shown out = [Information "File encrypted successfully"]
  /\ (isMarkedDecrypted (uri doc) (decryptedFiles w) = false
      \/ getSaveBehavior (handler env) = SaveManualEncrypt
      \/ delivery env <> EditsApplied ->
      disk (world out) = <[ fsPath (uri doc) := encrypted ]> (disk w))
  /\ (isMarkedDecrypted (uri doc) (decryptedFiles w) = true ->
      getSaveBehavior (handler env) = SaveAutoEncrypt ->
      delivery env = EditsApplied ->
      (forall twice,
         encryptContent (handler env) encrypted (fsPath (uri doc))
         = Resolved twice ->
         disk (world out) = <[ fsPath (uri doc) := twice ]> (disk w))
      /\ (forall error,
            encryptContent (handler env) encrypted (fsPath (uri doc))
            = Rejected error ->
            disk (world out) = <[ fsPath (uri doc) := encrypted ]> (disk w))).
Proof.
  intros Hs Hd He Ha. cbv zeta.
  rewrite (run_encrypts env onEncrypted w doc encrypted Hs Hd He Ha).
  cbn [shown world disk]. split; [done|].
  set (ciphertext := {| uri := uri doc; getText := encrypted;
                        isDirty := true |}).
  split.
  - intros [Hm|[Hb|Hdel]].
    + by rewrite (saveUnder_unmarked _ _ w ciphertext Hm).
    + unfold saveUnder, handleDocumentWillSave. rewrite Hb.
      destruct (delivery env); cbn [uri ciphertext];
        by repeat (match goal with
                   | |- context [if ?b then _ else _] => destruct b
                   end).
    + unfold saveUnder.
      destruct (delivery env); [done| |done].
      by destruct (match handleDocumentWillSave _ _ _ with
                   | Some p => _ | None => _ end).
  - intros Hm Hb Hdel. rewrite Hdel.
    rewrite (saveUnder_autoEncrypt EditsApplied (handler env) w ciphertext
               Hm Hs Hb) by done.
    cbn [getText uri ciphertext].
    split; [intros twice ->|intros error ->]; done.
Qed.

Lemma encrypt_command_saves_through_handler_witness :
  disk (world (run Inputs.wrappingEnv markEncrypted
                 (Some Scenario.secretsDoc) Scenario.secretsWorld))
  = <[ "/w/secrets.yaml" := "ENC[ENC[password: hunter2]]" ]>
      (disk Scenario.secretsWorld).
Proof.
  apply (proj1 (proj2 (proj2
           (encrypt_command_saves_through_handler Inputs.wrappingEnv
              markEncrypted Scenario.secretsWorld Scenario.secretsDoc
              "ENC[password: hunter2]"
              eq_refl eq_refl eq_refl eq_refl))
           eq_refl eq_refl eq_refl)).
  reflexivity.
Defined.

End EncryptCommandProps.

(** ** Insertion-ordered maps *)
Module JSMapProps.
Import JSMap.

Section Entries.
Context {V : Type}.
Implicit Types (m : JSMap.t V) (k : string) (v : V).

Lemma get_set_eq k v m : get k (set k v m) = Some v.
Proof.
  induction m as [|[k' v'] m IH]; simpl.
  - by rewrite String.eqb_refl.
  - destruct (String.eqb k' k) eqn:He; simpl; by rewrite He.
Qed.

Lemma get_set_ne k k' v m : k <> k' -> get k' (set k v m) = get k' m.
Proof.
  intros Hne. induction m as [|[k0 v0] m IH]; simpl.
  - by rewrite (proj2 (String.eqb_neq k k')).
  - destruct (String.eqb k0 k) eqn:He; simpl.
    + apply String.eqb_eq in He as ->.
      by rewrite (proj2 (String.eqb_neq k k')).
    + by rewrite IH.
Qed.

Lemma get_delete_eq k m : get k (delete k m) = None.
Proof.
  induction m as [|[k' v'] m IH]; simpl; [done|].
  destruct (String.eqb k' k) eqn:He; simpl; [done|]. by rewrite He.
Qed.

Lemma get_delete_ne k k' m : k <> k' -> get k' (delete k m) = get k' m.
Proof.
  intros Hne. induction m as [|[k0 v0] m IH]; simpl; [done|].
  destruct (String.eqb k0 k) eqn:He; simpl.
  - apply String.eqb_eq in He as ->.
    by rewrite (proj2 (String.eqb_neq k k')).
  - by rewrite IH.
Qed.

Lemma size_set k v m : size (set k v m) <= S (size m).
Proof.
  unfold size. induction m as [|[k' v'] m IH]; simpl; [done|].
  destruct (String.eqb k' k); simpl; lia.
Qed.

Lemma size_delete k m : size (delete k m) <= size m.
Proof.
  unfold size. induction m as [|[k' v'] m IH]; simpl; [done|].
  destruct (String.eqb k' k); simpl; lia.
Qed.

Lemma size_delete_first k m :
  firstKey m = Some k -> S (size (delete k m)) <= size m.
Proof.
  destruct m as [|[k' v'] m]; [done|]. intros [= ->].
  unfold size. simpl. rewrite String.eqb_refl.
  pose proof (size_delete k m). unfold size in *. lia.
Qed.

Lemma get_firstKey k m : firstKey m = Some k -> is_Some (get k m).
Proof.
  destruct m as [|[k' v'] m]; [done|]. intros [= ->]. simpl.
  rewrite String.eqb_refl. eauto.
Qed.

End Entries.
End JSMapProps.

(** ** The content provider and its cache *)
Module DecryptedContentProviderProps.
Import NodePath DecryptedContentProvider DecryptedContentProviderSpec
  JSMapProps.

Lemma provide_bounded env uri st :
  JSMap.size (cache st) <= MAX_CACHE_SIZE ->
  JSMap.size (cache (provideTextDocumentContent env uri st).2)
  <= MAX_CACHE_SIZE.
Proof.
  intros Hb. unfold provideTextDocumentContent.
  destruct (JSMap.get _ (cache st)); [done|].
  destruct (decrypt env _ _); [|done]. cbn [snd cache].
  etrans; [apply size_set|].
  unfold evictOldestIfNeeded.
  destruct (MAX_CACHE_SIZE <=? JSMap.size (cache st)) eqn:Hfull.
  - destruct (JSMap.firstKey (cache st)) as [k|] eqn:Hk.
    + pose proof (size_delete_first k _ Hk). lia.
    + destruct (cache st); [|done]. apply Nat.leb_le in Hfull.
      cbv in Hfull. lia.
  - apply Nat.leb_gt in Hfull. lia.
Qed.

Lemma refresh_bounded p st :
  JSMap.size (cache st) <= MAX_CACHE_SIZE ->
  JSMap.size (cache (refresh p st)) <= MAX_CACHE_SIZE.
Proof.
  intros Hb. unfold refresh.
  pose proof (size_delete p (cache st)).
  destruct (JSMap.has p (cache st)); cbn [cache]; lia.
Qed.

(** The cache never holds more than [MAX_CACHE_SIZE] = 20 documents:
    whatever previews are asked for and whatever paths are refreshed,
    starting from the provider as the constructor leaves it. *)
Lemma cache_never_exceeds_max env (calls : list Call) :
  JSMap.size (cache (foldl (call env) initial calls)) <= 20.
Proof.
  change 20 with MAX_CACHE_SIZE.
  assert (JSMap.size (cache initial) <= MAX_CACHE_SIZE) as H0
    by (cbv; lia).
  revert H0. generalize initial.
  induction calls as [|c calls IH]; intros st Hst; simpl; [done|].
  apply IH. destruct c; simpl.
  - by apply provide_bounded.
  - by apply refresh_bounded.
Qed.

(** What becomes of a request the cache cannot answer. When SOPS
    decrypts, the content (with its header) is returned and cached: the
    next request for the preview returns the same content and calls
    [decrypt] no more, whatever [decrypt] would return by then. When SOPS
    fails, a text describing the failure is returned in place of the
    content and nothing is cached: the cache is as it was, no event is
    fired, and the next request calls [decrypt] again. *)
Lemma provide_caches_successes_only env env' uri st :
  JSMap.get (pathOf uri) (cache st) = None ->
  let first := provideTextDocumentContent env uri st in
  decrypted first.2 = decrypted st ++ [pathOf uri]
  /\ fired first.2 = fired st
  /\ (forall text,
        decrypt env (length (decrypted st)) (pathOf uri) = Resolved text ->
        first.1 = addReadOnlyHeader text (pathOf uri)
        /\ provideTextDocumentContent env' uri first.2 = first)
  /\ (forall error,
        decrypt env (length (decrypted st)) (pathOf uri) = Rejected error ->
        first.1 = failureText error (pathOf uri)
        /\ cache first.2 = cache st
        /\ decrypted (provideTextDocumentContent env' uri first.2).2
           = decrypted st ++ [pathOf uri; pathOf uri]).
Proof.
  intros Hmiss. cbv zeta. unfold provideTextDocumentContent.
  fold (pathOf uri). rewrite Hmiss.
  destruct (decrypt env (length (decrypted st)) (pathOf uri)) as [text|error];
    cbn [fst snd cache decrypted fired].
  - split; [done|]. split; [done|]. split; [|done].
    intros ? [= <-]. by rewrite get_set_eq.
  - split; [done|]. split; [done|]. split; [done|].
    intros ? [= <-]. rewrite Hmiss. split; [done|]. split; [done|].
    destruct (decrypt env' _ _); cbn; by rewrite <- app_assoc.
Qed.

Lemma provide_caches_successes_only_witness :
  let first := provideTextDocumentContent Inputs.providerEnv
                 Inputs.otherPreviewUri initial in
  let failed := provideTextDocumentContent Inputs.failingProviderEnv
                  Scenario.previewUri initial in
  (first.1 = "revision: 0"
   /\ provideTextDocumentContent Inputs.failingProviderEnv
        Inputs.otherPreviewUri first.2 = first)
  /\ (failed.1 = failureText (SopsExn (SopsRunner.timeoutError 30000))
                   "/w/secrets.yaml"
      /\ cache failed.2 = []
      /\ decrypted (provideTextDocumentContent Inputs.providerEnv
                      Scenario.previewUri failed.2).2
         = ["/w/secrets.yaml"; "/w/secrets.yaml"]).
Proof.
  cbv zeta. split.
  - apply (proj1 (proj2 (proj2 (provide_caches_successes_only
                                  Inputs.providerEnv Inputs.failingProviderEnv
                                  Inputs.otherPreviewUri initial eq_refl)))
             "revision: 0").
    reflexivity.
  - apply (proj2 (proj2 (proj2 (provide_caches_successes_only
                                  Inputs.failingProviderEnv Inputs.providerEnv
                                  Scenario.previewUri initial eq_refl)))
             (SopsExn (SopsRunner.timeoutError 30000))).
    reflexivity.
Defined.

(** [refresh] drops the cached content of a path and of no other, and
    fires the change event once, for the URI [createPreviewUri] gives the
    preview of that file, when the path was cached and not at all when it
    was not. It calls [decrypt] itself never. *)
Lemma refresh_invalidates originalPath st :
  JSMap.get originalPath (cache (refresh originalPath st)) = None
  /\ (forall q, q <> originalPath ->
        JSMap.get q (cache (refresh originalPath st))
        = JSMap.get q (cache st))
  /\ fired (refresh originalPath st)
     = fired st
       ++ (if JSMap.has originalPath (cache st)
           then [DecryptedViewService.createPreviewUri (Uri_file originalPath)]
           else [])
  /\ decrypted (refresh originalPath st) = decrypted st.
Proof.
  unfold refresh.
  destruct (JSMap.has originalPath (cache st)); cbn [cache fired decrypted].
  - split; [apply get_delete_eq|]. split; [|done].
    intros q Hq. by apply get_delete_ne.
  - split; [apply get_delete_eq|]. split; [|by rewrite app_nil_r].
    intros q Hq. by apply get_delete_ne.
Qed.

(** With the cache full, a new preview evicts the entry that was inserted
    first, and only that one -- also when that entry has just been read:
    a read does not move an entry. *)
Lemma eviction_is_first_in_first_out env env0 uri uri0 st text :
  MAX_CACHE_SIZE <= JSMap.size (cache st) ->
  JSMap.firstKey (cache st) = Some (pathOf uri0) ->
  JSMap.get (pathOf uri) (cache st) = None ->
  decrypt env (length (decrypted st)) (pathOf uri) = Resolved text ->
  let read := provideTextDocumentContent env0 uri0 st in
  let st' := (provideTextDocumentContent env uri read.2).2 in
  read.2 = st
  /\ JSMap.get (pathOf uri0) (cache st') = None
  /\ JSMap.get (pathOf uri) (cache st')
     = Some (addReadOnlyHeader text (pathOf uri))
  /\ forall q, q <> pathOf uri0 -> q <> pathOf uri ->
       JSMap.get q (cache st') = JSMap.get q (cache st).
Proof.
  intros Hfull Hfirst Hmiss Hd. cbv zeta.
  destruct (get_firstKey _ _ Hfirst) as [c0 Hc0].
  assert (pathOf uri <> pathOf uri0) as Hne by congruence.
  assert ((provideTextDocumentContent env0 uri0 st).2 = st) as ->.
  { unfold provideTextDocumentContent. fold (pathOf uri0). by rewrite Hc0. }
  split; [done|].
  unfold provideTextDocumentContent. fold (pathOf uri). rewrite Hmiss, Hd.
  cbn [snd cache]. unfold evictOldestIfNeeded.
  rewrite (proj2 (Nat.leb_le _ _) Hfull), Hfirst.
  split; [|split].
  - rewrite get_set_ne by done. apply get_delete_eq.
  - apply get_set_eq.
  - intros q Hq0 Hq. rewrite get_set_ne by done. by apply get_delete_ne.
Qed.

Lemma eviction_is_first_in_first_out_witness :
  let read := provideTextDocumentContent Inputs.failingProviderEnv
                Inputs.oldestPreviewUri Inputs.fullProvider in
  let st' := (provideTextDocumentContent Inputs.providerEnv
                Inputs.otherPreviewUri read.2).2 in
  read.2 = Inputs.fullProvider
  /\ JSMap.get "/w/0.yaml" (cache st') = None
  /\ JSMap.get "/w/other.json" (cache st') = Some "revision: 0"
  /\ forall q, q <> "/w/0.yaml" -> q <> "/w/other.json" ->
       JSMap.get q (cache st') = JSMap.get q (cache Inputs.fullProvider).
Proof.
  apply (eviction_is_first_in_first_out Inputs.providerEnv
           Inputs.failingProviderEnv Inputs.otherPreviewUri
           Inputs.oldestPreviewUri Inputs.fullProvider "revision: 0");
    [vm_compute; lia|reflexivity..].
Defined.

(** The path travels in the query of the preview URI and comes back out
    of it: for a file with a path, [getOriginalPath] gives the path back
    and the provider decrypts that very file. *)
Lemma preview_uri_round_trip originalUri :
  fsPath originalUri <> "" ->
  DocumentWatcher.getOriginalPath
    (DecryptedViewService.createPreviewUri originalUri)
  = fsPath originalUri
  /\ forall env st,
       JSMap.get (fsPath originalUri) (cache st) = None ->
       decrypted (provideTextDocumentContent env
                    (DecryptedViewService.createPreviewUri originalUri) st).2
       = decrypted st ++ [fsPath originalUri].
Proof.
  intros Hne. split.
  - unfold DocumentWatcher.getOriginalPath. cbn.
    by rewrite bool_decide_eq_false_2.
  - intros env st Hmiss. unfold provideTextDocumentContent. cbn [query path].
    unfold DecryptedViewService.createPreviewUri. cbn [query path].
    rewrite bool_decide_eq_false_2 by done. rewrite Hmiss.
    by destruct (decrypt env _ _).
Qed.

Lemma preview_uri_round_trip_witness :
  DocumentWatcher.getOriginalPath
    (DecryptedViewService.createPreviewUri Scenario.secretsUri)
  = "/w/secrets.yaml".
Proof.
  apply (preview_uri_round_trip Scenario.secretsUri). discriminate.
Defined.

End DecryptedContentProviderProps.

(** ** Context keys and status bar *)
Module DocumentWatcherUiProps.
Import DocumentWatcher ContextManager StatusBarProvider DocumentWatcherUi
  DocumentWatcherUiSpec.

Lemma updateContext_governed env tracker u document :
  match updateContext env tracker u document with
  | Some (r, st) => r = governed env u /\ (st = Unknown <-> r = false)
  | None => governed env u = false
  end.
Proof.
  unfold updateContext, governed.
  destruct (String.eqb (scheme u) "file"),
    (String.eqb (scheme u) "sops-decrypted"); simpl; try done.
  all: destruct (hasMatchingRule env (fileUriOf u)); simpl; [|done].
  all: split; [done|].
  all: destruct (FileStateTracker.isMarkedDecrypted _ _); [done|].
  all: by destruct document; destruct (_ : bool).
Qed.

Lemma setFileContext_lookup r s c :
  setFileContext r s c !! IS_SOPS_FILE = Some r
  /\ setFileContext r s c !! HAS_MATCHING_RULE = Some r
  /\ setFileContext r s c !! IS_ENCRYPTED_FILE
     = Some (r && bool_decide (s = Encrypted))
  /\ setFileContext r s c !! IS_DECRYPTED_FILE
     = Some (r && bool_decide (s = Decrypted \/ s = PlainText))
  /\ setFileContext r s c !! USE_EDIT_IN_PLACE = c !! USE_EDIT_IN_PLACE.
Proof.
  unfold setFileContext, setContext.
  repeat split;
    repeat first [ rewrite lookup_insert_eq
                 | rewrite lookup_insert_ne by done ];
    try done; by destruct s.
Qed.

Lemma clearContext_lookup c :
  clearContext c !! IS_SOPS_FILE = Some false
  /\ clearContext c !! HAS_MATCHING_RULE = Some false
  /\ clearContext c !! IS_ENCRYPTED_FILE = Some false
  /\ clearContext c !! IS_DECRYPTED_FILE = Some false
  /\ clearContext c !! USE_EDIT_IN_PLACE = c !! USE_EDIT_IN_PLACE.
Proof.
  unfold clearContext, setContext.
  repeat split;
    repeat first [ rewrite lookup_insert_eq
                 | rewrite lookup_insert_ne by done ];
    done.
Qed.

(** The context keys [updateContext] leaves behind, for any URI, document
    and decrypted-set: [isSopsFile] and [hasMatchingRule] both say whether
    the file is governed by a rule; [isEncryptedFile] and [isDecryptedFile]
    are never both set, and exactly one of them is set for a governed
    file -- [isDecryptedFile] also for a governed file that was never
    encrypted; for a URI of another scheme or a file without a rule all
    four are false. The key [useEditInPlace] is not touched. *)
Lemma updateContext_keys env shouldShow tracker u document ui :
  let c := context (runUpdateContext env shouldShow tracker u document ui) in
  c !! IS_SOPS_FILE = Some (governed env u)
  /\ c !! HAS_MATCHING_RULE = Some (governed env u)
  /\ (exists e d,
        c !! IS_ENCRYPTED_FILE = Some e /\ c !! IS_DECRYPTED_FILE = Some d
        /\ xorb e d = governed env u
        /\ (e = true <->
            exists r, updateContext env tracker u document
                      = Some (r, Encrypted)))
  /\ c !! USE_EDIT_IN_PLACE = context ui !! USE_EDIT_IN_PLACE.
Proof.
  cbv zeta. unfold runUpdateContext.
  pose proof (updateContext_governed env tracker u document) as Hg.
  destruct (updateContext env tracker u document) as [[r st]|];
    cbn [context].
  - destruct Hg as [<- Hu].
    destruct (setFileContext_lookup r st (context ui))
      as (-> & -> & He & Hd & ->).
    split; [done|]. split; [done|]. split; [|done].
    eexists _, _. split; [exact He|]. split; [exact Hd|].
    destruct r, st; cbn; try (split; [done|]).
    all: try by (split; [done|intros [? [=]]]).
    all: try by (split; [eauto|done]).
    all: exfalso; first [ by discriminate (proj1 Hu eq_refl)
                        | by discriminate (proj2 Hu eq_refl) ].
  - rewrite Hg.
    destruct (clearContext_lookup (context ui)) as (-> & -> & He & Hd & ->).
    split; [done|]. split; [done|]. split; [|done].
    exists false, false. split; [done|]. split; [done|]. split; [done|].
    split; [done|by intros [? ?]].
Qed.

Lemma replay_snoc calls c :
  replay (calls ++ [c]) = itemStep (replay calls) c.
Proof. unfold replay. by rewrite foldl_app. Qed.

Lemma show_replay st :
  replay (itemCalls st) = Some (visible st) ->
  replay (itemCalls (show st)) = Some (visible (show st))
  /\ visible (show st) = true.
Proof.
  intros H. unfold show. destruct (visible st) eqn:Hv; cbn.
  - by rewrite Hv.
  - by rewrite replay_snoc, H.
Qed.

Lemma hide_replay st :
  replay (itemCalls st) = Some (visible st) ->
  replay (itemCalls (hide st)) = Some (visible (hide st))
  /\ visible (hide st) = false.
Proof.
  intros H. unfold hide. destruct (visible st) eqn:Hv; cbn.
  - by rewrite replay_snoc, H.
  - by rewrite Hv.
Qed.

Lemma update_replay r s b st :
  replay (itemCalls st) = Some (visible st) ->
  replay (itemCalls (update r s b st)) = Some (visible (update r s b st))
  /\ visible (update r s b st)
     = b && r && negb (bool_decide (s = Unknown)).
Proof.
  intros H. unfold update.
  destruct b, r; cbn [negb orb andb]; try by apply hide_replay.
  destruct s; cbn [bool_decide]; try by apply hide_replay.
  all: by apply show_replay.
Qed.

Lemma apply_replay st op :
  replay (itemCalls st) = Some (visible st) ->
  replay (itemCalls (apply st op)) = Some (visible (apply st op)).
Proof.
  intros H. destruct op; cbn.
  - by apply update_replay.
  - by apply show_replay.
  - by apply hide_replay.
Qed.

(** The flag [visible] never drifts from the item: after any sequence of
    [update], [show] and [hide] on a new provider, replaying the calls
    made on the status bar item gives the visibility the flag records,
    and none of those calls was redundant. After an [updateContext] run
    on such a provider the item is visible exactly when the setting
    allows it and the file is governed by a rule. *)
Lemma statusBar_in_sync (ops : list Op) :
  let st := foldl apply initial ops in
  replay (itemCalls st) = Some (visible st)
  /\ forall env shouldShow tracker u document c,
       visible (statusBar (runUpdateContext env shouldShow tracker u document
                             {| context := c; statusBar := st |}))
       = shouldShow && governed env u.
Proof.
  cbv zeta.
  assert (replay (itemCalls (foldl apply initial ops))
          = Some (visible (foldl apply initial ops))) as Hinv.
  { assert (replay (itemCalls initial) = Some (visible initial)) as H0 by done.
    revert H0. generalize initial.
    induction ops as [|op ops IH]; intros st Hst; simpl; [done|].
    by apply IH, apply_replay. }
  split; [done|].
  intros env shouldShow tracker u document c. unfold runUpdateContext.
  pose proof (updateContext_governed env tracker u document) as Hg.
  destruct (updateContext env tracker u document) as [[r s]|]; cbn.
  - destruct Hg as [<- Hu].
    rewrite (proj2 (update_replay r s shouldShow _ Hinv)).
    destruct r, s, shouldShow; try done.
    all: exfalso; by discriminate (proj1 Hu eq_refl).
  - rewrite Hg, andb_false_r. by apply hide_replay.
Qed.

End DocumentWatcherUiProps.

(** ** The configuration: parsing, matching, the nearest [.sops.yaml] *)
Module ConfigParserProps.
Import ConfigParser RulesMatcher RulesMatcherSpec.

Lemma compiles_ok env name index pattern :
  compiles env name index pattern = inr tt ->
  forall p, given pattern = Some p -> syntaxError (engine env) p = None.
Proof.
  unfold compiles, given. destruct pattern as [s|]; [|done].
  destruct (String.eqb s ""); simpl; [done|].
  destruct (syntaxError (engine env) s) eqn:He; [done|].
  by intros _ p [= <-].
Qed.

Lemma validateRule_ok env rule index r :
  validateRule env rule index = inr r ->
  compilable (engine env) r
  /\ (forall s, path_regex r = Some s
                <-> Yaml.field "path_regex" rule = Some (Yaml.Str s))
  /\ (forall s, filename_regex r = Some s
                <-> Yaml.field "filename_regex" rule = Some (Yaml.Str s)).
Proof.
  unfold validateRule, stringField.
  assert (forall (P : Prop), (exists x : Exn, inl x = (inr r : Exn + _)) -> P)
    as _ by (intros P [? [=]]).
  destruct rule as [| | | |items|entries]; try done.
  all: destruct (Yaml.field "path_regex" _) as [[| | |s1| |]|] eqn:H1;
    try done.
  all: destruct (Yaml.field "filename_regex" _) as [[| | |s2| |]|] eqn:H2;
    try done.
  all: destruct (compiles env "path_regex" index _) as [|[]] eqn:Hc1;
    try done.
  all: destruct (compiles env "filename_regex" index _) as [|[]] eqn:Hc2;
    try done.
  all: intros [= <-]; cbn [path_regex filename_regex].
  all: split; [split; [by apply (compiles_ok _ _ _ _ Hc1)
                      |by apply (compiles_ok _ _ _ _ Hc2)]|].
  all: split; intros s; split; congruence.
Qed.

Lemma validateRules_ok env items index rs :
  validateRules env items index = inr rs ->
  length rs = length items /\ Forall (compilable (engine env)) rs.
Proof.
  revert index rs. induction items as [|item items IH]; intros index rs; simpl.
  - by intros [= <-].
  - destruct (validateRule env item index) as [|r] eqn:Hr; [done|].
    destruct (validateRules env items (S index)) as [|rs'] eqn:Hrs; [done|].
    intros [= <-]. destruct (IH _ _ Hrs) as [Hlen Hall].
    split; [simpl; by rewrite Hlen|].
    constructor; [|done]. by apply (validateRule_ok _ _ _ _ Hr).
Qed.

(** A configuration that [parseConfig] accepts was parsed from a YAML
    mapping whose [creation_rules] is a sequence; it has one rule for each
    entry of the sequence, and every pattern its rules are matched by
    compiles. Content that is empty, that lacks [creation_rules] or gives
    it an empty value, or whose [creation_rules] is not a sequence is
    rejected. *)
Lemma parseConfig_accepts env content cfg :
  parseConfig env content = inr cfg ->
  exists entries items,
    parseYaml env content = inr (Yaml.Map entries)
    /\ JSMap.get "creation_rules" entries = Some (Yaml.Seq items)
    /\ length (creation_rules cfg) = length items
    /\ Forall (compilable (engine env)) (creation_rules cfg).
Proof.
  unfold parseConfig.
  destruct (parseYaml env content) as [e|parsed]; [done|].
  destruct (negb (Yaml.truthy parsed)); [done|].
  destruct (Yaml.field "creation_rules" parsed) as [rules|] eqn:Hf; [|done].
  destruct (negb (Yaml.truthy rules)); [done|].
  destruct rules as [| | | |items|]; try done.
  destruct (validateRules env items 0) as [|rs] eqn:Hrs; [done|].
  intros [= <-]. destruct parsed as [| | | | |entries]; try done.
  exists entries, items. split; [done|]. split; [done|].
  by apply (validateRules_ok _ _ _ _ Hrs).
Qed.

Lemma parseConfig_accepts_witness :
  exists entries items,
    parseYaml Inputs.parserEnv Inputs.sopsYamlText = inr (Yaml.Map entries)
    /\ JSMap.get "creation_rules" entries = Some (Yaml.Seq items)
    /\ length [Inputs.secretsRule] = length items
    /\ Forall (compilable (engine Inputs.parserEnv)) [Inputs.secretsRule].
Proof.
  apply (parseConfig_accepts Inputs.parserEnv Inputs.sopsYamlText
           {| creation_rules := [Inputs.secretsRule] |}).
  reflexivity.
Defined.

End ConfigParserProps.

Module RulesMatcherProps.
Import ConfigParser RulesMatcher RulesMatcherSpec JSMapProps.

Lemma coherent_set re pattern cache :
  coherent re cache ->
  coherent re (JSMap.set pattern (compiled re pattern) cache).
Proof.
  intros Hc p v. destruct (decide (pattern = p)) as [<-|Hne].
  - rewrite get_set_eq. by intros [= <-].
  - rewrite get_set_ne by done. apply Hc.
Qed.

Lemma get_delete_Some {V} k k' (v : V) m :
  JSMap.get k' (JSMap.delete k m) = Some v -> JSMap.get k' m = Some v.
Proof.
  destruct (decide (k = k')) as [<-|Hne].
  - by rewrite get_delete_eq.
  - by rewrite get_delete_ne.
Qed.

Lemma coherent_delete re k cache :
  coherent re cache -> coherent re (JSMap.delete k cache).
Proof. intros Hc p v Hg. by apply Hc, (get_delete_Some k). Qed.

Lemma getCachedRegex_coherent re pattern cache :
  coherent re cache ->
  (getCachedRegex re pattern cache).1 = compiled re pattern
  /\ coherent re (getCachedRegex re pattern cache).2.
Proof.
  intros Hc. unfold getCachedRegex.
  destruct (JSMap.get pattern cache) as [cached|] eqn:Hg; cbn [fst snd].
  - split; [by apply Hc|done].
  - pose proof (coherent_set re pattern) as Hset. unfold compiled in *.
    destruct (syntaxError re pattern); cbn [fst snd].
    + split; [done|]. by apply Hset.
    + split; [done|]. apply Hset.
      destruct (MAX_REGEX_CACHE_SIZE <=? JSMap.size cache); [|done].
      destruct (JSMap.firstKey cache); [|done]. by apply coherent_delete.
Qed.

Lemma ruleMatches_coherent re rule relativePath filename cache :
  coherent re cache ->
  (ruleMatches re rule relativePath filename cache).1
  = matchesBy re rule relativePath filename
  /\ coherent re (ruleMatches re rule relativePath filename cache).2.
Proof.
  intros Hc. unfold ruleMatches, matchesBy.
  destruct (given (path_regex rule)) as [p|].
  - destruct (getCachedRegex_coherent re p cache Hc) as [H1 H2].
    destruct (getCachedRegex re p cache) as [regex cache']. simpl in *.
    by rewrite H1.
  - destruct (given (filename_regex rule)) as [p|]; [|done].
    destruct (getCachedRegex_coherent re p cache Hc) as [H1 H2].
    destruct (getCachedRegex re p cache) as [regex cache']. simpl in *.
    by rewrite H1.
Qed.

Lemma firstMatch_find re rules relativePath filename cache :
  coherent re cache ->
  (firstMatch re rules relativePath filename cache).1
  = find (fun rule => matchesBy re rule relativePath filename) rules
  /\ coherent re (firstMatch re rules relativePath filename cache).2.
Proof.
  revert cache. induction rules as [|rule rules IH]; intros cache Hc; simpl;
    [done|].
  destruct (ruleMatches_coherent re rule relativePath filename cache Hc)
    as [H1 H2].
  destruct (ruleMatches re rule relativePath filename cache)
    as [matches cache']. simpl in *. subst matches.
  destruct (matchesBy re rule relativePath filename); [done|].
  by apply IH.
Qed.

(** First match, and the cache is transparent: starting from a cache whose
    entries are what compiling their patterns gives -- the empty cache is
    one -- [findMatchingRule] returns the first rule of the list whose
    pattern tests true on the file ([path_regex] on the relative path, or
    else [filename_regex] on the name, or neither for a rule that gives no
    pattern), whatever the cache holds, and leaves such a cache behind. *)
Lemma findMatchingRule_first_match re relative m fileUri cache :
  coherent re cache ->
  let '(normalizedPath, filename) := getNormalizedPaths relative m fileUri in
  (findMatchingRule re relative m fileUri cache).1
  = find (fun rule => matchesBy re rule normalizedPath filename)
         (creation_rules (config m))
  /\ coherent re (findMatchingRule re relative m fileUri cache).2.
Proof.
  intros Hc. unfold findMatchingRule.
  destruct (getNormalizedPaths relative m fileUri) as [np fn].
  by apply firstMatch_find.
Qed.

Lemma findMatchingRule_first_match_witness :
  let re := {| syntaxError := fun _ => None;
               test := fun pattern s => JSString.includes s pattern |} in
  let secrets := {| path_regex := Some "secrets"; filename_regex := None;
                    encrypted_regex := None; encrypted_suffix := None;
                    unencrypted_suffix := None; age := None; pgp := None;
                    kms := None; gcp_kms := None; azure_kv := None;
                    hc_vault_transit := None; key_groups := None;
                    shamir_threshold := None |} in
  let m := {| config := {| creation_rules := [secrets] |};
              configDir := "/w" |} in
  (findMatchingRule re (fun _ _ => "secrets.yaml") m Scenario.secretsUri []).1
  = Some secrets.
Proof.
  cbv zeta.
  refine (proj1 (findMatchingRule_first_match
                   {| syntaxError := fun _ => None;
                      test := fun pattern s => JSString.includes s pattern |}
                   (fun _ _ => "secrets.yaml") _ Scenario.secretsUri [] _)).
  by intros p v.
Defined.

Lemma ruleMatches_catchAll re rule relativePath filename cache :
  catchAll rule ->
  ruleMatches re rule relativePath filename cache = (true, cache).
Proof. intros [H1 H2]. unfold ruleMatches. by rewrite H1, H2. Qed.

(** A rule that gives neither [path_regex] nor [filename_regex] -- an
    empty pattern counts as not given -- matches every file: with such a
    rule in the list, [findMatchingRule] always finds a rule, and the
    rules that come after it are never looked at. This holds for any
    regex cache. *)
Lemma catch_all_rule_shadows re before rule after normalizedPath filename
    cache :
  catchAll rule ->
  firstMatch re (before ++ rule :: after) normalizedPath filename cache
  = firstMatch re (before ++ [rule]) normalizedPath filename cache
  /\ is_Some (firstMatch re (before ++ rule :: after) normalizedPath filename
                cache).1.
Proof.
  intros Hcatch. revert cache.
  induction before as [|r before IH]; intros cache; simpl.
  - rewrite (ruleMatches_catchAll re rule _ _ cache Hcatch). eauto.
  - destruct (ruleMatches re r normalizedPath filename cache)
      as [[] cache']; [eauto|]. apply IH.
Qed.

Lemma catch_all_rule_shadows_witness :
  let re := {| syntaxError := fun _ => None;
               test := fun pattern s => JSString.includes s pattern |} in
  let blank := {| path_regex := Some ""; filename_regex := None;
                  encrypted_regex := None; encrypted_suffix := None;
                  unencrypted_suffix := None; age := None; pgp := None;
                  kms := None; gcp_kms := None; azure_kv := None;
                  hc_vault_transit := None; key_groups := None;
                  shamir_threshold := None |} in
  let secrets := {| path_regex := Some "secrets"; filename_regex := None;
                    encrypted_regex := None; encrypted_suffix := None;
                    unencrypted_suffix := None; age := None; pgp := None;
                    kms := None; gcp_kms := None; azure_kv := None;
                    hc_vault_transit := None; key_groups := None;
                    shamir_threshold := None |} in
  firstMatch re ([] ++ blank :: [secrets]) "secrets.yaml" "secrets.yaml" []
  = firstMatch re ([] ++ [blank]) "secrets.yaml" "secrets.yaml" []
  /\ is_Some (firstMatch re ([] ++ blank :: [secrets]) "secrets.yaml"
                "secrets.yaml" []).1.
Proof.
  cbv zeta.
  apply (catch_all_rule_shadows _ [] _ _ "secrets.yaml" "secrets.yaml" []).
  split; reflexivity.
Defined.

End RulesMatcherProps.

Module ConfigManagerProps.
Import JSString NodePath ConfigParser RulesMatcher ConfigManager NodePathProps.

Lemma length_chars s : length (chars s) = String.length s.
Proof. induction s as [|c s IH]; [done|]. simpl. by rewrite IH. Qed.

Lemma length_str l : String.length (str l) = length l.
Proof. by rewrite <- length_chars, chars_str. Qed.

Lemma dropWhile_head f l c l' : dropWhile f l = c :: l' -> f c = false.
Proof.
  induction l as [|a l IH]; simpl; [done|].
  destruct (f a) eqn:Ha; [done|]. by intros [= <- <-].
Qed.

(** [dirname] returns its argument, or [.], or something shorter. *)
Lemma dirname_cases p :
  dirname p = p \/ dirname p = "."
  \/ String.length (dirname p) < String.length p.
Proof.
  unfold dirname. destruct (chars p) as [|c0 rest] eqn:Hp; [by right; left|].
  assert (String.length p = S (length rest)) as Hlen
    by (by rewrite <- length_chars, Hp).
  assert (p = str (c0 :: rest)) as Hstr by (by rewrite <- Hp, str_chars).
  set (l1 := dropWhile isSlash (reverse rest)).
  assert (length l1 <= length rest) as Hl1.
  { unfold l1. etrans; [apply length_dropWhile|]. by rewrite length_reverse. }
  destruct (dropWhile (fun c => negb (isSlash c)) l1) as [|x before] eqn:Hin.
  - destruct (isSlash c0) eqn:Hc0; [|by right; left].
    destruct rest as [|r rest].
    + left. rewrite Hstr. apply Ascii.eqb_eq in Hc0. by rewrite Hc0.
    + right; right. rewrite Hlen. simpl. lia.
  - right; right.
    assert (S (length before) < length l1) as Hlt.
    { destruct l1 as [|a l1'] eqn:Hl; [done|].
      pose proof (dropWhile_head _ _ _ _ Hl) as Ha.
      simpl in Hin. rewrite Ha in Hin. simpl in Hin.
      pose proof (length_dropWhile (fun c => negb (isSlash c)) l1') as Hd.
      rewrite Hin in Hd. simpl in *. lia. }
    destruct (isSlash c0 && bool_decide (before = [])).
    + rewrite Hlen. simpl. lia.
    + rewrite length_str, Hlen. simpl. rewrite length_reverse. lia.
Qed.

Lemma walkUp_ends fuel st workspaceRoot currentDir :
  (if String.eqb currentDir "." then 1 else String.length currentDir + 2)
  <= fuel ->
  exists r,
    walkUp fuel st workspaceRoot currentDir = Some r
    /\ forall lc, r = Some lc ->
         exists dir, startsWith dir workspaceRoot = true
                     /\ configIn st dir = Some lc.
Proof.
  revert currentDir. induction fuel as [|fuel IH]; intros d Hfuel.
  { destruct (String.eqb d "."); lia. }
  simpl. destruct (startsWith d workspaceRoot) eqn:Hs; [|by eexists].
  destruct (configIn st d) as [lc|] eqn:Hc.
  { eexists. split; [done|]. intros ? [= <-]. eauto. }
  destruct (String.eqb (dirname d) d) eqn:He; [by eexists|].
  apply String.eqb_neq in He. apply IH.
  assert (d <> ".") as Hd by (intros ->; by apply He).
  rewrite (proj2 (String.eqb_neq d ".")) in Hfuel by done.
  destruct (dirname_cases d) as [H|[H|H]]; [done| |].
  - rewrite H. simpl. lia.
  - destruct (String.eqb (dirname d) "."); lia.
Qed.

Lemma findNearestConfig_ends env st fileUri :
  exists r,
    findNearestConfig env st fileUri = Some r
    /\ forall lc, r = Some lc ->
         exists workspaceRoot dir,
           getWorkspaceFolder env fileUri = Some workspaceRoot
           /\ startsWith dir workspaceRoot = true
           /\ configIn st dir = Some lc.
Proof.
  unfold findNearestConfig.
  destruct (getWorkspaceFolder env fileUri) as [root|]; [|by eexists].
  destruct (walkUp_ends (String.length (dirname (fsPath fileUri)) + 2) st root
              (dirname (fsPath fileUri))) as (r & Hr & Hin).
  { destruct (String.eqb _ "."); lia. }
  exists r. split; [done|]. intros lc Hlc.
  destruct (Hin lc Hlc) as (dir & ? & ?). eauto.
Qed.

(** [findNearestConfig] always comes to an end. A configuration it returns
    is loaded from [.sops.yaml] or [.sops.yml] in a directory whose path
    starts with the workspace folder's; a file outside every workspace
    folder has none; and a configuration in the file's own directory wins
    over every configuration further up, [.sops.yaml] over [.sops.yml]. *)
Lemma findNearestConfig_nearest env st fileUri :
  exists r,
    findNearestConfig env st fileUri = Some r
    /\ (forall lc, r = Some lc ->
          exists workspaceRoot dir,
            getWorkspaceFolder env fileUri = Some workspaceRoot
            /\ startsWith dir workspaceRoot = true
            /\ (configs st !! join dir ".sops.yaml" = Some lc
                \/ configs st !! join dir ".sops.yaml" = None
                   /\ configs st !! join dir ".sops.yml" = Some lc))
    /\ (getWorkspaceFolder env fileUri = None -> r = None)
    /\ (forall workspaceRoot lc,
          getWorkspaceFolder env fileUri = Some workspaceRoot ->
          startsWith (dirname (fsPath fileUri)) workspaceRoot = true ->
          configIn st (dirname (fsPath fileUri)) = Some lc ->
          r = Some lc).
Proof.
  destruct (findNearestConfig_ends env st fileUri) as (r & Hr & Hin).
  exists r. split; [done|]. split; [|split].
  - intros lc Hlc. destruct (Hin lc Hlc) as (root & dir & Hw & Hs & Hc).
    exists root, dir. split; [done|]. split; [done|].
    unfold configIn in Hc.
    destruct (configs st !! join dir ".sops.yaml"); [left|right]; by simplify_eq.
  - intros Hw. unfold findNearestConfig in Hr. rewrite Hw in Hr.
    by simplify_eq.
  - intros root lc Hw Hs Hc. unfold findNearestConfig in Hr.
    rewrite Hw in Hr. rewrite Nat.add_comm in Hr. simpl in Hr.
    rewrite Hs, Hc in Hr. by simplify_eq.
Qed.

Lemma loadConfig_lookup env configUri st :
  configs (loadConfig env configUri st) !! fsPath configUri
  = match readFile env (fsPath configUri) with
    | Some text =>
        match parseConfig (parser env) text with
        | inr config =>
            Some {| loadedConfig := config; configPath := fsPath configUri;
                    loadedDir := dirname (fsPath configUri) |}
        | inl _ => None
        end
    | None => None
    end.
Proof.
  unfold loadConfig.
  destruct (readFile env (fsPath configUri)) as [text|]; cbn.
  - destruct (parseConfig (parser env) text); cbn.
    + apply lookup_delete_eq.
    + apply lookup_insert_eq.
  - apply lookup_delete_eq.
Qed.

Lemma loadConfig_other env configUri st q :
  q <> fsPath configUri ->
  configs (loadConfig env configUri st) !! q = configs st !! q.
Proof.
  intros Hq. unfold loadConfig.
  destruct (match readFile env (fsPath configUri) with
            | Some text => _ | None => _ end); cbn.
  - by apply lookup_insert_ne.
  - by apply lookup_delete_ne.
Qed.

(** A configuration file that can no longer be read or parsed takes its
    rules with it: after [reloadConfig] the manager holds no configuration
    for that path, the regex cache is empty and the change event has
    fired; the other configurations are as they were, and when there is
    no other one, no file of any workspace matches a rule any more. *)
Lemma reloadConfig_invalid_drops_rules env configUri st :
  (readFile env (fsPath configUri) = None
   \/ exists text e, readFile env (fsPath configUri) = Some text
                     /\ parseConfig (parser env) text = inl e) ->
  let st' := reloadConfig env configUri st in
  configs st' = delete (fsPath configUri) (configs st)
  /\ regexCache st' = []
  /\ changed st' = changed st ++ [configUri]
  /\ (delete (fsPath configUri) (configs st) = ∅ ->
      forall fileUri, hasMatchingRule env st' fileUri = Some (false, st')).
Proof.
  intros Hbad. cbv zeta.
  assert (reloadConfig env configUri st
          = {| configs := delete (fsPath configUri) (configs st);
               regexCache := []; changed := changed st ++ [configUri] |})
    as ->.
  { unfold reloadConfig, loadConfig. cbn.
    destruct Hbad as [-> | (text & e & -> & ->)]; done. }
  cbn. repeat split; try done.
  intros Hempty fileUri. rewrite Hempty.
  unfold hasMatchingRule, findMatchingRule.
  set (st0 := {| configs := ∅; regexCache := []; changed := _ |}).
  destruct (findNearestConfig_ends env st0 fileUri) as (r & -> & Hin).
  destruct r as [lc|]; [|done].
  destruct (Hin lc eq_refl) as (root & dir & _ & _ & Hc).
  unfold configIn in Hc. cbn in Hc. by rewrite !lookup_empty in Hc.
Qed.

Lemma reloadConfig_invalid_drops_rules_witness :
  let st' := reloadConfig Inputs.brokenEnv (Uri_file "/w/.sops.yaml")
               Inputs.loadedManager in
  configs Inputs.loadedManager !! "/w/.sops.yaml"
  = Some {| loadedConfig := {| creation_rules := [Inputs.secretsRule] |};
            configPath := "/w/.sops.yaml"; loadedDir := "/w" |}
  /\ hasMatchingRule Inputs.managerEnv Inputs.loadedManager
       (Uri_file "/w/secrets/db.yaml")
     = Some (true, {| configs := configs Inputs.loadedManager;
                      regexCache := [("secrets", Some "secrets")];
                      changed := [] |})
  /\ configs st' = delete "/w/.sops.yaml" (configs Inputs.loadedManager)
  /\ hasMatchingRule Inputs.brokenEnv st' (Uri_file "/w/secrets/db.yaml")
     = Some (false, st').
Proof.
  cbv zeta. split; [reflexivity|]. split; [reflexivity|].
  pose proof (reloadConfig_invalid_drops_rules Inputs.brokenEnv
                (Uri_file "/w/.sops.yaml") Inputs.loadedManager) as H.
  cbv zeta in H.
  destruct H as (Hc & _ & _ & Hnone).
  { right. exists "creation_rules: [{path_", (ErrorExn "YAMLParseError").
    split; reflexivity. }
  split; [exact Hc|]. apply Hnone.
  apply map_eq. intros k. rewrite lookup_empty.
  destruct (decide (k = "/w/.sops.yaml")) as [->|Hne].
  - apply lookup_delete_eq.
  - rewrite lookup_delete_ne by done. unfold Inputs.loadedManager.
    cbn. rewrite lookup_insert_ne by done. apply lookup_empty.
Defined.

End ConfigManagerProps.

(** ** The regex cache behind the configuration manager *)
Module RegexCacheProps.
Import JSString NodePath ConfigParser RulesMatcher RulesMatcherSpec
  ConfigManager ConfigManagerSpec JSMapProps ConfigParserProps
  RulesMatcherProps ConfigManagerProps.

Lemma firstKey_None {V} (m : JSMap.t V) :
  JSMap.firstKey m = None -> JSMap.size m = 0.
Proof. by destruct m as [|[k v] m]. Qed.

Lemma getCachedRegex_tidy re pattern cache :
  syntaxError re pattern = None ->
  tidy cache -> tidy (getCachedRegex re pattern cache).2.
Proof.
  intros Hok [Hsize Hsome]. unfold getCachedRegex.
  destruct (JSMap.get pattern cache) as [cached|] eqn:Hg; cbn [snd];
    [done|].
  rewrite Hok. cbn [snd].
  set (cache1 := if MAX_REGEX_CACHE_SIZE <=? JSMap.size cache then _ else _).
  assert (JSMap.size cache1 < MAX_REGEX_CACHE_SIZE
          /\ forall p v, JSMap.get p cache1 = Some v -> v = Some p)
    as [Hlt Hsome1].
  { subst cache1.
    destruct (Nat.leb_spec MAX_REGEX_CACHE_SIZE (JSMap.size cache))
      as [Hfull|Hroom]; [|done].
    destruct (JSMap.firstKey cache) as [k|] eqn:Hk.
    - split.
      + pose proof (size_delete_first k cache Hk). lia.
      + intros p v Hp. by apply Hsome, (get_delete_Some k).
    - apply firstKey_None in Hk. unfold MAX_REGEX_CACHE_SIZE in *. lia. }
  split.
  - pose proof (size_set pattern (Some pattern) cache1). lia.
  - intros p v. destruct (decide (pattern = p)) as [<-|Hne].
    + rewrite get_set_eq. by intros [= <-].
    + rewrite get_set_ne by done. apply Hsome1.
Qed.

Lemma ruleMatches_tidy re rule relativePath filename cache :
  compilable re rule ->
  tidy cache -> tidy (ruleMatches re rule relativePath filename cache).2.
Proof.
  intros [Hp Hf] Ht. unfold ruleMatches.
  destruct (given (path_regex rule)) as [p|].
  - pose proof (getCachedRegex_tidy re p cache (Hp p eq_refl) Ht).
    by destruct (getCachedRegex re p cache).
  - destruct (given (filename_regex rule)) as [p|]; [|done].
    pose proof (getCachedRegex_tidy re p cache (Hf p eq_refl) Ht).
    by destruct (getCachedRegex re p cache).
Qed.

Lemma firstMatch_tidy re rules relativePath filename cache :
  Forall (compilable re) rules ->
  tidy cache -> tidy (firstMatch re rules relativePath filename cache).2.
Proof.
  intros Hall. revert cache.
  induction Hall as [|rule rules Hrule Hall IH]; intros cache Ht; simpl;
    [done|].
  pose proof (ruleMatches_tidy re rule relativePath filename cache Hrule Ht).
  destruct (ruleMatches re rule relativePath filename cache)
    as [[] cache']; [done|]. by apply IH.
Qed.

Lemma loadConfig_sound env configUri st :
  sound (engine (parser env)) st ->
  sound (engine (parser env)) (loadConfig env configUri st).
Proof.
  intros [Hrules Ht]. split.
  - intros p lc. destruct (decide (p = fsPath configUri)) as [->|Hne].
    + rewrite loadConfig_lookup.
      destruct (readFile env (fsPath configUri)) as [text|]; [|done].
      destruct (parseConfig (parser env) text) as [|cfg] eqn:Hp; [done|].
      intros [= <-]. cbn. unfold parseConfig in Hp.
      destruct (parseYaml (parser env) text) as [|parsed]; [done|].
      destruct (negb (Yaml.truthy parsed)); [done|].
      destruct (Yaml.field "creation_rules" parsed) as [rules|]; [|done].
      destruct (negb (Yaml.truthy rules)); [done|].
      destruct rules as [| | | |items|]; try done.
      destruct (validateRules (parser env) items 0) as [|rs] eqn:Hrs;
        [done|].
      injection Hp as <-. by apply (validateRules_ok _ _ _ _ Hrs).
    + rewrite loadConfig_other by done. apply Hrules.
  - unfold loadConfig.
    by destruct (match readFile env (fsPath configUri) with
                 | Some text => _ | None => _ end).
Qed.

Lemma findMatchingRule_sound env fileUri st :
  sound (engine (parser env)) st ->
  sound (engine (parser env))
    (match findMatchingRule env st fileUri with
     | Some (_, st') => st'
     | None => st
     end).
Proof.
  intros [Hrules Ht]. unfold findMatchingRule.
  destruct (findNearestConfig_ends env st fileUri) as (r & -> & Hin).
  destruct r as [lc|]; [|done].
  destruct (Hin lc eq_refl) as (root & dir & _ & _ & Hc).
  assert (Forall (compilable (engine (parser env)))
            (creation_rules (loadedConfig lc))) as Hall.
  { unfold configIn in Hc.
    destruct (configs st !! join dir ".sops.yaml") as [lc'|] eqn:H1.
    - injection Hc as <-. by apply (Hrules _ _ H1).
    - by apply (Hrules _ _ Hc). }
  unfold RulesMatcher.findMatchingRule.
  destruct (getNormalizedPaths (relative env) (matcher lc) fileUri)
    as [np fn].
  pose proof (firstMatch_tidy (engine (parser env)) _ np fn _ Hall Ht) as H.
  cbn [config matcher].
  destruct (firstMatch _ _ np fn (regexCache st)) as [rule cache'].
  by split.
Qed.

Lemma call_sound env c st :
  sound (engine (parser env)) st -> sound (engine (parser env)) (call env c st).
Proof.
  intros Hs. destruct c as [|u|u|u|u|u|]; cbn [call].
  - unfold initialize. destruct (hasWorkspaceFolders env); [|done].
    revert st Hs. induction (findFiles env) as [|f fs IH]; intros st Hs;
      [done|].
    cbn [foldl]. by apply IH, loadConfig_sound.
  - by apply loadConfig_sound.
  - destruct Hs as [Hrules _].
    pose proof (loadConfig_sound env u
                  {| configs := configs st;
                     regexCache := clearRegexCache (regexCache st);
                     changed := changed st |}) as [H1 H2].
    { split; [done|]. split; [cbn; lia|done]. }
    unfold reloadConfig. by split.
  - destruct Hs as [Hrules Ht]. split; [|done].
    intros p lc. cbn. rewrite lookup_delete_Some. intros [_ H].
    by apply (Hrules _ _ H).
  - by apply findMatchingRule_sound.
  - pose proof (findMatchingRule_sound env u st Hs) as H.
    unfold hasMatchingRule.
    by destruct (findMatchingRule env st u) as [[rule st']|].
  - destruct Hs as [_ Ht]. split; [|done]. intros p lc. cbn.
    by rewrite lookup_empty.
Qed.

(** Whatever calls are made on the manager, under one regex engine and
    with the files as they are at each call: the cache of compiled
    patterns never holds more than [MAX_REGEX_CACHE_SIZE] entries, and
    never a [null]. The patterns it is asked for all come from
    configurations [parseConfig] accepted, so the branch of
    [getCachedRegex] that stores [null] without looking at the size is
    never taken. *)
Lemma regex_cache_stays_bounded re (calls : list (Env * Call)) :
  Forall (fun ec => engine (parser ec.1) = re) calls ->
  JSMap.size (regexCache (after calls)) <= MAX_REGEX_CACHE_SIZE
  /\ forall pattern v,
       JSMap.get pattern (regexCache (after calls)) = Some v ->
       v = Some pattern.
Proof.
  intros Hre. unfold after.
  assert (sound re initial) as Hs.
  { split; [intros p lc; cbn; by rewrite lookup_empty|]. split; [cbn; lia|done]. }
  revert Hs. generalize initial.
  induction Hre as [|[env c] calls <- Hall IH]; intros st Hs; cbn [foldl].
  - apply Hs.
  - by apply IH, call_sound.
Qed.

Lemma regex_cache_stays_bounded_witness :
  regexCache (after [(Inputs.managerEnv, Initialize);
                     (Inputs.managerEnv,
                      HasMatchingRule (Uri_file "/w/secrets/db.yaml"));
                     (Inputs.managerEnv,
                      HasMatchingRule (Uri_file "/w/readme.md"))])
  = [("secrets", Some "secrets")]
  /\ JSMap.size (regexCache
       (after [(Inputs.managerEnv, Initialize);
               (Inputs.managerEnv,
                HasMatchingRule (Uri_file "/w/secrets/db.yaml"));
               (Inputs.managerEnv,
                HasMatchingRule (Uri_file "/w/readme.md"))]))
     <= MAX_REGEX_CACHE_SIZE.
Proof.
  split; [reflexivity|].
  apply (regex_cache_stays_bounded Inputs.wordEngine
           [(Inputs.managerEnv, Initialize);
            (Inputs.managerEnv,
             HasMatchingRule (Uri_file "/w/secrets/db.yaml"));
            (Inputs.managerEnv,
             HasMatchingRule (Uri_file "/w/readme.md"))]).
  repeat constructor.
Defined.

End RegexCacheProps.

(** ** Auto-decrypt on open *)
Module AutoDecryptProps.
Import FileStateTracker AutoBehaviorHandler AutoDecrypt AutoDecryptSpec
  AutoBehaviorHandlerProps AutoEncryptProps.

Lemma handleDocumentOpened_eligible env tracker doc :
  handleDocumentOpened env tracker doc
  = if eligible env doc then autoDecryptDocument env tracker doc
    else {| opened := doc; decryptedFiles := tracker; decryptCalls := [];
            warnings := [] |}.
Proof.
  unfold handleDocumentOpened, eligible.
  destruct (String.eqb (scheme (uri doc)) "file"); [|done].
  destruct (getOpenBehavior env); try done. cbn.
  destruct (hasMatchingRule env (uri doc)); [|done].
  by destruct (isContentEncrypted env (getText doc)).
Qed.

Lemma handleDocumentOpened_guards env tracker doc :
  let out := handleDocumentOpened env tracker doc in
  (eligible env doc = false ->
     out = {| opened := doc; decryptedFiles := tracker; decryptCalls := [];
              warnings := [] |})
  /\ (forall error,
        eligible env doc = true ->
        decrypt env (fsPath (uri doc)) = Rejected error ->
        out = {| opened := doc; decryptedFiles := tracker;
                 decryptCalls := [fsPath (uri doc)];
                 warnings := [autoDecryptFailed error] |})
  /\ (decryptedFiles out <> tracker ->
      eligible env doc = true
      /\ exists text, decrypt env (fsPath (uri doc)) = Resolved text).
Proof.
  cbv zeta. rewrite handleDocumentOpened_eligible.
  split; [by intros ->|]. split.
  - intros error -> Hd. unfold autoDecryptDocument. by rewrite Hd.
  - destruct (eligible env doc); [|done]. intros Hne. split; [done|].
    unfold autoDecryptDocument in Hne.
    destruct (decrypt env (fsPath (uri doc))) as [text|e]; [eauto|done].
Qed.

Lemma handleDocumentOpened_then_save env saveEnv delivery tracker d doc text
    encrypted :
  eligible env doc = true ->
  decrypt env (fsPath (uri doc)) = Resolved text ->
  applyEdit env = Resolved true ->
  getSaveBehavior saveEnv = SaveAutoEncrypt ->
  encryptContent saveEnv text (fsPath (uri doc)) = Resolved encrypted ->
  isMarkedDecrypted (uri doc) tracker = false ->
  delivery <> NotCalled ->
  let out := handleDocumentOpened env tracker doc in
  getText (opened out) = text
  /\ isMarkedDecrypted (uri doc) (AutoDecrypt.decryptedFiles out) = true
  /\ saveUnder delivery saveEnv
       {| disk := d;
          AutoBehaviorHandler.decryptedFiles :=
            AutoDecrypt.decryptedFiles out |} (opened out)
     = {| disk := <[ fsPath (uri doc) :=
                       match delivery with
                       | EditsApplied => encrypted
                       | _ => text
                       end ]> d;
          AutoBehaviorHandler.decryptedFiles := tracker |}.
Proof.
  intros Hel Hd Ha Hb He Hm Hdel. cbv zeta.
  rewrite handleDocumentOpened_eligible, Hel.
  unfold autoDecryptDocument. rewrite Hd, Ha.
  cbn [opened AutoDecrypt.decryptedFiles getText uri].
  rewrite applyEdits_whole.
  split; [done|]. split; [apply isMarkedDecrypted_markDecrypted|].
  assert (scheme (uri doc) = "file") as Hs.
  { unfold eligible in Hel. apply String.eqb_eq.
    by destruct (String.eqb (scheme (uri doc)) "file"). }
  rewrite (saveUnder_autoEncrypt delivery saveEnv); cbn; try done.
  - rewrite He. f_equal. unfold markEncrypted, markDecrypted.
    apply bool_decide_eq_false in Hm.
    apply set_eq. intros x.
    rewrite elem_of_difference, elem_of_union, elem_of_singleton.
    split; [by intros [[->|?] ?]|].
    intros Hx. split; [by right|]. by intros ->.
  - apply isMarkedDecrypted_markDecrypted.
Qed.

(** Auto-decrypt on open, and its round trip with [autoEncrypt].
    [handleDocumentOpened] leaves alone every document that is not a
    local file, governed by a rule and encrypted, and every document when
    [openBehavior] is not [autoDecrypt]: SOPS is not called, and the
    buffer and the decrypted-set are as they were. When it does call SOPS
    and the decryption fails, it shows a warning and changes nothing
    either; the file enters the decrypted-set only after a decryption
    that succeeded. After such a decryption, when the editor applies the
    edit that replaces the buffer, the buffer holds the plaintext and the
    file is in the set. Saving it then under [autoEncrypt], with SOPS
    encrypting and the will-save listener called, takes the file out of
    the set again, which is then as it was before the file was opened
    (for a file that was not in it); what is written is the encryption
    of the plaintext when the editor applies the edits of the listener's
    thenable, and the plaintext itself when it ignores them. *)
Lemma autoDecrypt_autoEncrypt_round_trip env tracker doc :
  let out := handleDocumentOpened env tracker doc in
  (eligible env doc = false ->
     out = {| opened := doc; decryptedFiles := tracker; decryptCalls := [];
              warnings := [] |})
  /\ (forall error,
        eligible env doc = true ->
        decrypt env (fsPath (uri doc)) = Rejected error ->
        out = {| opened := doc; decryptedFiles := tracker;
                 decryptCalls := [fsPath (uri doc)];
                 warnings := [autoDecryptFailed error] |})
  /\ (AutoDecrypt.decryptedFiles out <> tracker ->
      eligible env doc = true
      /\ exists text, decrypt env (fsPath (uri doc)) = Resolved text)
  /\ (forall saveEnv delivery d text encrypted,
        eligible env doc = true ->
        decrypt env (fsPath (uri doc)) = Resolved text ->
        applyEdit env = Resolved true ->
        getSaveBehavior saveEnv = SaveAutoEncrypt ->
        encryptContent saveEnv text (fsPath (uri doc)) = Resolved encrypted ->
        isMarkedDecrypted (uri doc) tracker = false ->
        delivery <> NotCalled ->
        getText (opened out) = text
        /\ isMarkedDecrypted (uri doc) (AutoDecrypt.decryptedFiles out) = true
        /\ saveUnder delivery saveEnv
             {| disk := d;
                AutoBehaviorHandler.decryptedFiles :=
                  AutoDecrypt.decryptedFiles out |} (opened out)
           = {| disk := <[ fsPath (uri doc) :=
                             match delivery with
                             | EditsApplied => encrypted
                             | _ => text
                             end ]> d;
                AutoBehaviorHandler.decryptedFiles := tracker |}).
Proof.
  cbv zeta.
  destruct (handleDocumentOpened_guards env tracker doc) as (H1 & H2 & H3).
  split; [done|]. split; [done|]. split; [done|].
  intros saveEnv delivery d text encrypted.
  apply handleDocumentOpened_then_save.
Qed.

Lemma autoDecrypt_autoEncrypt_round_trip_witness :
  let out := handleDocumentOpened Inputs.autoDecryptEnv ∅ Scenario.sourceDoc in
  getText (opened out) = "password: hunter2"
  /\ isMarkedDecrypted Scenario.secretsUri (AutoDecrypt.decryptedFiles out)
     = true
  /\ saveUnder EditsApplied Inputs.autoEncryptEnv
       {| disk := Scenario.secretsDisk;
          AutoBehaviorHandler.decryptedFiles :=
            AutoDecrypt.decryptedFiles out |} (opened out)
     = {| disk := <[ "/w/secrets.yaml" := "password: ENC[AES256_GCM]" ]>
                    Scenario.secretsDisk;
          AutoBehaviorHandler.decryptedFiles := ∅ |}.
Proof.
  apply (proj2 (proj2 (proj2
           (autoDecrypt_autoEncrypt_round_trip Inputs.autoDecryptEnv ∅
              Scenario.sourceDoc)))
           Inputs.autoEncryptEnv EditsApplied Scenario.secretsDisk
           "password: hunter2" "password: ENC[AES256_GCM]");
    try reflexivity.
  discriminate.
Defined.

End AutoDecryptProps.

(** ** The debounce of the config watcher *)
Module ConfigWatcherProps.
Import ConfigWatcher ConfigWatcherSpec.

Lemma initial_oneTimerPerKey : oneTimerPerKey initial.
Proof.
  unfold oneTimerPerKey, initial. cbn. repeat split.
  - intros key timer. by rewrite lookup_empty.
  - intros timer cb. by rewrite lookup_empty.
  - intros timer [cb Hcb]. by rewrite lookup_empty in Hcb.
Qed.

Lemma handleEvent_oneTimerPerKey uri emitter st :
  oneTimerPerKey st -> oneTimerPerKey (handleEvent uri emitter st).
Proof.
  intros (H1 & H2 & H3). unfold handleEvent. fold (keyOf uri emitter).
  set (key := keyOf uri emitter).
  set (cleared := match debounceTimers st !! key with
                  | Some existingTimer => delete existingTimer (armed st)
                  | None => armed st
                  end).
  assert (forall timer cb, cleared !! timer = Some cb ->
            armed st !! timer = Some cb /\ cbKey cb <> key) as Hcl.
  { intros timer cb. unfold cleared.
    destruct (debounceTimers st !! key) as [existing|] eqn:Hk.
    - intros Hc. destruct (decide (existing = timer)) as [<-|Hne].
      + by rewrite lookup_delete_eq in Hc.
      + rewrite lookup_delete_ne in Hc by done. split; [done|].
        intros Heq. apply H2 in Hc. rewrite Heq, Hk in Hc. by simplify_eq.
    - intros Hc. split; [done|]. intros Heq. apply H2 in Hc.
      by rewrite Heq, Hk in Hc. }
  assert (forall timer cb, armed st !! timer = Some cb -> cbKey cb <> key ->
            cleared !! timer = Some cb) as Hkeep.
  { intros timer cb Ha Hne. unfold cleared.
    destruct (debounceTimers st !! key) as [existing|] eqn:Hk; [|done].
    rewrite lookup_delete_ne; [done|]. intros <-.
    destruct (H1 _ _ Hk) as (cb' & Hcb' & Hkey). by simplify_eq. }
  assert (cleared !! nextTimer st = None) as Hfresh.
  { destruct (cleared !! nextTimer st) as [cb|] eqn:Hc; [|done].
    apply Hcl in Hc as [Hc _].
    assert (nextTimer st < nextTimer st) by (apply H3; eauto). lia. }
  unfold oneTimerPerKey. cbn. repeat split.
  - intros key' timer. destruct (decide (key = key')) as [<-|Hne].
    + rewrite lookup_insert_eq. intros [= <-].
      rewrite lookup_insert_eq. eauto.
    + rewrite lookup_insert_ne by done. intros Hk.
      destruct (H1 _ _ Hk) as (cb & Hcb & Hkey). exists cb. split; [|done].
      rewrite lookup_insert_ne.
      * apply Hkeep; [done|]. by rewrite Hkey.
      * intros <-. assert (nextTimer st < nextTimer st) by (apply H3; eauto).
        lia.
  - intros timer cb. destruct (decide (nextTimer st = timer)) as [<-|Hne].
    + rewrite lookup_insert_eq. intros [= <-]. cbn.
      by rewrite lookup_insert_eq.
    + rewrite lookup_insert_ne by done. intros Hc.
      destruct (Hcl _ _ Hc) as [Ha Hk].
      rewrite lookup_insert_ne by done. by apply H2.
  - intros timer. destruct (decide (nextTimer st = timer)) as [<-|Hne];
      [lia|].
    rewrite lookup_insert_ne by done. intros [cb Hc].
    apply Hcl in Hc as [Hc _].
    assert (timer < nextTimer st) by (apply H3; eauto). lia.
Qed.

Lemma timerFires_oneTimerPerKey timer st :
  oneTimerPerKey st -> oneTimerPerKey (timerFires timer st).
Proof.
  intros (H1 & H2 & H3). unfold timerFires.
  destruct (armed st !! timer) as [cb|] eqn:Hcb; [|done].
  unfold oneTimerPerKey. cbn. repeat split.
  - intros key' timer'. destruct (decide (cbKey cb = key')) as [<-|Hne].
    + by rewrite lookup_delete_eq.
    + rewrite lookup_delete_ne by done. intros Hk.
      destruct (H1 _ _ Hk) as (cb' & Hcb' & Hkey). exists cb'.
      split; [|done]. rewrite lookup_delete_ne; [done|].
      intros <-. by simplify_eq.
  - intros timer' cb'. destruct (decide (timer = timer')) as [<-|Hne].
    + by rewrite lookup_delete_eq.
    + rewrite lookup_delete_ne by done. intros Hc.
      rewrite lookup_delete_ne; [by apply H2|].
      intros Heq. apply H2 in Hc, Hcb. rewrite Heq in Hcb.
      by simplify_eq.
  - intros timer'. destruct (decide (timer = timer')) as [<-|Hne].
    + rewrite lookup_delete_eq. by intros [? ?].
    + rewrite lookup_delete_ne by done. apply H3.
Qed.

Lemma dispose_armed st timer cb :
  armed (dispose st) !! timer = Some cb ->
  armed st !! timer = Some cb
  /\ forall key, debounceTimers st !! key <> Some timer.
Proof.
  unfold dispose. cbn.
  apply (map_fold_weak_ind
           (fun r (m : gmap string nat) =>
              r !! timer = Some cb ->
              armed st !! timer = Some cb
              /\ forall key, m !! key <> Some timer)).
  - intros H. split; [done|]. intros key. by rewrite lookup_empty.
  - intros key t m r Hm IH Hr.
    destruct (decide (t = timer)) as [->|Hne].
    + by rewrite lookup_delete_eq in Hr.
    + rewrite lookup_delete_ne in Hr by done.
      destruct (IH Hr) as [Ha Hk]. split; [done|].
      intros key'. destruct (decide (key = key')) as [<-|Hkne].
      * rewrite lookup_insert_eq. by intros [= ->].
      * rewrite lookup_insert_ne by done. apply Hk.
Qed.

Lemma dispose_oneTimerPerKey st :
  oneTimerPerKey st -> oneTimerPerKey (dispose st).
Proof.
  intros (H1 & H2 & H3). unfold oneTimerPerKey. repeat split.
  - intros key timer. cbn. by rewrite lookup_empty.
  - intros timer cb Hc. destruct (dispose_armed _ _ _ Hc) as [Ha Hk].
    by destruct (Hk _ (H2 _ _ Ha)).
  - intros timer [cb Hc]. destruct (dispose_armed _ _ _ Hc) as [Ha Hk].
    cbn. apply H3. eauto.
Qed.

Lemma step_oneTimerPerKey st s :
  oneTimerPerKey st -> oneTimerPerKey (step st s).
Proof.
  destruct s; cbn.
  - apply handleEvent_oneTimerPerKey.
  - apply timerFires_oneTimerPerKey.
  - apply dispose_oneTimerPerKey.
Qed.

Lemma run_oneTimerPerKey steps st :
  oneTimerPerKey st -> oneTimerPerKey (foldl step st steps).
Proof.
  revert st. induction steps as [|s steps IH]; intros st Hst; simpl; [done|].
  by apply IH, step_oneTimerPerKey.
Qed.

Lemma burst n uri emitter st :
  let st' := Nat.iter (S n) (handleEvent uri emitter) st in
  debounceTimers st' !! keyOf uri emitter = Some (nextTimer st + n)
  /\ armed st' !! (nextTimer st + n)
     = Some {| cbUri := uri; cbEmitter := emitter;
               cbKey := keyOf uri emitter |}
  /\ nextTimer st' = nextTimer st + S n
  /\ emitted st' = emitted st.
Proof.
  cbv zeta. induction n as [|n IH].
  - cbn. rewrite Nat.add_0_r, !lookup_insert_eq.
    repeat split; try done. lia.
  - destruct IH as (Hk & Ha & Hn & He).
    change (Nat.iter (S (S n)) (handleEvent uri emitter) st)
      with (handleEvent uri emitter
              (Nat.iter (S n) (handleEvent uri emitter) st)).
    generalize dependent (Nat.iter (S n) (handleEvent uri emitter) st).
    intros st1 Hk Ha Hn He. unfold handleEvent at 1 2 3 4.
    fold (keyOf uri emitter). cbn.
    rewrite Hn, !lookup_insert_eq.
    replace (nextTimer st + S n) with (nextTimer st + S n) by done.
    repeat split; try done; try lia.
    all: f_equal; lia.
Qed.

(** However the events, the timers and [dispose] interleave, the armed
    timers are exactly the timers [debounceTimers] holds, one for each
    key. Hence a burst: when the same event for the same file is reported
    several times in a row, only the timer of the last report is armed
    for it, nothing has been emitted meanwhile, and when that timer fires
    the event is emitted once and the key is free again. *)
Lemma debounce_burst_fires_once steps n uri emitter :
  let st := foldl step initial steps in
  let st' := Nat.iter (S n) (handleEvent uri emitter) st in
  let last := nextTimer st + n in
  oneTimerPerKey st'
  /\ (forall timer cb,
        armed st' !! timer = Some cb -> cbKey cb = keyOf uri emitter ->
        timer = last)
  /\ emitted st' = emitted st
  /\ emitted (timerFires last st') = emitted st ++ [(emitter, uri)]
  /\ debounceTimers (timerFires last st') !! keyOf uri emitter = None.
Proof.
  cbv zeta.
  assert (oneTimerPerKey (foldl step initial steps)) as Hst
    by apply run_oneTimerPerKey, initial_oneTimerPerKey.
  destruct (burst n uri emitter (foldl step initial steps))
    as (Hk & Ha & Hn & He).
  assert (oneTimerPerKey
            (Nat.iter (S n) (handleEvent uri emitter)
               (foldl step initial steps))) as Hinv.
  { generalize (S n). intros k. induction k as [|k IH]; [done|].
    cbn. by apply handleEvent_oneTimerPerKey. }
  generalize dependent (Nat.iter (S n) (handleEvent uri emitter)
                          (foldl step initial steps)).
  intros st' Hk Ha Hn He Hinv.
  split; [done|]. split; [|split; [done|]].
  - intros timer cb Hc Hkey. destruct Hinv as (_ & H2 & _).
    apply H2 in Hc. rewrite Hkey, Hk in Hc. by simplify_eq.
  - unfold timerFires. rewrite Ha. cbn. rewrite He.
    split; [done|]. apply lookup_delete_eq.
Qed.

End ConfigWatcherProps.
